(** * ScanPower MCP server: the dynamic operation dispatcher

    A shallow embedding of the server source ([src/unnamed/part_002],
    classes [ScanPowerAPIClient] and [ScanPowerMCPServer]): the operation
    compiler ([generateFromCurrentOpenApi]), the specification loader
    ([loadOpenApiAndGenerateTools]) and the call-tool handler installed by
    [setupHandlers].

    Conventions.
    - JavaScript strings are modelled as their UTF-8 byte sequences (Rocq
      [string]), for well-formed text; every string operation used by the
      source is defined on bytes so that it agrees with the source there.
    - JavaScript objects used as dictionaries (caller arguments, header
      and query sets, the security-scheme registry, the operation [Map])
      are finite maps [gmap string _]; a read of the caller arguments also
      finds what every object inherits from [Object.prototype].
    - Network calls are answered by an oracle ([Upstream]); every call is
      recorded in a trace of [event]s, in the order the source awaits them.
      The request of an operation is recorded as the configuration handed
      to the HTTP client.
    - An exception that leaves the handler is an explicit outcome
      ([Rejected]); the [try]/[catch] of the source is written out.
    - Console output and the transient [op.useBasicAuth] field, written
      and read within one call, are left out. *)

From Stdlib Require Import ZArith NArith Ascii String List Bool Lia.
From stdpp Require Import gmap strings list fin_maps pretty.

Local Open Scope string_scope.
Local Open Scope list_scope.

(* ===================================================================== *)
(** * JavaScript values and string primitives *)
(* ===================================================================== *)

Module JS.

(** The integers that a JavaScript number holds exactly
    ([Number.isSafeInteger]); [String] prints them as their decimal
    digits.  Other numbers (fractions, magnitudes from 2^53 on, [NaN],
    the infinities) are outside the embedding. *)
Definition safe (n : Z) : bool := (Z.abs n <=? 9007199254740991)%Z.

Definition SafeInteger : Type := { n : Z | Is_true (safe n) }.

#[global] Instance SafeInteger_eq_dec : EqDecision SafeInteger.
Proof. unfold SafeInteger. apply _. Defined.

(** The JSON-like values that reach the dispatcher.  Numbers are the
    safe integers; an array or object is carried with the text that
    [String(v)] produces for it (every object is truthy). *)
Inductive value : Type :=
| VUndefined
| VNull
| VBool (b : bool)
| VNumber (n : SafeInteger)
| VString (s : string)
| VObject (repr : string).

#[global] Instance value_eq_dec : EqDecision value.
Proof. solve_decision. Defined.

(** [!!v] *)
Definition truthy (v : value) : bool :=
  match v with
  | VUndefined | VNull => false
  | VBool b => b
  | VNumber n => negb (`n =? 0)%Z
  | VString s => negb (String.eqb s "")
  | VObject _ => true
  end.

(** [String(v)] and template-literal interpolation. *)
Definition to_string (v : value) : string :=
  match v with
  | VUndefined => "undefined"
  | VNull => "null"
  | VBool true => "true"
  | VBool false => "false"
  | VNumber n => pretty (`n)
  | VString s => s
  | VObject repr => repr
  end.

(** [a ?? b] *)
Definition nullish (a b : value) : value :=
  match a with
  | VUndefined | VNull => b
  | _ => a
  end.

(** [a || b] *)
Definition or_else (a b : value) : value :=
  if truthy a then a else b.

(** [v === undefined] *)
Definition is_undefined (v : value) : bool :=
  match v with VUndefined => true | _ => false end.

(** Properties every plain object inherits from [Object.prototype]: a
    bracket read [o[k]] of a key the object does not own finds them. *)
Definition object_prototype : list (string * value) :=
  [ ("constructor", VObject "function Object() { [native code] }");
    ("hasOwnProperty", VObject "function hasOwnProperty() { [native code] }");
    ("isPrototypeOf", VObject "function isPrototypeOf() { [native code] }");
    ("propertyIsEnumerable",
       VObject "function propertyIsEnumerable() { [native code] }");
    ("toLocaleString", VObject "function toLocaleString() { [native code] }");
    ("toString", VObject "function toString() { [native code] }");
    ("valueOf", VObject "function valueOf() { [native code] }");
    ("__defineGetter__",
       VObject "function __defineGetter__() { [native code] }");
    ("__defineSetter__",
       VObject "function __defineSetter__() { [native code] }");
    ("__lookupGetter__",
       VObject "function __lookupGetter__() { [native code] }");
    ("__lookupSetter__",
       VObject "function __lookupSetter__() { [native code] }");
    ("__proto__", VObject "[object Object]") ].

Fixpoint assoc {A : Type} (k : string) (l : list (string * A)) : option A :=
  match l with
  | [] => None
  | (k', a) :: l' => if String.eqb k k' then Some a else assoc k l'
  end.

Definition inherited (k : string) : bool :=
  match assoc k object_prototype with Some _ => true | None => false end.

(** [o[k]] on a plain object. *)
Definition get (o : gmap string value) (k : string) : value :=
  match o !! k with
  | Some v => v
  | None => default VUndefined (assoc k object_prototype)
  end.

(** ** Bytes *)

Definition code (c : ascii) : N := N_of_ascii c.

Definition is_upper (c : ascii) : bool := (65 <=? code c)%N && (code c <=? 90)%N.
Definition is_lower (c : ascii) : bool := (97 <=? code c)%N && (code c <=? 122)%N.
Definition is_digit (c : ascii) : bool := (48 <=? code c)%N && (code c <=? 57)%N.
Definition is_alnum (c : ascii) : bool := is_upper c || is_lower c || is_digit c.

Definition lower_char (c : ascii) : ascii :=
  if is_upper c then ascii_of_N (code c + 32) else c.

(** [s.toLowerCase()], on the ASCII letters.  The source only compares
    the result with [http], [https], [basic] and [bearer], and no
    non-ASCII letter lowercases into these words. *)
Fixpoint toLowerCase (s : string) : string :=
  match s with
  | EmptyString => EmptyString
  | String c s' => String (lower_char c) (toLowerCase s')
  end.

(** [s.startsWith(p)] *)
Definition startsWith (p s : string) : bool := String.prefix p s.

(** [s.includes(sub)] *)
Fixpoint includes (sub s : string) : bool :=
  String.prefix sub s ||
  match s with
  | EmptyString => false
  | String _ s' => includes sub s'
  end.

(** [s.endsWith('/')] *)
Fixpoint endsWithSlash (s : string) : bool :=
  match s with
  | EmptyString => false
  | String c EmptyString => Ascii.eqb c "/"
  | String _ s' => endsWithSlash s'
  end.

(** [name.replace(/[-.]/g, '_')] *)
Definition sanitize_char (c : ascii) : ascii :=
  if Ascii.eqb c "-" || Ascii.eqb c "." then "_"%char else c.

Fixpoint sanitize (s : string) : string :=
  match s with
  | EmptyString => EmptyString
  | String c s' => String (sanitize_char c) (sanitize s')
  end.

(** [pathKey.replace(/[^a-zA-Z0-9]+/g, '_')]: every maximal run of
    non-alphanumeric bytes becomes one underscore. *)
Fixpoint collapse_from (in_run : bool) (s : string) : string :=
  match s with
  | EmptyString => EmptyString
  | String c s' =>
      if is_alnum c then String c (collapse_from false s')
      else if in_run then collapse_from true s'
      else String "_" (collapse_from true s')
  end.

Definition collapse_non_alnum (s : string) : string := collapse_from false s.

(** ** [encodeURIComponent] *)

Definition unreserved (c : ascii) : bool :=
  is_alnum c ||
  existsb (Ascii.eqb c)
    ["-"; "_"; "."; "!"; "~"; "*"; "'"; "("; ")"]%char.

Definition hex_digit (n : N) : ascii :=
  if (n <? 10)%N then ascii_of_N (48 + n) else ascii_of_N (55 + n).

Definition percent (c : ascii) : string :=
  String "%" (String (hex_digit (code c / 16)) (String (hex_digit (code c mod 16)) "")).

Fixpoint encodeURIComponent (s : string) : string :=
  match s with
  | EmptyString => EmptyString
  | String c s' =>
      if unreserved c then String c (encodeURIComponent s')
      else percent c ++ encodeURIComponent s'
  end.

(** ** [String.prototype.replace] with a string pattern

    Only the first occurrence is replaced.  The source always passes an
    [encodeURIComponent] result as replacement, which holds no [$], so the
    replacement is inserted literally. *)
Fixpoint drop_chars (n : nat) (s : string) : string :=
  match n, s with
  | O, _ => s
  | S n', String _ s' => drop_chars n' s'
  | S _, EmptyString => EmptyString
  end.

Fixpoint replace_first (pat rep s : string) : string :=
  if String.prefix pat s then rep ++ drop_chars (String.length pat) s
  else match s with
       | EmptyString => EmptyString
       | String c s' => String c (replace_first pat rep s')
       end.

(** ** [String.prototype.trim]

    White space and line terminators of ECMAScript, in UTF-8:
    U+0009..U+000D, U+0020, U+00A0, U+1680, U+2000..U+200A, U+2028,
    U+2029, U+202F, U+205F, U+3000, U+FEFF. *)
Definition ascii_space (c : ascii) : bool :=
  ((9 <=? code c)%N && (code c <=? 13)%N) || (code c =? 32)%N.

Definition space3 (a b c : N) : bool :=
  ((a =? 225) && (b =? 154) && (c =? 128))%N
  || ((a =? 226) && (b =? 128) &&
      (((128 <=? c) && (c <=? 138)) || (c =? 168) || (c =? 169) || (c =? 175)))%N
  || ((a =? 226) && (b =? 129) && (c =? 159))%N
  || ((a =? 227) && (b =? 128) && (c =? 128))%N
  || ((a =? 239) && (b =? 187) && (c =? 191))%N.

Fixpoint trimStart (s : string) : string :=
  match s with
  | EmptyString => EmptyString
  | String c s1 =>
      if ascii_space c then trimStart s1
      else match s1 with
           | EmptyString => s
           | String c1 s2 =>
               if ((code c =? 194) && (code c1 =? 160))%N then trimStart s2
               else match s2 with
                    | EmptyString => s
                    | String c2 s3 =>
                        if space3 (code c) (code c1) (code c2)
                        then trimStart s3 else s
                    end
           end
  end.

Definition blank (s : string) : bool := String.eqb (trimStart s) "".

Fixpoint trimEnd (s : string) : string :=
  match s with
  | EmptyString => EmptyString
  | String c s' => if blank s then EmptyString else String c (trimEnd s')
  end.

Definition trim (s : string) : string := trimEnd (trimStart s).

(** ** Tests on the specification source *)

(** [/^https?:\/\//i.test(s)] *)
Definition is_http_url (s : string) : bool :=
  let l := toLowerCase s in
  String.prefix "http://" l || String.prefix "https://" l.

(** [/^blob:https?:\/\//i.test(s)] *)
Definition is_blob_url (s : string) : bool :=
  let l := toLowerCase s in
  String.prefix "blob:http://" l || String.prefix "blob:https://" l.

End JS.

Export JS.

(* ===================================================================== *)
(** * Data model *)
(* ===================================================================== *)

(** A schema fragment of the OpenAPI document, kept as its JSON text;
    [GenericObject] is the literal [{ type: 'object' }] of the source. *)
Inductive Schema : Type :=
| GenericObject
| Fragment (json : string).

(** A parameter object of the document ([in], [name], [required],
    [description], [schema]). *)
Record ParamDef : Type := {
  pd_name : string;
  pd_in : string;
  pd_required : bool;
  pd_description : option string;
  pd_schema : option Schema
}.

(** An entry of a [parameters] array: a parameter object or a [$ref]. *)
Inductive ParamEntry : Type :=
| Inline (d : ParamDef)
| Ref (pointer : string).

(** One security requirement object: scheme name -> scopes, in key order. *)
Definition SecurityRequirement : Type := list (string * list string).

(** An entry of [components.securitySchemes]: [String(scheme.type || '')]
    and [String(scheme.scheme || '')]. *)
Record SecurityScheme : Type := {
  scheme_type : string;
  scheme_scheme : string
}.

Inductive Method : Type := GET | POST | PUT | DELETE | PATCH.

#[global] Instance Method_eq_dec : EqDecision Method.
Proof. solve_decision. Defined.

(** The array [['get', 'post', 'put', 'delete', 'patch']], upper-cased. *)
Definition methods : list Method := [GET; POST; PUT; DELETE; PATCH].

Definition method_key (m : Method) : string :=
  match m with
  | GET => "get" | POST => "post" | PUT => "put"
  | DELETE => "delete" | PATCH => "patch"
  end.

(** An operation object of the document.  [requestBody] is the content
    map of the request body (media type -> schema), when there is one. *)
Record OperationObject : Type := {
  operationId : option string;
  summary : option string;
  description : option string;
  parameters : list ParamEntry;
  requestBody : option (list (string * option Schema));
  op_security : option (list SecurityRequirement)
}.

Record PathItem : Type := {
  item_parameters : list ParamEntry;
  item_operations : list (Method * OperationObject)
}.

(** The parsed document.  [paths] is in [Object.keys] order;
    [ref_targets] gives, for a [$ref] pointer, the object the source
    reaches by walking the pointer from the document root. *)
Record OpenApi : Type := {
  paths : list (string * PathItem);
  doc_security : option (list SecurityRequirement);
  securitySchemes : gmap string SecurityScheme;
  ref_targets : gmap string ParamDef
}.

(** [paramDefs]: the parameter objects bucketed by location. *)
Record ParamDefs : Type := {
  defs_path : list ParamDef;
  defs_query : list ParamDef;
  defs_header : list ParamDef
}.

(** The Operation Descriptor stored in [operationMap]. *)
Record Operation : Type := {
  method : Method;
  path : string;
  pathHasTrailingSlash : bool;
  pathParams : list string;
  queryParams : list string;
  headerParams : list string;
  paramDefs : ParamDefs;
  security : list SecurityRequirement;
  bodyRequired : bool;
  bodySchema : option Schema
}.

(** The kinds of property that [inputSchema.properties] advertises. *)
Inductive Property : Type :=
| PathProperty | QueryProperty | HeaderProperty | BodyProperty | TokenProperty.

Record Tool : Type := {
  tool_name : string;
  tool_description : string;
  tool_properties : gmap string Property;
  tool_required : option (list string)
}.

(** [ScanPowerMCPServer]: the document, the two tables and the flag. *)
Record Server : Type := {
  openApi : option OpenApi;
  operationMap : gmap string Operation;
  generatedTools : list Tool;
  isReady : bool
}.

(** The server as the constructor leaves it. *)
Definition new_server : Server :=
  {| openApi := None; operationMap := ∅; generatedTools := []; isReady := false |}.

(* ===================================================================== *)
(** * Operation compiler ([generateFromCurrentOpenApi]) *)
(* ===================================================================== *)

Section Compiler.

Variable doc : OpenApi.

(** [rawParams.map(...)]: a reference is replaced by its target; one that
    resolves to nothing stays as it is and has no [in], so that every
    filter below skips it. *)
Definition resolve (p : ParamEntry) : option ParamDef :=
  match p with
  | Inline d => Some d
  | Ref pointer => ref_targets doc !! pointer
  end.

Definition resolved_params (item : PathItem) (o : OperationObject) : list ParamDef :=
  omap resolve (item_parameters item ++ parameters o).

Definition located (loc : string) (ps : list ParamDef) : list ParamDef :=
  List.filter (fun p => String.eqb (pd_in p) loc) ps.

(** [op.operationId || `${m}_${pathKey.replace(...)}`] *)
Definition operation_name (pathKey : string) (m : Method) (o : OperationObject) : string :=
  match operationId o with
  | Some id => if String.eqb id "" then method_key m ++ "_" ++ collapse_non_alnum pathKey else id
  | None => method_key m ++ "_" ++ collapse_non_alnum pathKey
  end.

(** [op.summary || op.description || `${m.toUpperCase()} ${pathKey}`] *)
Definition nonempty_text (o : option string) : option string :=
  match o with
  | Some s => if String.eqb s "" then None else Some s
  | None => None
  end.

Definition method_text (m : Method) : string :=
  match m with
  | GET => "GET" | POST => "POST" | PUT => "PUT"
  | DELETE => "DELETE" | PATCH => "PATCH"
  end.

Definition operation_text (pathKey : string) (m : Method) (o : OperationObject) : string :=
  match nonempty_text (summary o) with
  | Some s => s
  | None => match nonempty_text (description o) with
            | Some s => s
            | None => method_text m ++ " " ++ pathKey
            end
  end.

(** The JSON media type of the request body, when declared. *)
Definition json_body (o : OperationObject) : option (option Schema) :=
  match requestBody o with
  | Some content => assoc "application/json" content
  | None => None
  end.

(** [pathKey && pathKey.endsWith('/')], then the override for
    [getProxyUsers] on [/account]; the flag is later compared with
    [=== true]. *)
Definition trailing_slash_flag (pathKey name : string) : bool :=
  let pathHasTrailingSlash := endsWithSlash pathKey in
  if negb pathHasTrailingSlash && String.eqb pathKey "/account"
     && String.eqb name "getProxyUsers"
  then true
  else pathHasTrailingSlash.

Definition compile_operation (pathKey : string) (item : PathItem)
    (m : Method) (o : OperationObject) : string * Operation :=
  let name := operation_name pathKey m o in
  let params := resolved_params item o in
  (name,
   {| method := m;
      path := pathKey;
      pathHasTrailingSlash := trailing_slash_flag pathKey name;
      pathParams := map pd_name (located "path" params);
      queryParams := map pd_name (located "query" params);
      headerParams := map pd_name (located "header" params);
      paramDefs := {| defs_path := located "path" params;
                      defs_query := located "query" params;
                      defs_header := located "header" params |};
      security := match op_security o with
                  | Some s => s
                  | None => default [] (doc_security doc)
                  end;
      bodyRequired := match json_body o with Some _ => true | None => false end;
      bodySchema := match json_body o with Some s => s | None => None end |}).

Definition insert_properties (kind : Property) (names : list string)
    (props : gmap string Property) : gmap string Property :=
  fold_left (fun acc n => <[sanitize n := kind]> acc) names props.

Definition compile_tool (pathKey : string) (m : Method)
    (o : OperationObject) (op : Operation) : Tool :=
  let props := insert_properties PathProperty (pathParams op) ∅ in
  let props := insert_properties QueryProperty (queryParams op) props in
  let props := insert_properties HeaderProperty (headerParams op) props in
  let props := if bodyRequired op then <["body" := BodyProperty]> props else props in
  let props := <["api_token" := TokenProperty]> props in
  let required := map sanitize (pathParams op) in
  {| tool_name := operation_name pathKey m o;
     tool_description := operation_text pathKey m o;
     tool_properties := props;
     tool_required := match required with [] => None | _ => Some required end |}.

(** [pathItem[m]] for the methods in the fixed order. *)
Definition item_operation (item : PathItem) (m : Method) : option OperationObject :=
  snd <$> List.find (fun e => bool_decide (fst e = m)) (item_operations item).

Definition compile_item (entry : string * PathItem) : list (Tool * (string * Operation)) :=
  let '(pathKey, item) := entry in
  omap (fun m =>
          match item_operation item m with
          | Some o =>
              let e := compile_operation pathKey item m o in
              Some (compile_tool pathKey m o (snd e), e)
          | None => None
          end) methods.

Definition compile_all : list (Tool * (string * Operation)) :=
  concat (map compile_item (paths doc)).

(** [opMap.set(operationId, ...)] for every compiled operation, in
    order: a later operation with the same identifier replaces the
    earlier one. *)
Definition operation_table (entries : list (string * Operation)) : gmap string Operation :=
  fold_left (fun acc e => <[fst e := snd e]> acc) entries ∅.

End Compiler.

(** [generateFromCurrentOpenApi()].  With no document the tables are
    emptied and the function returns at once. *)
Definition generateFromCurrentOpenApi (srv : Server) : Server :=
  match openApi srv with
  | None =>
      {| openApi := None; operationMap := ∅; generatedTools := [];
         isReady := isReady srv |}
  | Some doc =>
      {| openApi := Some doc;
         operationMap := operation_table (map snd (compile_all doc));
         generatedTools := map fst (compile_all doc);
         isReady := true |}
  end.

(* ===================================================================== *)
(** * Specification loader ([loadOpenApiAndGenerateTools]) *)
(* ===================================================================== *)

(** What [axios.get(specSource)] followed by the parsing step yields:
    the request fails, the body does not parse (or compilation throws),
    or a JSON value is obtained; [Parsed None] is a JSON value that is
    falsy ([null], [0], [false]). *)
Inductive Fetched : Type :=
| FetchFailed
| Unparseable
| Parsed (document : option OpenApi).

Definition clear_tables (srv : Server) : Server :=
  {| openApi := None; operationMap := ∅; generatedTools := [];
     isReady := isReady srv |}.

Definition set_ready (srv : Server) : Server :=
  {| openApi := openApi srv; operationMap := operationMap srv;
     generatedTools := generatedTools srv; isReady := true |}.

Definition set_openApi (d : option OpenApi) (srv : Server) : Server :=
  {| openApi := d; operationMap := operationMap srv;
     generatedTools := generatedTools srv; isReady := isReady srv |}.

(** The loader returns the new server state and the URLs it fetched. *)
Definition loadOpenApiAndGenerateTools (specSource : option string)
    (fetch : string -> Fetched) (srv : Server) : Server * list string :=
  match specSource with
  | Some src =>
      if negb (String.eqb src "") && (is_http_url src || is_blob_url src) then
        let srv := clear_tables srv in
        if is_blob_url src then (set_ready srv, [])
        else
          match fetch src with
          | FetchFailed => (set_ready (clear_tables srv), [src])
          | Unparseable => (set_ready (clear_tables srv), [src])
          | Parsed d => (generateFromCurrentOpenApi (set_openApi d srv), [src])
          end
      else (srv, [])
  | None => (srv, [])
  end.

(* ===================================================================== *)
(** * Upstream client ([ScanPowerAPIClient]) *)
(* ===================================================================== *)

Record ScanPowerConfig : Type := {
  baseUrl : string;
  username : string;
  password : string;
  proxyUserId : option string
}.

(** The session state: the static configuration, the marketplace id of
    the Amazon configuration, and the two cached tokens (initially
    [null]). *)
Record Client : Type := {
  config : ScanPowerConfig;
  marketplaceId : string;
  apiToken : value;
  amazonAccessToken : value
}.

(** The configuration of one request, as handed to [client.request]. *)
Record AxiosConfig : Type := {
  cfg_method : Method;
  url : string;
  params : option (gmap string value);
  data : value;
  headers : gmap string value;
  auth : option (string * string)
}.

(** The answer of the upstream to one HTTP exchange. *)
Inductive Reply (A : Type) : Type :=
| Failed (reason : string)
| Replied (payload : A).

Arguments Failed {A} reason.
Arguments Replied {A} payload.

(** [response.data] of a dispatched request, as parsed from JSON (a body
    that is not JSON is a [JString]); the fields of an object are its
    own properties, each key once. *)
#[warnings="-register-all"]
Inductive Json : Type :=
| JNull
| JBool (b : bool)
| JNumber (n : SafeInteger)
| JString (s : string)
| JArray (items : list Json)
| JObject (fields : list (string * Json)).

(** [!!j] *)
Definition json_truthy (j : Json) : bool :=
  match j with
  | JNull => false
  | JBool b => b
  | JNumber n => negb (`n =? 0)%Z
  | JString s => negb (String.eqb s "")
  | JArray _ | JObject _ => true
  end.

(** [String(j)]; an array joins the texts of its elements with commas,
    [null] counting as the empty text. *)
Fixpoint json_text (j : Json) : string :=
  match j with
  | JNull => "null"
  | JBool true => "true"
  | JBool false => "false"
  | JNumber n => pretty (`n)
  | JString s => s
  | JArray items =>
      String.concat ","
        (List.map (fun x => match x with JNull => "" | _ => json_text x end) items)
  | JObject _ => "[object Object]"
  end.

(** [j?.[k]] for a key that no prototype defines (the source reads
    [id], [name] and [items]); [None] is [undefined]. *)
Definition member (j : Json) (k : string) : option Json :=
  match j with
  | JObject fields => assoc k fields
  | _ => None
  end.

(** The upstream API: [GET /api/v2/token] (given the [X-Proxy] header,
    answering [response.data.token]), [GET /api/az/access-token] (given
    the marketplace, answering [response.data.access_token]) and every
    dispatched request (answering [response.data]). *)
Record Upstream : Type := {
  token_endpoint : option string -> Reply value;
  access_token_endpoint : string -> Reply value;
  api : AxiosConfig -> Reply Json
}.

(** The HTTP exchanges, in the order they are awaited. *)
Inductive event : Type :=
| Authenticate (user pass : string) (xProxy : option string)
| AccessToken (marketplace : string)
| Request (cfg : AxiosConfig).

Definition setApiToken (token : value) (c : Client) : Client :=
  {| config := config c; marketplaceId := marketplaceId c;
     apiToken := token; amazonAccessToken := amazonAccessToken c |}.

Definition setAmazonAccessToken (token : value) (c : Client) : Client :=
  {| config := config c; marketplaceId := marketplaceId c;
     apiToken := apiToken c; amazonAccessToken := token |}.

Definition setProxyUserId (proxy : option string) (c : Client) : Client :=
  {| config := {| baseUrl := baseUrl (config c); username := username (config c);
                  password := password (config c); proxyUserId := proxy |};
     marketplaceId := marketplaceId c;
     apiToken := apiToken c; amazonAccessToken := amazonAccessToken c |}.

(** [this.config.proxyUserId ? { 'X-Proxy': ... } : {}] *)
Definition proxy_header (c : Client) : option string :=
  match proxyUserId (config c) with
  | Some id => if String.eqb id "" then None else Some id
  | None => None
  end.

(** [authenticate()]: the thrown message on the left. *)
Definition authenticate (up : Upstream) (c : Client) : option string * Client * list event :=
  let exchange := Authenticate (username (config c)) (password (config c)) (proxy_header c) in
  match token_endpoint up (proxy_header c) with
  | Replied token => (None, setApiToken token c, [exchange])
  | Failed reason => (Some ("Authentication failed: " +:+ reason), c, [exchange])
  end.

(** [getAmazonAccessToken()]: the thrown message or the token. *)
Definition getAmazonAccessToken (up : Upstream) (c : Client)
  : (string + value) * Client * list event :=
  if truthy (amazonAccessToken c) then (inr (amazonAccessToken c), c, [])
  else
    match access_token_endpoint up (marketplaceId c) with
    | Replied token => (inr token, setAmazonAccessToken token c, [AccessToken (marketplaceId c)])
    | Failed reason =>
        (inl ("Failed to get Amazon access token: " +:+ reason), c,
         [AccessToken (marketplaceId c)])
    end.

(* ===================================================================== *)
(** * Tool dispatcher (the [CallToolRequestSchema] handler) *)
(* ===================================================================== *)

(** An entry of [missingInputs]. *)
Record MissingInput : Type := {
  mi_name : string;
  mi_description : option string;
  mi_in : string;
  mi_schema : option Schema
}.

(** An entry of the [requires] array of the elicitation response. *)
Record RequiredInput : Type := {
  ri_name : string;
  ri_description : option string;
  ri_schema : option Schema
}.

Definition required_input (mi : MissingInput) : RequiredInput :=
  {| ri_name := mi_name mi; ri_description := mi_description mi;
     ri_schema := mi_schema mi |}.

(** [requestDetails] of the [catch] block ([axiosConfig] has no [auth]). *)
Record RequestDetails : Type := {
  toolName : string;
  arguments : option (gmap string value);
  axiosConfig : AxiosConfig
}.

(** An entry of the user list that [getProxyUsers] is answered with. *)
Record ProxyUser : Type := {
  user_id : string;
  user_name : option string
}.

(** The responses of the handler.  [Content] carries [response.data],
    which the source renders with [JSON.stringify]; [ProxyUsers] carries
    the users of the formatted list; [ErrorResult] carries the message
    and the request details, rendered with [JSON.stringify] too. *)
Inductive ToolResult : Type :=
| NotReady
| ProxyUserSet (id : string)
| Requires (inputs : list RequiredInput)
| Content (payload : Json)
| ProxyUsers (users : list ProxyUser)
| ErrorResult (message : string) (details : RequestDetails).

(** The handler returns a response or its promise is rejected. *)
Inductive Outcome : Type :=
| Returned (r : ToolResult)
| Rejected (exn : string).

Definition isError (r : ToolResult) : bool :=
  match r with
  | NotReady | ErrorResult _ _ => true
  | ProxyUserSet _ | Requires _ | Content _ | ProxyUsers _ => false
  end.

(** The seven bytes that the source holds before [ Proxy user
    successfully set]: U+00E2, U+0153 and U+2026 in UTF-8 (a check mark,
    U+2705, whose bytes were read as Windows-1252). *)
Definition check_mark : string :=
  String (ascii_of_N 195) (String (ascii_of_N 162)
    (String (ascii_of_N 197) (String (ascii_of_N 147)
      (String (ascii_of_N 226) (String (ascii_of_N 128)
        (String (ascii_of_N 166) "")))))).

Definition newline : string := String (ascii_of_N 10) "".

Definition quote : string := String (ascii_of_N 34) "".

(** [`${idx + 1}. ${u.name || 'Unnamed'} (ID: ${u.id})`] *)
Definition user_line (idx : nat) (u : ProxyUser) : string :=
  pretty (S idx) +:+ ". "
  +:+ match user_name u with
      | Some n => if String.eqb n "" then "Unnamed" else n
      | None => "Unnamed"
      end
  +:+ " (ID: " +:+ user_id u +:+ ")".

(** [responseText] of the user list ([users] is not empty there). *)
Definition users_text (users : list ProxyUser) : string :=
  "Available Proxy Users:" +:+ newline +:+ newline
  +:+ String.concat newline (imap user_line users)
  +:+ newline +:+ newline
  +:+ "To set a proxy user for subsequent API calls, call getProxyUsers again with the 'proxy_user_id' parameter set to one of the IDs above."
  +:+ newline +:+ newline
  +:+ "Example: Call getProxyUsers with arguments: {" +:+ quote +:+ "proxy_user_id"
  +:+ quote +:+ ": " +:+ quote
  +:+ match users with u :: _ => user_id u | [] => "" end
  +:+ quote +:+ "}".

(** The text of the first content item, where the source builds it
    without [JSON.stringify]; an elicitation has no content item. *)
Definition text (r : ToolResult) : option string :=
  match r with
  | NotReady => Some "Server is not ready yet. Please wait for OpenAPI spec to load."
  | ProxyUserSet id =>
      Some (check_mark +:+ " Proxy user successfully set to: " +:+ id +:+ newline
            +:+ newline
            +:+ "This proxy user will be used for all subsequent API calls until changed.")
  | ProxyUsers users => Some (users_text users)
  | Requires _ | Content _ | ErrorResult _ _ => None
  end.

(** The errors thrown inside the [try] block. *)
Inductive Error : Type :=
| UnknownTool (name : string)
| AuthenticationError (message : string)
| MissingBearerToken
| MissingCredentials
| RequestError (message : string).

Definition error_message (e : Error) : string :=
  match e with
  | UnknownTool name => "Unknown tool: " ++ name
  | AuthenticationError message => message
  | MissingBearerToken => "Missing bearer token (api_token)"
  | MissingCredentials =>
      "SCANPOWER_USERNAME and SCANPOWER_PASSWORD are required for basic authentication"
  | RequestError message => message
  end.

(** What reading [op.method] throws when [op] is [undefined], as
    [operationMap.get] leaves it for a name that is not in the table. *)
Definition undefined_method_TypeError : string :=
  "Cannot read properties of undefined (reading 'method')".

(** FORMAT_RESULT *)

(** [{ id: String(u?.id ?? ''), name: u?.name ? String(u.name) : undefined }] *)
Definition proxy_user (u : Json) : ProxyUser :=
  {| user_id := match member u "id" with
                | None | Some JNull => ""
                | Some id => json_text id
                end;
     user_name := match member u "name" with
                  | Some name =>
                      if json_truthy name then Some (json_text name) else None
                  | None => None
                  end |}.

(** [.map(...).filter(u => !!u.id)] *)
Definition listed (items : list Json) : list ProxyUser :=
  List.filter (fun u => negb (String.eqb (user_id u) "")) (List.map proxy_user items).

(** [users]: read in the data when it is an array, or in [dataOut.items]
    when the data is truthy and holds an array there. *)
Definition proxy_users (dataOut : Json) : list ProxyUser :=
  match dataOut with
  | JArray items => listed items
  | _ =>
      if json_truthy dataOut then
        match member dataOut "items" with
        | Some (JArray items) => listed items
        | _ => []
        end
      else []
  end.

(** The answer to a reply: for [getProxyUsers] with users in the data,
    the formatted list; the data itself otherwise. *)
Definition format_result (name : string) (data : Json) : ToolResult :=
  if String.eqb name "getProxyUsers" then
    match proxy_users data with
    | [] => Content data
    | (_ :: _) as users => ProxyUsers users
    end
  else Content data.

Section Dispatcher.

Variable srv : Server.
Variable up : Upstream.

(** [argsOrEmpty[p] ?? argsOrEmpty[p.replace(/[-.]/g, '_')]] *)
Definition argument (args : gmap string value) (p : string) : value :=
  nullish (get args p) (get args (sanitize p)).

(** [(defs || []).find(pd => pd.name === p)] *)
Definition find_def (defs : list ParamDef) (p : string) : option ParamDef :=
  List.find (fun pd => String.eqb (pd_name pd) p) defs.

Definition missing (defs : list ParamDef) (p loc : string) : MissingInput :=
  {| mi_name := sanitize p;
     mi_description := find_def defs p ≫= pd_description;
     mi_in := loc;
     mi_schema := find_def defs p ≫= pd_schema |}.

(** [def?.required] *)
Definition required (defs : list ParamDef) (p : string) : bool :=
  match find_def defs p with
  | Some d => pd_required d
  | None => false
  end.

(** BUILD_URL: the loop over [op.pathParams]; returns the path and the
    entries pushed on [missingInputs]. *)
Fixpoint path_loop (op : Operation) (args : gmap string value)
    (ps : list string) (urlPath : string) : string * list MissingInput :=
  match ps with
  | [] => (urlPath, [])
  | p :: rest =>
      let v := argument args p in
      if is_undefined v then
        let '(u, ms) := path_loop op args rest urlPath in
        (u, missing (defs_path (paramDefs op)) p "path" :: ms)
      else
        path_loop op args rest
          (replace_first ("{" ++ p ++ "}") (encodeURIComponent (to_string v)) urlPath)
  end.

Definition build_url (op : Operation) (args : gmap string value) : string * list MissingInput :=
  let '(urlPath, ms) := path_loop op args (pathParams op) (path op) in
  (if pathHasTrailingSlash op && negb (endsWithSlash urlPath) then urlPath +:+ "/" else urlPath,
   ms).

(** BUILD_QUERY *)
Fixpoint query_loop (op : Operation) (args : gmap string value)
    (qs : list string) (queryParams : gmap string value)
  : gmap string value * list MissingInput :=
  match qs with
  | [] => (queryParams, [])
  | q :: rest =>
      let val := argument args q in
      if negb (is_undefined val) then query_loop op args rest (<[q := val]> queryParams)
      else
        let '(qp, ms) := query_loop op args rest queryParams in
        (qp, (if required (defs_query (paramDefs op)) q
              then [missing (defs_query (paramDefs op)) q "query"] else []) ++ ms)
  end.

(** The special case of the header loop: the cached vendor token, after
    one attempt to fetch it when none is cached; a failure is swallowed. *)
Definition vendor_token (c : Client) : value * Client * list event :=
  if negb (truthy (amazonAccessToken c)) then
    let '(_, c', tr) := getAmazonAccessToken up c in
    (amazonAccessToken c', c', tr)
  else (amazonAccessToken c, c, []).

(** BUILD_HEADERS *)
Fixpoint header_loop (op : Operation) (args : gmap string value)
    (hs : list string) (headers : gmap string value) (c : Client)
  : gmap string value * list MissingInput * Client * list event :=
  match hs with
  | [] => (headers, [], c, [])
  | h :: rest =>
      let val := argument args h in
      let '(val, c1, tr) :=
        if String.eqb h "x-access-token" && negb (truthy val)
        then vendor_token c else (val, c, []) in
      if negb (is_undefined val) then
        let '(hd, ms, c2, tr') := header_loop op args rest (<[h := val]> headers) c1 in
        (hd, ms, c2, tr ++ tr')
      else
        let '(hd, ms, c2, tr') := header_loop op args rest headers c1 in
        (hd, (if required (defs_header (paramDefs op)) h
              then [missing (defs_header (paramDefs op)) h "header"] else []) ++ ms,
         c2, tr ++ tr')
  end.

(** BUILD_BODY *)
Definition body_missing (op : Operation) (data : value) : list MissingInput :=
  if bodyRequired op && is_undefined data then
    [ {| mi_name := "body"; mi_description := Some "Request body"; mi_in := "body";
         mi_schema := Some (default GenericObject (bodySchema op)) |} ]
  else [].

(** CHECK_MISSING: [missingInputs.filter(mi => mi.name !== 'api_token')] *)
Definition filteredMissing (ms : list MissingInput) : list MissingInput :=
  List.filter (fun mi => negb (String.eqb (mi_name mi) "api_token")) ms.

(** RESOLVE_AUTH *)

(** [this.openApi?.components?.securitySchemes?.[schemeName]].  (A name
    that only finds an inherited property reads as a scheme without
    [type]; no such name holds [basic], so it acts as an undeclared one.) *)
Definition lookup_scheme (schemeName : string) : option SecurityScheme :=
  match openApi srv with
  | Some doc => securitySchemes doc !! schemeName
  | None => None
  end.

Definition is_http (sch : SecurityScheme) : bool :=
  let type := toLowerCase (scheme_type sch) in
  String.eqb type "http" || String.eqb type "https".

(** One turn of the first loop: an unregistered name is skipped. *)
Definition indicates_basic (schemeName : string) : bool :=
  match lookup_scheme schemeName with
  | None => false
  | Some sch =>
      (is_http sch && String.eqb (toLowerCase (scheme_scheme sch)) "basic")
      || includes "basic" (toLowerCase schemeName)
      || includes "basic_auth" (toLowerCase schemeName)
  end.

Definition uses_basic (requirement : SecurityRequirement) : bool :=
  existsb indicates_basic (map fst requirement).

Definition indicates_bearer (schemeName : string) : bool :=
  match lookup_scheme schemeName with
  | None => false
  | Some sch => is_http sch && String.eqb (toLowerCase (scheme_scheme sch)) "bearer"
  end.

(** The body of the bearer branch. *)
Definition attach_bearer (args : gmap string value) (headers : gmap string value)
    (c : Client) : (Error + gmap string value) * Client * list event :=
  let token := or_else (get args "api_token") (apiToken c) in
  let '(thrown, c1, tr) :=
    if negb (truthy token) then authenticate up c else (None, c, []) in
  match thrown with
  | Some message => (inl (AuthenticationError message), c1, tr)
  | None =>
      let finalToken := or_else (get args "api_token") (apiToken c1) in
      if negb (truthy finalToken) then (inl MissingBearerToken, c1, tr)
      else (inr (<["Authorization" := VString ("Bearer " +:+ to_string finalToken)]> headers),
            c1, tr)
  end.

(** The second loop: the first registered HTTP bearer scheme ends it. *)
Fixpoint bearer_loop (args : gmap string value) (names : list string)
    (headers : gmap string value) (c : Client)
  : (Error + gmap string value) * Client * list event :=
  match names with
  | [] => (inr headers, c, [])
  | schemeName :: rest =>
      if indicates_bearer schemeName then attach_bearer args headers c
      else bearer_loop args rest headers c
  end.

(** Returns the headers and [useBasicAuth], or the thrown error. *)
Definition resolve_auth (op : Operation) (args : gmap string value)
    (headers : gmap string value) (c : Client)
  : (Error + gmap string value * bool) * Client * list event :=
  match security op with
  | [] => (inr (headers, false), c, [])
  | requirement :: _ =>
      if uses_basic requirement then (inr (delete "Authorization" headers, true), c, [])
      else
        let '(r, c1, tr) := bearer_loop args (map fst requirement) headers c in
        (match r with
         | inl e => inl e
         | inr headers' => inr (headers', false)
         end, c1, tr)
  end.

(** The [catch] block: it reads [op.method], and [op] is [undefined]
    when the tool name was not found. *)
Definition caught (name : string) (typedArgs : option (gmap string value))
    (op : option Operation) (urlPath : string) (queryParams : gmap string value)
    (data : value) (headers : gmap string value) (e : Error) : Outcome :=
  match op with
  | None => Rejected undefined_method_TypeError
  | Some op =>
      Returned (ErrorResult (error_message e)
        {| toolName := name;
           arguments := typedArgs;
           axiosConfig :=
             {| cfg_method := method op; url := urlPath;
                params := if Nat.eqb (size queryParams) 0 then None else Some queryParams;
                data := data; headers := headers; auth := None |} |})
  end.

(** RESOLVE_AUTH and EXECUTE, with the locals the [catch] block reads. *)
Definition resolve_and_execute (name : string)
    (typedArgs : option (gmap string value)) (op : Operation)
    (urlPath : string) (queryParams : gmap string value) (data : value)
    (headers : gmap string value) (c : Client) : Outcome * Client * list event :=
  let args := default ∅ typedArgs in
  let '(r, c2, tr2) := resolve_auth op args headers c in
  match r with
  | inl e =>
      (caught name typedArgs (Some op) urlPath queryParams data headers e, c2, tr2)
  | inr (headers, useBasicAuth) =>
      let cfg :=
        {| cfg_method := method op; url := urlPath;
           params := if Nat.eqb (size queryParams) 0 then None else Some queryParams;
           data := data; headers := headers; auth := None |} in
      let user := username (config c2) in
      let pass := password (config c2) in
      if useBasicAuth && (String.eqb user "" || String.eqb pass "") then
        (caught name typedArgs (Some op) urlPath queryParams data headers
           MissingCredentials, c2, tr2)
      else
        let cfg :=
          if useBasicAuth then
            {| cfg_method := cfg_method cfg; url := url cfg; params := params cfg;
               data := data; headers := headers; auth := Some (user, pass) |}
          else cfg in
        match api up cfg with
        | Replied payload =>
            (Returned (format_result name payload), c2, tr2 ++ [Request cfg])
        | Failed reason =>
            (caught name typedArgs (Some op) urlPath queryParams data headers
               (RequestError reason), c2, tr2 ++ [Request cfg])
        end
  end.

(** The [try] block from the operation lookup on, for a found [op]. *)
Definition dispatch (name : string) (typedArgs : option (gmap string value))
    (op : Operation) (c : Client) : Outcome * Client * list event :=
  let args := default ∅ typedArgs in
  let '(urlPath, ms_path) := build_url op args in
  let '(queryParams, ms_query) := query_loop op args (queryParams op) ∅ in
  let '(headers, ms_header, c1, tr1) := header_loop op args (headerParams op) ∅ c in
  let data := get args "body" in
  let missingInputs := ms_path ++ ms_query ++ ms_header ++ body_missing op data in
  match filteredMissing missingInputs with
  | (_ :: _) as fm => (Returned (Requires (map required_input fm)), c1, tr1)
  | [] =>
      let '(out, c2, tr2) :=
        resolve_and_execute name typedArgs op urlPath queryParams data headers c1 in
      (out, c2, tr1 ++ tr2)
  end.

(** [typedArgs && typeof typedArgs.proxy_user_id === 'string' &&
    typedArgs.proxy_user_id.trim().length > 0], with the trimmed value. *)
Definition requested_proxy (typedArgs : option (gmap string value)) : option string :=
  match typedArgs with
  | Some args =>
      match get args "proxy_user_id" with
      | VString s => if String.eqb (trim s) "" then None else Some (trim s)
      | _ => None
      end
  | None => None
  end.

(** [op = this.operationMap.get(name)] and what follows it. *)
Definition lookup_and_dispatch (name : string)
    (typedArgs : option (gmap string value)) (c : Client)
  : Outcome * Client * list event :=
  match operationMap srv !! name with
  | None => (caught name typedArgs None "" ∅ VUndefined ∅ (UnknownTool name), c, [])
  | Some op => dispatch name typedArgs op c
  end.

(** The handler of a call-tool request. *)
Definition callTool (c : Client) (name : string)
    (typedArgs : option (gmap string value)) : Outcome * Client * list event :=
  if negb (isReady srv) then (Returned NotReady, c, [])
  else
    match requested_proxy typedArgs with
    | Some id =>
        let c := setProxyUserId (Some id) c in
        if String.eqb name "getProxyUsers" then (Returned (ProxyUserSet id), c, [])
        else lookup_and_dispatch name typedArgs c
    | None => lookup_and_dispatch name typedArgs c
    end.

(** [missingInputs] as it stands at CHECK_MISSING. *)
Definition missingInputs (op : Operation) (args : gmap string value) (c : Client)
  : list MissingInput :=
  snd (build_url op args)
  ++ snd (query_loop op args (queryParams op) ∅)
  ++ snd (fst (fst (header_loop op args (headerParams op) ∅ c)))
  ++ body_missing op (get args "body").

End Dispatcher.

(* ===================================================================== *)
(** * The other entry points *)
(* ===================================================================== *)

(** The handler of a list-tools request ([ListToolsRequestSchema]). *)
Definition listTools (srv : Server) : list Tool :=
  if negb (isReady srv) then [] else generatedTools srv.

(** [makeRequest(method, endpoint, data, params, apiToken)]: the token,
    when given, is stored first; the request has no header of its own.
    The answer is [response.data] or the thrown error. *)
Definition makeRequest (up : Upstream) (method : Method) (endpoint : string)
    (data : value) (params : option (gmap string value)) (apiToken : value)
    (c : Client) : Reply Json * Client * list event :=
  let c := if truthy apiToken then setApiToken apiToken c else c in
  let cfg := {| cfg_method := method; url := endpoint; params := params;
                data := data; headers := ∅; auth := None |} in
  (api up cfg, c, [Request cfg]).

(** [run()] up to the connection of the transport: the server that
    answers requests, and the URLs fetched to get there. *)
Definition run (specSource : option string) (fetch : string -> Fetched)
  : Server * list string :=
  loadOpenApiAndGenerateTools specSource fetch new_server.

(* ===================================================================== *)
(** * Vocabulary of the statements *)
(* ===================================================================== *)

Definition is_Authenticate (e : event) : bool :=
  match e with Authenticate _ _ _ => true | _ => false end.

(** The number of authentication exchanges of a trace. *)
Definition exchanges (tr : list event) : nat :=
  List.length (List.filter is_Authenticate tr).

(** The dispatched requests of a trace. *)
Definition requests (tr : list event) : list AxiosConfig :=
  omap (fun e => match e with Request cfg => Some cfg | _ => None end) tr.

(** The caller gave no value for [p], under its name or its sanitized
    name. *)
Definition absent (args : gmap string value) (p : string) : Prop :=
  args !! p = None /\ args !! sanitize p = None.

(** Neither [p] nor its sanitized form names a property that every object
    inherits. *)
Definition plain (p : string) : Prop :=
  inherited p = false /\ inherited (sanitize p) = false.

(** The required inputs of an operation that a call leaves out, each with
    the entry the dispatcher records for it. *)
Inductive required_absent (op : Operation) (args : gmap string value)
  : MissingInput -> Prop :=
| absent_path p :
    In p (pathParams op) -> absent args p -> plain p ->
    required_absent op args (missing (defs_path (paramDefs op)) p "path")
| absent_query q :
    In q (queryParams op) -> required (defs_query (paramDefs op)) q = true ->
    absent args q -> plain q ->
    required_absent op args (missing (defs_query (paramDefs op)) q "query")
| absent_header h :
    In h (headerParams op) -> required (defs_header (paramDefs op)) h = true ->
    h <> "x-access-token" -> absent args h -> plain h ->
    required_absent op args (missing (defs_header (paramDefs op)) h "header")
| absent_body :
    bodyRequired op = true -> args !! "body" = None ->
    required_absent op args
      {| mi_name := "body"; mi_description := Some "Request body"; mi_in := "body";
         mi_schema := Some (default GenericObject (bodySchema op)) |}.

(** The call is not the acknowledgement of a delegated-user selection. *)
Definition not_acknowledged (name : string) (typedArgs : option (gmap string value)) : Prop :=
  requested_proxy typedArgs = None \/ name <> "getProxyUsers".

(** The client as the dispatcher sees it after the delegated-user step. *)
Definition with_proxy (typedArgs : option (gmap string value)) (c : Client) : Client :=
  match requested_proxy typedArgs with
  | Some id => setProxyUserId (Some id) c
  | None => c
  end.

(* ===================================================================== *)
(** * Concrete servers, clients and upstreams *)
(* ===================================================================== *)

Definition fresh_client : Client :=
  {| config := {| baseUrl := "https://api.scanpower.com"; username := "seller";
                  password := "secret"; proxyUserId := None |};
     marketplaceId := "ATVPDKIKX0DER";
     apiToken := VNull;
     amazonAccessToken := VNull |}.

(** An upstream that mints the token [t1], has no vendor token to give
    and answers every request with an empty object. *)
Definition upstream_without_vendor : Upstream :=
  {| token_endpoint := fun _ => Replied (VString "t1");
     access_token_endpoint := fun _ => Failed "Error: Request failed with status code 500";
     api := fun _ => Replied (JObject []) |}.

Definition plain_operation (m : Method) (p : string) : Operation :=
  {| method := m; path := p; pathHasTrailingSlash := false;
     pathParams := []; queryParams := []; headerParams := [];
     paramDefs := {| defs_path := []; defs_query := []; defs_header := [] |};
     security := []; bodyRequired := false; bodySchema := None |}.

Definition path_param (n : string) : ParamDef :=
  {| pd_name := n; pd_in := "path"; pd_required := true;
     pd_description := None; pd_schema := None |}.

Definition header_param (n : string) (req : bool) : ParamDef :=
  {| pd_name := n; pd_in := "header"; pd_required := req;
     pd_description := None; pd_schema := None |}.

Definition empty_operation (id : string) (ps : list ParamEntry)
    (sec : option (list SecurityRequirement)) : OperationObject :=
  {| operationId := Some id; summary := None; description := None;
     parameters := ps; requestBody := None; op_security := sec |}.

Definition document (ps : list (string * PathItem))
    (schemes : gmap string SecurityScheme) : OpenApi :=
  {| paths := ps; doc_security := None; securitySchemes := schemes; ref_targets := ∅ |}.

Definition loaded (doc : OpenApi) : Server :=
  generateFromCurrentOpenApi (set_openApi (Some doc) new_server).

(** The operation compiled for [name] ([GET /] when there is none). *)
Definition operation_of (doc : OpenApi) (name : string) : Operation :=
  default (plain_operation GET "/") (operationMap (loaded doc) !! name).

(** [GET /keys/{api_token}]: a path parameter that is named [api_token]. *)
Definition keys_document : OpenApi :=
  document
    [ ("/keys/{api_token}",
       {| item_parameters := [];
          item_operations :=
            [ (GET, empty_operation "getKey" [Inline (path_param "api_token")] None) ] |}) ]
    ∅.

(** [GET /account] as [getProxyUsers], without parameters or security. *)
Definition account_document : OpenApi :=
  document
    [ ("/account",
       {| item_parameters := [];
          item_operations := [ (GET, empty_operation "getProxyUsers" [] None) ] |}) ]
    ∅.

(** [GET /catalog] with a required header [x-access-token]. *)
Definition catalog_document : OpenApi :=
  document
    [ ("/catalog",
       {| item_parameters := [];
          item_operations :=
            [ (GET, empty_operation "searchCatalog"
                      [Inline (header_param "x-access-token" true)] None) ] |}) ]
    ∅.

Definition bearer_scheme : SecurityScheme :=
  {| scheme_type := "http"; scheme_scheme := "bearer" |}.

Definition basic_scheme : SecurityScheme :=
  {| scheme_type := "http"; scheme_scheme := "basic" |}.

(** [GET /items/{id}/] secured by the bearer scheme [bearerAuth]. *)
Definition items_document : OpenApi :=
  document
    [ ("/items/{id}/",
       {| item_parameters := [Inline (path_param "id")];
          item_operations :=
            [ (GET, empty_operation "getItem" [] (Some [[("bearerAuth", [])]])) ] |}) ]
    {[ "bearerAuth" := bearer_scheme ]}.

(** [GET /token] whose first requirement names [basic_auth], which the
    registry does not declare, next to the declared [bearerAuth]. *)
Definition dangling_document : OpenApi :=
  document
    [ ("/token",
       {| item_parameters := [];
          item_operations :=
            [ (GET, empty_operation "getToken" []
                      (Some [[("basic_auth", []); ("bearerAuth", [])]])) ] |}) ]
    {[ "bearerAuth" := bearer_scheme ]}.

(** The same operation with [basic_auth] declared as HTTP basic. *)
Definition token_document : OpenApi :=
  document
    [ ("/token",
       {| item_parameters := [];
          item_operations :=
            [ (GET, empty_operation "getToken" []
                      (Some [[("basic_auth", []); ("bearerAuth", [])]])) ] |}) ]
    {[ "basic_auth" := basic_scheme; "bearerAuth" := bearer_scheme ]}.

(** A security scheme of the registry that is HTTP basic, and a scheme
    name that speaks of basic. *)
Definition http_basic (sch : SecurityScheme) : bool :=
  is_http sch && String.eqb (toLowerCase (scheme_scheme sch)) "basic".

Definition names_basic (schemeName : string) : bool :=
  includes "basic" (toLowerCase schemeName).

(** The requirement names a scheme that the registry of the loaded
    document declares and that is HTTP basic or is named after basic. *)
Definition registered_basic (srv : Server) (requirement : SecurityRequirement) : Prop :=
  exists schemeName sch,
    In schemeName (map fst requirement)
    /\ lookup_scheme srv schemeName = Some sch
    /\ (http_basic sch = true \/ names_basic schemeName = true).

(** The requirement names a scheme that speaks of basic or is HTTP basic
    where declared, whether or not the registry declares it. *)
Definition mentions_basic (srv : Server) (requirement : SecurityRequirement) : Prop :=
  exists schemeName,
    In schemeName (map fst requirement)
    /\ (names_basic schemeName = true
        \/ exists sch, lookup_scheme srv schemeName = Some sch /\ http_basic sch = true).

(** A trace of vendor-token fetches only. *)
Definition vendor_only (tr : list event) : Prop :=
  Forall (fun e => exists m, e = AccessToken m) tr.

(** What the header stage may change in the session: the vendor token. *)
Definition same_session (c c' : Client) : Prop :=
  config c' = config c /\ marketplaceId c' = marketplaceId c /\ apiToken c' = apiToken c.

(** Authentication and the later stages leave the configuration (and so
    the delegated user) and the vendor token alone. *)
Definition same_config (c c' : Client) : Prop :=
  config c' = config c /\ marketplaceId c' = marketplaceId c
  /\ amazonAccessToken c' = amazonAccessToken c.

(** The request that EXECUTE sends for resolved headers. *)
Definition final_config (op : Operation) (urlPath : string)
    (queryParams : gmap string value) (data : value)
    (headers : gmap string value) (useBasicAuth : bool) (c : Client) : AxiosConfig :=
  {| cfg_method := method op; url := urlPath;
     params := if Nat.eqb (size queryParams) 0 then None else Some queryParams;
     data := data; headers := headers;
     auth := if useBasicAuth then Some (username (config c), password (config c))
             else None |}.

Definition has_credentials (c : Client) : bool :=
  negb (String.eqb (username (config c)) "" || String.eqb (password (config c)) "").

(** The value of the [Authorization] header for a bearer token. *)
Definition bearer (token : value) : value := VString ("Bearer " +:+ to_string token).

(** The call reaches RESOLVE_AUTH for an operation whose first security
    requirement resolves to an HTTP bearer scheme: the server is ready,
    the call is dispatched to [op], no input is missing, and the first
    requirement selects no basic scheme and holds a registered HTTP
    bearer scheme. *)
Record bearer_call (srv : Server) (up : Upstream) (c : Client) (name : string)
    (typedArgs : option (gmap string value)) (op : Operation) : Prop := {
  bc_ready : isReady srv = true;
  bc_dispatched : not_acknowledged name typedArgs;
  bc_operation : operationMap srv !! name = Some op;
  bc_complete :
    filteredMissing (missingInputs up op (default ∅ typedArgs) (with_proxy typedArgs c)) = [];
  bc_bearer :
    exists requirement rest,
      security op = requirement :: rest
      /\ uses_basic srv requirement = false
      /\ existsb (indicates_bearer srv) (map fst requirement) = true
}.

(** The trace ends with the request of the operation, sent with the
    bearer [token], after [n] authentication exchanges and nothing in
    between. *)
Definition sends_with_bearer (tr : list event) (token : value) (n : nat) : Prop :=
  exists pre auths cfg,
    tr = pre ++ auths ++ [Request cfg]
    /\ vendor_only pre
    /\ Forall (fun e => is_Authenticate e = true) auths
    /\ List.length auths = n
    /\ headers cfg !! "Authorization" = Some (bearer token).

(** The call ends in the error-flagged result with this message. *)
Definition fails_with (out : Outcome) (message : string) : Prop :=
  exists details, out = Returned (ErrorResult message details).

Definition is_AccessToken (e : event) : bool :=
  match e with AccessToken _ => true | _ => false end.

(** The number of vendor-token fetches of a trace. *)
Definition vendor_fetches (tr : list event) : nat :=
  List.length (List.filter is_AccessToken tr).

(** The operation without the header parameter [h]. *)
Definition without_header (h : string) (op : Operation) : Operation :=
  {| method := method op; path := path op;
     pathHasTrailingSlash := pathHasTrailingSlash op;
     pathParams := pathParams op; queryParams := queryParams op;
     headerParams := List.filter (fun h' => negb (String.eqb h' h)) (headerParams op);
     paramDefs := paramDefs op; security := security op;
     bodyRequired := bodyRequired op; bodySchema := bodySchema op |}.

(** An upstream like [upstream_without_vendor] that has the vendor token
    [amz-1] to give. *)
Definition upstream_with_vendor : Upstream :=
  {| token_endpoint := fun _ => Replied (VString "t1");
     access_token_endpoint := fun _ => Replied (VString "amz-1");
     api := fun _ => Replied (JObject []) |}.

Definition query_param (n : string) (req : bool) : ParamDef :=
  {| pd_name := n; pd_in := "query"; pd_required := req;
     pd_description := Some "Stock keeping unit"; pd_schema := Some (Fragment "string") |}.

(** [GET /stock/{warehouse}] with the required query parameter [sku.id]. *)
Definition stock_document : OpenApi :=
  document
    [ ("/stock/{warehouse}",
       {| item_parameters := [Inline (path_param "warehouse")];
          item_operations :=
            [ (GET, empty_operation "getStock" [Inline (query_param "sku.id" true)] None) ] |}) ]
    ∅.

(* ===================================================================== *)
(** * Further vocabulary *)
(* ===================================================================== *)

(** Every byte of [s] satisfies [P]. *)
Fixpoint all_chars (P : ascii -> bool) (s : string) : bool :=
  match s with
  | EmptyString => true
  | String c s' => P c && all_chars P s'
  end.

(** No two adjacent bytes of [s] are both [c]. *)
Fixpoint no_double (c : ascii) (s : string) : bool :=
  match s with
  | String a (String b _ as s') => negb (Ascii.eqb a c && Ascii.eqb b c) && no_double c s'
  | _ => true
  end.

(** The bytes that delimit the parts of a URL or of a path template. *)
Definition delimiters : list ascii :=
  ["/"; "?"; "#"; "&"; "="; "{"; "}"; " "; "$"; "+"; ":"; "@"]%char.

(** Neither [null] nor [undefined]. *)
Definition given (v : value) : Prop := v <> VUndefined /\ v <> VNull.

(** [s] starts with the byte [c]. *)
Definition starts_with (c : ascii) (s : string) : bool :=
  match s with
  | String a _ => Ascii.eqb a c
  | EmptyString => false
  end.

(** The bytes of an identifier: letters, digits and the underscore. *)
Definition identifier_char (c : ascii) : bool := is_alnum c || Ascii.eqb c "_".

(** The declared parameter names of an operation, in schema order. *)
Definition declared_names (op : Operation) : list string :=
  pathParams op ++ queryParams op ++ headerParams op.

(** Two operations with the same [operationId] on different paths. *)
Definition colliding_document : OpenApi :=
  document
    [ ("/v1/items",
       {| item_parameters := [];
          item_operations := [ (GET, empty_operation "listItems" [] None) ] |});
      ("/v2/items/",
       {| item_parameters := [];
          item_operations := [ (GET, empty_operation "listItems" [] None) ] |}) ]
    ∅.

(** The names of one location and their definitions fit: the names are
    those of the definitions, in order, every definition is of that
    location, and every name finds a definition of its own. *)
Definition well_bucketed (loc : string) (names : list string) (defs : list ParamDef) : Prop :=
  names = map pd_name defs
  /\ (forall d, In d defs -> pd_in d = loc)
  /\ forall p, In p names ->
       exists d, find_def defs p = Some d /\ pd_name d = p /\ pd_in d = loc.

(** The request as the [catch] block echoes it: without [auth]. *)
Definition without_auth (cfg : AxiosConfig) : AxiosConfig :=
  {| cfg_method := cfg_method cfg; url := url cfg; params := params cfg;
     data := data cfg; headers := headers cfg; auth := None |}.

(** The answer of the handler to a request that the upstream answered
    with [reply]. *)
Definition answer (name : string) (typedArgs : option (gmap string value))
    (cfg : AxiosConfig) (reply : Reply Json) : Outcome :=
  match reply with
  | Replied payload => Returned (format_result name payload)
  | Failed reason =>
      Returned (ErrorResult reason
                  {| toolName := name; arguments := typedArgs;
                     axiosConfig := without_auth cfg |})
  end.

(** Two sessions that differ at most in the delegated user (and the
    base URL). *)
Definition same_but_proxy (c c' : Client) : Prop :=
  username (config c') = username (config c)
  /\ password (config c') = password (config c)
  /\ marketplaceId c' = marketplaceId c
  /\ apiToken c' = apiToken c
  /\ amazonAccessToken c' = amazonAccessToken c.

(** A session without static credentials. *)
Definition anonymous_client : Client :=
  {| config := {| baseUrl := "https://api.scanpower.com"; username := "";
                  password := ""; proxyUserId := None |};
     marketplaceId := "ATVPDKIKX0DER";
     apiToken := VNull;
     amazonAccessToken := VNull |}.

Definition apikey_scheme : SecurityScheme :=
  {| scheme_type := "apiKey"; scheme_scheme := "" |}.

(** [GET /reports] whose first requirement names an API-key scheme and
    whose second names the bearer scheme. *)
Definition reports_document : OpenApi :=
  document
    [ ("/reports",
       {| item_parameters := [];
          item_operations :=
            [ (GET, empty_operation "listReports" []
                      (Some [[("apiKey", [])]; [("bearerAuth", [])]])) ] |}) ]
    {[ "apiKey" := apikey_scheme; "bearerAuth" := bearer_scheme ]}.

(** The value a request carries for the query parameter [q]. *)
Definition query_value (cfg : AxiosConfig) (q : string) : option value :=
  params cfg ≫= fun sent => sent !! q.

(** [GET /orders] with the optional query parameter [page.size] and the
    optional header [X-Trace-Id]. *)
Definition orders_document : OpenApi :=
  document
    [ ("/orders",
       {| item_parameters := [];
          item_operations :=
            [ (GET, empty_operation "listOrders"
                      [Inline (query_param "page.size" false);
                       Inline (header_param "X-Trace-Id" false)] None) ] |}) ]
    ∅.

(** The request of [getStock] for the warehouse [w1] and the unit 7. *)
Definition stock_request : AxiosConfig :=
  {| cfg_method := GET; url := "/stock/w1";
     params := Some {[ "sku.id" := VNumber (7%Z ↾ I) ]};
     data := VUndefined; headers := ∅; auth := None |}.

(** The request of [listOrders] with the trace header [t-9]. *)
Definition orders_request : AxiosConfig :=
  {| cfg_method := GET; url := "/orders"; params := None;
     data := VUndefined; headers := {[ "X-Trace-Id" := VString "t-9" ]};
     auth := None |}.

(** A session that holds the bearer token [t0]. *)
Definition signed_in_client : Client := setApiToken (VString "t0") fresh_client.

(** The server that is ready without a document. *)
Definition ready_without_tools : Server := set_ready new_server.

(** A fetch that answers every URL with the document [doc]. *)
Definition serve (doc : OpenApi) : string -> Fetched := fun _ => Parsed (Some doc).

(** The entry declares nothing that would stand in for [d]: it does not
    resolve to a parameter of the name and the location of [d]. *)
Definition other_than (doc : OpenApi) (d : ParamDef) (entry : ParamEntry) : Prop :=
  forall d', resolve doc entry = Some d' ->
             pd_name d' = pd_name d -> pd_in d' <> pd_in d.

(** [GET /users] whose path item declares the query parameter [limit] as
    optional and whose operation declares it again, as required. *)
Definition users_item : PathItem :=
  {| item_parameters := [Inline (query_param "limit" false)];
     item_operations :=
       [ (GET, empty_operation "listUsers" [Inline (query_param "limit" true)] None) ] |}.

Definition users_document : OpenApi := document [ ("/users", users_item) ] ∅.

(** An upstream whose vendor endpoint answers without [access_token]. *)
Definition upstream_tokenless : Upstream :=
  {| token_endpoint := fun _ => Replied (VString "t1");
     access_token_endpoint := fun _ => Replied VUndefined;
     api := fun _ => Replied (JObject []) |}.

(** A session whose cached vendor value is [undefined]. *)
Definition tokenless_client : Client := setAmazonAccessToken VUndefined fresh_client.

(** [GET /ledger], secured by the declared basic scheme, with a header
    parameter spelled [authorization]. *)
Definition ledger_document : OpenApi :=
  document
    [ ("/ledger",
       {| item_parameters := [];
          item_operations :=
            [ (GET, empty_operation "getLedger"
                      [Inline (header_param "authorization" false)]
                      (Some [[("basic_auth", [])]])) ] |}) ]
    {[ "basic_auth" := basic_scheme ]}.

(** The operation spells no header parameter like [Authorization] in
    another letter case. *)
Definition one_spelling (op : Operation) : Prop :=
  forall h, In h (headerParams op) -> toLowerCase h = "authorization" ->
            h = "Authorization".

(** An upstream that answers every request with two entries, the second
    without [id]. *)
Definition upstream_with_users : Upstream :=
  {| token_endpoint := fun _ => Replied (VString "t1");
     access_token_endpoint := fun _ => Failed "Error: Request failed with status code 500";
     api := fun _ =>
       Replied (JObject
                  [ ("items",
                     JArray [ JObject [ ("id", JNumber (42%Z ↾ I));
                                        ("name", JString "Ann") ];
                              JObject [ ("name", JString "Bob") ] ]) ]) |}.

(** The outcome is an answer to a reply of the upstream: its data, or
    the users read in it. *)
Definition answers_a_reply (out : Outcome) : Prop :=
  (exists payload, out = Returned (Content payload))
  \/ exists users, out = Returned (ProxyUsers users).

(** Refutes [answers_a_reply] of an outcome of another form. *)
Ltac no_reply := intros [[? H]|[? H]]; discriminate H.

(* ===================================================================== *)
(** * The model on small inputs *)
(* ===================================================================== *)

Example encode_space : encodeURIComponent "abc 123" = "abc%20123".
Proof. reflexivity. Qed.

Example replace_once :
  replace_first "{id}" "7" "/a/{id}/b/{id}" = "/a/7/b/{id}".
Proof. reflexivity. Qed.

Example trim_pads : trim (String (ascii_of_N 9) " 42  ") = "42".
Proof. reflexivity. Qed.

Example trim_nbsp :
  trim (String (ascii_of_N 194) (String (ascii_of_N 160) "x ")) = "x".
Proof. reflexivity. Qed.

Example number_text : to_string (VNumber ((-5)%Z ↾ I)) = "-5".
Proof. reflexivity. Qed.

Example collapse_path :
  collapse_non_alnum "/users/{id}/" = "_users_id_".
Proof. reflexivity. Qed.

Example sanitize_dots : sanitize "sku.id-2" = "sku_id_2".
Proof. reflexivity. Qed.

Example inherited_key : argument ∅ "constructor" = VObject "function Object() { [native code] }".
Proof. reflexivity. Qed.

(** The round trip of the specification: [/widgets/{id}] with
    [{id: "abc 123"}]. *)
Example widgets_round_trip :
  build_url
    {| method := GET; path := "/widgets/{id}"; pathHasTrailingSlash := false;
       pathParams := ["id"]; queryParams := []; headerParams := [];
       paramDefs := {| defs_path := [path_param "id"]; defs_query := [];
                       defs_header := [] |};
       security := []; bodyRequired := false; bodySchema := None |}
    {[ "id" := VString "abc 123" ]}
  = ("/widgets/abc%20123", []).
Proof. reflexivity. Qed.

Example compiled_names :
  map fst (map_to_list (operationMap (loaded items_document))) = ["getItem"].
Proof. reflexivity. Qed.


(* ===================================================================== *)
(** * Strings *)
(* ===================================================================== *)

Lemma endsWithSlash_append_slash (s : string) : endsWithSlash (s +:+ "/") = true.
Proof.
  induction s as [|c s IH]; [reflexivity|].
  change (String c s +:+ "/") with (String c (s +:+ "/")).
  destruct s as [|d s]; [reflexivity|].
  exact IH.
Qed.

Lemma includes_cons (sub : string) (c : ascii) (s : string) :
  includes sub (String c s) = String.prefix sub (String c s) || includes sub s.
Proof. reflexivity. Qed.

Lemma prefix_dollar (c : ascii) (s : string) :
  String.prefix "$" (String c s) = if ascii_dec "$"%char c then true else false.
Proof.
  cbn [String.prefix].
  destruct (ascii_dec "$"%char c); [now destruct s|reflexivity].
Qed.

Lemma includes_dollar_app (s t : string) :
  includes "$" s = false -> includes "$" t = false -> includes "$" (s +:+ t) = false.
Proof.
  induction s as [|c s IH]; intros Hs Ht; [exact Ht|].
  change (String c s +:+ t) with (String c (s +:+ t)).
  rewrite includes_cons, prefix_dollar in *.
  apply orb_false_iff in Hs as [Hc Hs].
  apply orb_false_iff; split; [exact Hc|auto].
Qed.

Lemma encoded_char_no_dollar (c : ascii) :
  includes "$" (if unreserved c then String c "" else percent c) = false.
Proof. destruct c as [[] [] [] [] [] [] [] []]; reflexivity. Qed.

(** The replacement text handed to [replace] holds no [$]: it is inserted
    as it is. *)
Lemma encodeURIComponent_literal (s : string) :
  includes "$" (encodeURIComponent s) = false.
Proof.
  induction s as [|c s IH]; [reflexivity|].
  pose proof (encoded_char_no_dollar c) as Hc.
  simpl encodeURIComponent.
  destruct (unreserved c).
  - change (String c (encodeURIComponent s))
      with (String c "" +:+ encodeURIComponent s).
    now apply includes_dollar_app.
  - now apply includes_dollar_app.
Qed.

Lemma or_else_falsy (a b : value) :
  truthy (or_else a b) = false -> truthy a = false /\ truthy b = false.
Proof.
  unfold or_else. destruct (truthy a) eqn:E; intros H; [|now split].
  rewrite E in H. discriminate.
Qed.

Lemma or_else_truthy (a b : value) : truthy a = true -> or_else a b = a.
Proof. unfold or_else. now intros ->. Qed.

Lemma or_else_fallback (a b : value) : truthy a = false -> or_else a b = b.
Proof. unfold or_else. now intros ->. Qed.

Lemma String_eqb_false (s t : string) : s <> t -> String.eqb s t = false.
Proof. intros H. now apply String.eqb_neq. Qed.

(** The two answers to a reply: the data, or the users read in it. *)
Lemma format_result_cases (name : string) (data : Json) :
  format_result name data = Content data
  \/ (name = "getProxyUsers"
      /\ proxy_users data <> []
      /\ format_result name data = ProxyUsers (proxy_users data)).
Proof.
  unfold format_result. destruct (String.eqb_spec name "getProxyUsers") as [->|_];
    [|now left].
  destruct (proxy_users data) as [|u users]; [now left|right].
  split; [reflexivity|]. now split.
Qed.

Lemma format_result_other (name : string) (data : Json) :
  name <> "getProxyUsers" -> format_result name data = Content data.
Proof. intros H. unfold format_result. now rewrite String_eqb_false. Qed.

Lemma format_result_content (name : string) (data payload : Json) :
  format_result name data = Content payload -> payload = data.
Proof.
  destruct (format_result_cases name data) as [->|(_ & _ & ->)]; [|discriminate].
  now intros [= ->].
Qed.

(* ===================================================================== *)
(** * The stages of the dispatcher *)
(* ===================================================================== *)

Section Stages.

Variable srv : Server.
Variable up : Upstream.

Lemma get_absent (args : gmap string value) (p : string) :
  args !! p = None -> inherited p = false -> get args p = VUndefined.
Proof.
  unfold get, inherited. intros -> H.
  destruct (assoc p object_prototype); [discriminate|reflexivity].
Qed.

Lemma argument_absent (args : gmap string value) (p : string) :
  absent args p -> plain p -> argument args p = VUndefined.
Proof.
  intros [H1 H2] [P1 P2]. unfold argument.
  rewrite (get_absent _ _ H1 P1), (get_absent _ _ H2 P2). reflexivity.
Qed.

(** BUILD_URL *)

Lemma path_loop_missing (op : Operation) (args : gmap string value)
    (ps : list string) (u : string) (p : string) :
  In p ps -> argument args p = VUndefined ->
  In (missing (defs_path (paramDefs op)) p "path") (snd (path_loop op args ps u)).
Proof.
  revert u. induction ps as [|q ps IH]; intros u Hin Hp; [destruct Hin|].
  simpl. destruct (is_undefined (argument args q)) eqn:Hq.
  - destruct (path_loop op args ps u) as [u' ms] eqn:E. simpl.
    destruct Hin as [->|Hin]; [now left|].
    right. specialize (IH u Hin Hp). now rewrite E in IH.
  - destruct Hin as [->|Hin]; [rewrite Hp in Hq; discriminate|].
    now apply IH.
Qed.

Lemma build_url_trailing_slash (op : Operation) (args : gmap string value) :
  pathHasTrailingSlash op = true -> endsWithSlash (fst (build_url op args)) = true.
Proof.
  intros Hflag. unfold build_url.
  destruct (path_loop op args (pathParams op) (path op)) as [u ms]. simpl.
  rewrite Hflag. simpl.
  destruct (endsWithSlash u) eqn:Hu; simpl; [exact Hu|].
  apply endsWithSlash_append_slash.
Qed.

Lemma build_url_missing (op : Operation) (args : gmap string value) :
  snd (build_url op args) = snd (path_loop op args (pathParams op) (path op)).
Proof.
  unfold build_url.
  now destruct (path_loop op args (pathParams op) (path op)).
Qed.

(** BUILD_QUERY *)

Lemma query_loop_missing (op : Operation) (args : gmap string value)
    (qs : list string) (acc : gmap string value) (q : string) :
  In q qs -> argument args q = VUndefined ->
  required (defs_query (paramDefs op)) q = true ->
  In (missing (defs_query (paramDefs op)) q "query") (snd (query_loop op args qs acc)).
Proof.
  revert acc. induction qs as [|q' qs IH]; intros acc Hin Hq Hreq; [destruct Hin|].
  simpl. destruct (is_undefined (argument args q')) eqn:Hq'; simpl.
  - destruct (query_loop op args qs acc) as [qp ms] eqn:E. simpl.
    apply in_or_app.
    destruct Hin as [->|Hin].
    + left. rewrite Hreq. now left.
    + right. specialize (IH acc Hin Hq Hreq). now rewrite E in IH.
  - destruct Hin as [->|Hin]; [rewrite Hq in Hq'; discriminate|].
    now apply IH.
Qed.

(** BUILD_HEADERS *)

Lemma vendor_only_app (a b : list event) :
  vendor_only a -> vendor_only b -> vendor_only (a ++ b).
Proof. unfold vendor_only. intros. now apply Forall_app. Qed.

Lemma vendor_only_exchanges (tr : list event) : vendor_only tr -> exchanges tr = 0.
Proof.
  unfold exchanges. induction 1 as [|e tr [m ->] _ IH]; [reflexivity|exact IH].
Qed.

Lemma vendor_only_requests (tr : list event) : vendor_only tr -> requests tr = [].
Proof.
  unfold requests. induction 1 as [|e tr [m ->] _ IH]; [reflexivity|exact IH].
Qed.

Lemma same_session_refl (c : Client) : same_session c c.
Proof. now repeat split. Qed.

Lemma same_session_trans (a b c : Client) :
  same_session a b -> same_session b c -> same_session a c.
Proof. intros (?&?&?) (?&?&?). repeat split; congruence. Qed.

Lemma getAmazonAccessToken_spec (c : Client) :
  same_session c (snd (fst (getAmazonAccessToken up c)))
  /\ vendor_only (snd (getAmazonAccessToken up c)).
Proof.
  unfold getAmazonAccessToken.
  destruct (truthy (amazonAccessToken c)); simpl.
  - split; [apply same_session_refl|constructor].
  - destruct (access_token_endpoint up (marketplaceId c)); simpl;
      (split; [now repeat split|repeat constructor; eauto]).
Qed.

Lemma vendor_token_spec (c : Client) :
  same_session c (snd (fst (vendor_token up c))) /\ vendor_only (snd (vendor_token up c)).
Proof.
  unfold vendor_token.
  destruct (truthy (amazonAccessToken c)); simpl.
  - split; [apply same_session_refl|constructor].
  - pose proof (getAmazonAccessToken_spec c) as H.
    destruct (getAmazonAccessToken up c) as [[r c'] tr]. exact H.
Qed.

Lemma header_loop_spec (op : Operation) (args : gmap string value)
    (hs : list string) (acc : gmap string value) (c : Client) :
  same_session c (snd (fst (header_loop up op args hs acc c)))
  /\ vendor_only (snd (header_loop up op args hs acc c)).
Proof.
  revert acc c. induction hs as [|h hs IH]; intros acc c.
  - simpl. split; [apply same_session_refl|constructor].
  - simpl.
    destruct (String.eqb h "x-access-token" && negb (truthy (argument args h))).
    + pose proof (vendor_token_spec c) as [Hs Ht].
      destruct (vendor_token up c) as [[val c1] tr]. simpl in Hs, Ht.
      destruct (is_undefined val); simpl.
      * specialize (IH acc c1).
        destruct (header_loop up op args hs acc c1) as [[[hd ms] c2] tr']. simpl in *.
        destruct IH. split; [eapply same_session_trans; eauto|now apply vendor_only_app].
      * specialize (IH (<[h:=val]> acc) c1).
        destruct (header_loop up op args hs (<[h:=val]> acc) c1) as [[[hd ms] c2] tr'].
        simpl in *.
        destruct IH. split; [eapply same_session_trans; eauto|now apply vendor_only_app].
    + destruct (is_undefined (argument args h)); simpl.
      * specialize (IH acc c).
        destruct (header_loop up op args hs acc c) as [[[hd ms] c2] tr']. simpl in *.
        exact IH.
      * specialize (IH (<[h:=argument args h]> acc) c).
        destruct (header_loop up op args hs (<[h:=argument args h]> acc) c)
          as [[[hd ms] c2] tr']. simpl in *.
        exact IH.
Qed.

Lemma header_loop_missing (op : Operation) (args : gmap string value)
    (hs : list string) (acc : gmap string value) (c : Client) (h : string) :
  In h hs -> h <> "x-access-token" -> argument args h = VUndefined ->
  required (defs_header (paramDefs op)) h = true ->
  In (missing (defs_header (paramDefs op)) h "header")
     (snd (fst (fst (header_loop up op args hs acc c)))).
Proof.
  revert acc c. induction hs as [|h' hs IH]; intros acc c Hin Hne Hh Hreq; [destruct Hin|].
  simpl.
  destruct (String.eqb h' "x-access-token" && negb (truthy (argument args h'))) eqn:Hsp.
  - apply andb_true_iff in Hsp as [Hname _]. apply String.eqb_eq in Hname.
    destruct Hin as [->|Hin]; [contradiction|].
    destruct (vendor_token up c) as [[val c1] tr].
    destruct (is_undefined val); simpl.
    + specialize (IH acc c1 Hin Hne Hh Hreq).
      destruct (header_loop up op args hs acc c1) as [[[hd ms] c2] tr']. simpl in *.
      apply in_or_app. now right.
    + specialize (IH (<[h':=val]> acc) c1 Hin Hne Hh Hreq).
      now destruct (header_loop up op args hs (<[h':=val]> acc) c1) as [[[hd ms] c2] tr'].
  - destruct (is_undefined (argument args h')) eqn:Hu; simpl.
    + destruct Hin as [->|Hin].
      * destruct (header_loop up op args hs acc c) as [[[hd ms] c2] tr']. simpl.
        apply in_or_app. left. rewrite Hreq. now left.
      * specialize (IH acc c Hin Hne Hh Hreq).
        destruct (header_loop up op args hs acc c) as [[[hd ms] c2] tr']. simpl in *.
        apply in_or_app. now right.
    + destruct Hin as [->|Hin]; [rewrite Hh in Hu; discriminate|].
      specialize (IH (<[h':=argument args h']> acc) c Hin Hne Hh Hreq).
      now destruct (header_loop up op args hs (<[h':=argument args h']> acc) c)
        as [[[hd ms] c2] tr'].
Qed.

End Stages.

(* ===================================================================== *)
(** * What a call may change in the session *)
(* ===================================================================== *)

Section Session.

Variable srv : Server.
Variable up : Upstream.

Lemma same_config_refl (c : Client) : same_config c c.
Proof. now repeat split. Qed.

Lemma authenticate_config (c : Client) :
  same_config c (snd (fst (authenticate up c))).
Proof.
  unfold authenticate.
  destruct (token_endpoint up (proxy_header c)); now repeat split.
Qed.

Lemma attach_bearer_config (args headers : gmap string value) (c : Client) :
  same_config c (snd (fst (attach_bearer up args headers c))).
Proof.
  unfold attach_bearer.
  destruct (negb (truthy (or_else (get args "api_token") (apiToken c)))).
  - pose proof (authenticate_config c) as H.
    destruct (authenticate up c) as [[thrown c1] tr]. simpl in H.
    destruct thrown; [exact H|].
    now destruct (negb (truthy (or_else (get args "api_token") (apiToken c1)))).
  - destruct (negb (truthy (or_else (get args "api_token") (apiToken c))));
      apply same_config_refl.
Qed.

Lemma bearer_loop_config (args : gmap string value) (names : list string)
    (headers : gmap string value) (c : Client) :
  same_config c (snd (fst (bearer_loop srv up args names headers c))).
Proof.
  induction names as [|n names IH]; simpl; [apply same_config_refl|].
  destruct (indicates_bearer srv n); [apply attach_bearer_config|exact IH].
Qed.

Lemma resolve_auth_config (op : Operation) (args headers : gmap string value) (c : Client) :
  same_config c (snd (fst (resolve_auth srv up op args headers c))).
Proof.
  unfold resolve_auth.
  destruct (security op) as [|requirement rest]; [apply same_config_refl|].
  destruct (uses_basic srv requirement); [apply same_config_refl|].
  pose proof (bearer_loop_config args (map fst requirement) headers c) as H.
  now destruct (bearer_loop srv up args (map fst requirement) headers c) as [[r c1] tr].
Qed.

Lemma resolve_and_execute_config name typedArgs op urlPath queryParams data headers c :
  same_config c
    (snd (fst (resolve_and_execute srv up name typedArgs op urlPath queryParams
                 data headers c))).
Proof.
  unfold resolve_and_execute.
  pose proof (resolve_auth_config op (default ∅ typedArgs) headers c) as H.
  destruct (resolve_auth srv up op (default ∅ typedArgs) headers c) as [[r c2] tr2].
  simpl in H.
  destruct r as [e|[headers' useBasicAuth]]; [exact H|].
  destruct (useBasicAuth && _); [exact H|].
  now destruct (api up _).
Qed.

Lemma dispatch_config name typedArgs op c :
  config (snd (fst (dispatch srv up name typedArgs op c))) = config c.
Proof.
  unfold dispatch.
  destruct (build_url op (default ∅ typedArgs)) as [urlPath ms_path].
  destruct (query_loop op (default ∅ typedArgs) (queryParams op) ∅) as [qp ms_query].
  pose proof (header_loop_spec up op (default ∅ typedArgs) (headerParams op) ∅ c)
    as [(Hc & _) _].
  destruct (header_loop up op (default ∅ typedArgs) (headerParams op) ∅ c)
    as [[[hd ms_header] c1] tr1].
  simpl in Hc.
  destruct (filteredMissing _); [|exact Hc].
  pose proof (resolve_and_execute_config name typedArgs op urlPath qp
                (get (default ∅ typedArgs) "body") hd c1) as (Hc2 & _).
  destruct (resolve_and_execute srv up name typedArgs op urlPath qp _ hd c1)
    as [[out c2] tr2].
  simpl in *. congruence.
Qed.

Lemma lookup_and_dispatch_config name typedArgs c :
  config (snd (fst (lookup_and_dispatch srv up name typedArgs c))) = config c.
Proof.
  unfold lookup_and_dispatch.
  destruct (operationMap srv !! name); [apply dispatch_config|reflexivity].
Qed.

Lemma lookup_and_dispatch_unknown name typedArgs c :
  operationMap srv !! name = None ->
  lookup_and_dispatch srv up name typedArgs c = (Rejected undefined_method_TypeError, c, []).
Proof. unfold lookup_and_dispatch. now intros ->. Qed.

Lemma requested_proxy_string (args : gmap string value) (s : string) :
  args !! "proxy_user_id" = Some (VString s) -> trim s <> "" ->
  requested_proxy (Some args) = Some (trim s).
Proof.
  intros Hs Hne. unfold requested_proxy, get. rewrite Hs.
  now rewrite String_eqb_false.
Qed.

End Session.

(* ===================================================================== *)
(** * Authentication and execution *)
(* ===================================================================== *)

Section Execution.

Variable srv : Server.
Variable up : Upstream.

Lemma bearer_loop_found (args : gmap string value) (names : list string)
    (headers : gmap string value) (c : Client) :
  existsb (indicates_bearer srv) names = true ->
  bearer_loop srv up args names headers c = attach_bearer up args headers c.
Proof.
  induction names as [|n names IH]; simpl; [discriminate|].
  destruct (indicates_bearer srv n); [reflexivity|exact IH].
Qed.

Lemma bearer_loop_none (args : gmap string value) (names : list string)
    (headers : gmap string value) (c : Client) :
  existsb (indicates_bearer srv) names = false ->
  bearer_loop srv up args names headers c = (inr headers, c, []).
Proof.
  induction names as [|n names IH]; simpl; [reflexivity|].
  destruct (indicates_bearer srv n); [discriminate|exact IH].
Qed.

(** The token is at hand: no exchange. *)
Lemma attach_bearer_at_hand (args headers : gmap string value) (c : Client) :
  truthy (or_else (get args "api_token") (apiToken c)) = true ->
  attach_bearer up args headers c
  = (inr (<["Authorization" :=
             VString ("Bearer " +:+ to_string (or_else (get args "api_token") (apiToken c)))]>
           headers), c, []).
Proof.
  intros H. unfold attach_bearer. rewrite H. simpl. now rewrite H.
Qed.

(** No token at hand: one exchange decides. *)
Lemma attach_bearer_exchange (args headers : gmap string value) (c : Client) :
  truthy (or_else (get args "api_token") (apiToken c)) = false ->
  attach_bearer up args headers c
  = match token_endpoint up (proxy_header c) with
    | Failed reason =>
        (inl (AuthenticationError ("Authentication failed: " +:+ reason)), c,
         [Authenticate (username (config c)) (password (config c)) (proxy_header c)])
    | Replied token =>
        (if truthy token
         then inr (<["Authorization" := VString ("Bearer " +:+ to_string token)]> headers)
         else inl MissingBearerToken,
         setApiToken token c,
         [Authenticate (username (config c)) (password (config c)) (proxy_header c)])
    end.
Proof.
  intros Hno. unfold attach_bearer, authenticate. rewrite Hno. simpl negb. cbv iota.
  destruct (token_endpoint up (proxy_header c)) as [reason|token]; [reflexivity|].
  apply or_else_falsy in Hno as [Harg _].
  unfold or_else. rewrite Harg. simpl apiToken.
  now destruct (truthy token).
Qed.

Lemma resolve_auth_open (op : Operation) (args headers : gmap string value) (c : Client) :
  security op = [] ->
  resolve_auth srv up op args headers c = (inr (headers, false), c, []).
Proof. unfold resolve_auth. now intros ->. Qed.

Lemma resolve_auth_basic (op : Operation) (args headers : gmap string value)
    (c : Client) (requirement : SecurityRequirement) (rest : list SecurityRequirement) :
  security op = requirement :: rest ->
  uses_basic srv requirement = true ->
  resolve_auth srv up op args headers c
  = (inr (delete "Authorization" headers, true), c, []).
Proof. unfold resolve_auth. now intros -> ->. Qed.

Lemma resolve_auth_bearer (op : Operation) (args headers : gmap string value)
    (c : Client) (requirement : SecurityRequirement) (rest : list SecurityRequirement) :
  security op = requirement :: rest ->
  uses_basic srv requirement = false ->
  existsb (indicates_bearer srv) (map fst requirement) = true ->
  resolve_auth srv up op args headers c
  = (match fst (fst (attach_bearer up args headers c)) with
     | inl e => inl e
     | inr headers' => inr (headers', false)
     end,
     snd (fst (attach_bearer up args headers c)),
     snd (attach_bearer up args headers c)).
Proof.
  unfold resolve_auth. intros -> -> Hb. rewrite (bearer_loop_found _ _ _ _ Hb).
  now destruct (attach_bearer up args headers c) as [[r c1] tr].
Qed.

(** RESOLVE_AUTH sends no request of the operation. *)
Lemma attach_bearer_requests (args headers : gmap string value) (c : Client) :
  requests (snd (attach_bearer up args headers c)) = [].
Proof.
  destruct (truthy (or_else (get args "api_token") (apiToken c))) eqn:H.
  - now rewrite attach_bearer_at_hand.
  - rewrite attach_bearer_exchange by exact H.
    now destruct (token_endpoint up (proxy_header c)).
Qed.

Lemma resolve_auth_requests (op : Operation) (args headers : gmap string value) (c : Client) :
  requests (snd (resolve_auth srv up op args headers c)) = [].
Proof.
  unfold resolve_auth.
  destruct (security op) as [|requirement rest]; [reflexivity|].
  destruct (uses_basic srv requirement); [reflexivity|].
  destruct (existsb (indicates_bearer srv) (map fst requirement)) eqn:Hb.
  - rewrite (bearer_loop_found _ _ _ _ Hb).
    pose proof (attach_bearer_requests args headers c) as H.
    now destruct (attach_bearer up args headers c) as [[r c1] tr].
  - now rewrite (bearer_loop_none _ _ _ _ Hb).
Qed.

Lemma requests_app (a b : list event) : requests (a ++ b) = requests a ++ requests b.
Proof. unfold requests. apply omap_app. Qed.

Lemma exchanges_app (a b : list event) : exchanges (a ++ b) = exchanges a + exchanges b.
Proof. unfold exchanges. now rewrite List.filter_app, List.length_app. Qed.

(** EXECUTE for resolved headers. *)
Lemma resolve_and_execute_sends name typedArgs op urlPath queryParams data headers c
    headers' useBasicAuth c2 tr2 :
  resolve_auth srv up op (default ∅ typedArgs) headers c
  = (inr (headers', useBasicAuth), c2, tr2) ->
  useBasicAuth && negb (has_credentials c2) = false ->
  snd (resolve_and_execute srv up name typedArgs op urlPath queryParams data headers c)
  = tr2 ++ [Request (final_config op urlPath queryParams data headers' useBasicAuth c2)]
  /\ snd (fst (resolve_and_execute srv up name typedArgs op urlPath queryParams data
                 headers c)) = c2
  /\ exists r,
       fst (fst (resolve_and_execute srv up name typedArgs op urlPath queryParams data
                   headers c)) = Returned r
       /\ match api up (final_config op urlPath queryParams data headers' useBasicAuth c2) with
          | Replied payload => r = format_result name payload
          | Failed reason => exists d, r = ErrorResult reason d
          end.
Proof.
  intros Hauth Hcreds. unfold resolve_and_execute. rewrite Hauth.
  unfold has_credentials in Hcreds. rewrite negb_involutive in Hcreds. rewrite Hcreds.
  unfold final_config.
  destruct useBasicAuth; simpl;
    (destruct (api up _) as [reason|payload]; simpl; repeat split; eauto).
Qed.

(** EXECUTE without the static credentials that Basic needs. *)
Lemma resolve_and_execute_no_credentials name typedArgs op urlPath queryParams data
    headers c headers' c2 tr2 :
  resolve_auth srv up op (default ∅ typedArgs) headers c = (inr (headers', true), c2, tr2) ->
  has_credentials c2 = false ->
  resolve_and_execute srv up name typedArgs op urlPath queryParams data headers c
  = (caught name typedArgs (Some op) urlPath queryParams data headers' MissingCredentials,
     c2, tr2).
Proof.
  intros Hauth Hcreds. unfold resolve_and_execute. rewrite Hauth.
  unfold has_credentials in Hcreds. apply negb_false_iff in Hcreds. rewrite Hcreds.
  reflexivity.
Qed.

(** RESOLVE_AUTH threw. *)
Lemma resolve_and_execute_throws name typedArgs op urlPath queryParams data headers c
    e c2 tr2 :
  resolve_auth srv up op (default ∅ typedArgs) headers c = (inl e, c2, tr2) ->
  resolve_and_execute srv up name typedArgs op urlPath queryParams data headers c
  = (caught name typedArgs (Some op) urlPath queryParams data headers e, c2, tr2).
Proof. intros Hauth. unfold resolve_and_execute. now rewrite Hauth. Qed.

(** Every request that leaves RESOLVE_AUTH and EXECUTE is the one built
    from the resolved headers. *)
Lemma resolve_and_execute_requests name typedArgs op urlPath queryParams data headers c cfg :
  In cfg (requests (snd (resolve_and_execute srv up name typedArgs op urlPath
                           queryParams data headers c))) ->
  exists headers' useBasicAuth c2 tr2,
    resolve_auth srv up op (default ∅ typedArgs) headers c
    = (inr (headers', useBasicAuth), c2, tr2)
    /\ cfg = final_config op urlPath queryParams data headers' useBasicAuth c2.
Proof.
  pose proof (resolve_auth_requests op (default ∅ typedArgs) headers c) as Hreq.
  destruct (resolve_auth srv up op (default ∅ typedArgs) headers c)
    as [[r c2] tr2] eqn:Hauth. simpl in Hreq.
  destruct r as [e|[headers' useBasicAuth]].
  - rewrite (resolve_and_execute_throws _ _ _ _ _ _ _ _ _ _ _ Hauth). simpl.
    rewrite Hreq. intros [].
  - destruct (useBasicAuth && negb (has_credentials c2)) eqn:Hcreds.
    + apply andb_true_iff in Hcreds as [-> Hc]. apply negb_true_iff in Hc.
      rewrite (resolve_and_execute_no_credentials _ _ _ _ _ _ _ _ _ _ _ Hauth Hc). simpl.
      rewrite Hreq. intros [].
    + destruct (resolve_and_execute_sends name typedArgs op urlPath queryParams data
                  headers c _ _ _ _ Hauth Hcreds) as (-> & _ & _).
      rewrite requests_app, Hreq. simpl. intros [<-|[]].
      now exists headers', useBasicAuth, c2, tr2.
Qed.

(** ** The handler, stage by stage *)

Lemma dispatch_stages name typedArgs op c :
  let args := default ∅ typedArgs in
  let built := header_loop up op args (headerParams op) ∅ c in
  let run := resolve_and_execute srv up name typedArgs op
               (fst (build_url op args))
               (fst (query_loop op args (queryParams op) ∅))
               (get args "body") (fst (fst (fst built))) (snd (fst built)) in
  dispatch srv up name typedArgs op c
  = match filteredMissing (missingInputs up op args c) with
    | (_ :: _) as fm => (Returned (Requires (map required_input fm)), snd (fst built), snd built)
    | [] => (fst (fst run), snd (fst run), snd built ++ snd run)
    end.
Proof.
  unfold dispatch, missingInputs. cbv zeta.
  destruct (build_url op (default ∅ typedArgs)) as [urlPath ms_path].
  destruct (query_loop op (default ∅ typedArgs) (queryParams op) ∅) as [qp ms_query].
  destruct (header_loop up op (default ∅ typedArgs) (headerParams op) ∅ c)
    as [[[hd ms_header] c1] tr1].
  simpl fst. simpl snd.
  destruct (filteredMissing _); [|reflexivity].
  now destruct (resolve_and_execute srv up name typedArgs op urlPath qp _ hd c1)
    as [[out c2] tr2].
Qed.

Lemma callTool_dispatch c name typedArgs op :
  isReady srv = true ->
  not_acknowledged name typedArgs ->
  operationMap srv !! name = Some op ->
  callTool srv up c name typedArgs
  = dispatch srv up name typedArgs op (with_proxy typedArgs c).
Proof.
  intros Hready Hack Hop. unfold callTool, with_proxy, lookup_and_dispatch.
  unfold not_acknowledged in Hack.
  rewrite Hready, Hop. simpl negb. cbv iota.
  destruct (requested_proxy typedArgs) as [id|]; [|reflexivity].
  destruct Hack as [Hack|Hack]; [discriminate|].
  now rewrite (String_eqb_false _ _ Hack).
Qed.

Lemma with_proxy_credentials typedArgs c :
  username (config (with_proxy typedArgs c)) = username (config c)
  /\ password (config (with_proxy typedArgs c)) = password (config c)
  /\ apiToken (with_proxy typedArgs c) = apiToken c
  /\ amazonAccessToken (with_proxy typedArgs c) = amazonAccessToken c
  /\ marketplaceId (with_proxy typedArgs c) = marketplaceId c.
Proof. unfold with_proxy. now destruct (requested_proxy typedArgs). Qed.

(** The requests of a dispatched call carry the URL of BUILD_URL. *)
Lemma dispatch_requests name typedArgs op c cfg :
  In cfg (requests (snd (dispatch srv up name typedArgs op c))) ->
  let args := default ∅ typedArgs in
  let built := header_loop up op args (headerParams op) ∅ c in
  filteredMissing (missingInputs up op args c) = []
  /\ exists headers' useBasicAuth c2 tr2,
       resolve_auth srv up op args (fst (fst (fst built))) (snd (fst built))
       = (inr (headers', useBasicAuth), c2, tr2)
       /\ cfg = final_config op (fst (build_url op args))
                  (fst (query_loop op args (queryParams op) ∅))
                  (get args "body") headers' useBasicAuth c2.
Proof.
  rewrite dispatch_stages. cbv zeta.
  pose proof (header_loop_spec up op (default ∅ typedArgs) (headerParams op) ∅ c)
    as [_ Hvendor].
  apply vendor_only_requests in Hvendor.
  destruct (filteredMissing _) as [|mi fm].
  - simpl snd. rewrite requests_app, Hvendor. simpl. intros Hin.
    split; [reflexivity|]. now apply resolve_and_execute_requests in Hin.
  - simpl snd. rewrite Hvendor. intros [].
Qed.

End Execution.

(* ===================================================================== *)
(** * The compiled tables *)
(* ===================================================================== *)

Section Tables.

Lemma operation_table_from (entries : list (string * Operation))
    (acc : gmap string Operation) (name : string) (op : Operation) :
  fold_left (fun acc e => <[fst e := snd e]> acc) entries acc !! name = Some op ->
  In (name, op) entries \/ acc !! name = Some op.
Proof.
  revert acc. induction entries as [|[k v] entries IH]; intros acc H; [now right|].
  simpl in H. apply IH in H as [H|H]; [left; now right|].
  destruct (decide (k = name)) as [->|Hne].
  - rewrite lookup_insert_eq in H. injection H as ->. left. now left.
  - rewrite lookup_insert_ne in H by exact Hne. now right.
Qed.

Lemma operation_table_lookup (entries : list (string * Operation))
    (name : string) (op : Operation) :
  operation_table entries !! name = Some op -> In (name, op) entries.
Proof.
  intros H. apply operation_table_from in H as [H|H]; [exact H|].
  rewrite lookup_empty in H. discriminate.
Qed.

Lemma compile_all_entry (doc : OpenApi) (name : string) (op : Operation) :
  In (name, op) (map snd (compile_all doc)) ->
  exists pathKey item m o, (name, op) = compile_operation doc pathKey item m o.
Proof.
  intros H. apply in_map_iff in H as ([tool e] & He & Hin). simpl in He. subst e.
  unfold compile_all in Hin. apply in_concat in Hin as (l & Hl & Hin).
  apply in_map_iff in Hl as ([pathKey item] & <- & _).
  unfold compile_item in Hin.
  apply list_elem_of_In, list_elem_of_omap in Hin as (m & _ & Hm).
  destruct (item_operation item m) as [o|]; [|discriminate].
  exists pathKey, item, m, o. congruence.
Qed.

(** The flag of a compiled operation is the one computed from its path
    and its name. *)
Lemma compiled_flag (srv0 : Server) (doc : OpenApi) (name : string) (op : Operation) :
  openApi srv0 = Some doc ->
  operationMap (generateFromCurrentOpenApi srv0) !! name = Some op ->
  pathHasTrailingSlash op = trailing_slash_flag (path op) name.
Proof.
  intros Hdoc. unfold generateFromCurrentOpenApi. rewrite Hdoc. simpl.
  intros H. apply operation_table_lookup, compile_all_entry in H
    as (pathKey & item & m & o & H).
  unfold compile_operation in H. now injection H as -> ->.
Qed.

Lemma flag_of_trailing_slash (pathKey name : string) :
  endsWithSlash pathKey = true -> trailing_slash_flag pathKey name = true.
Proof. unfold trailing_slash_flag. now intros ->. Qed.

Lemma flag_of_proxy_listing : trailing_slash_flag "/account" "getProxyUsers" = true.
Proof. reflexivity. Qed.

Lemma generated_is_ready (srv0 : Server) (doc : OpenApi) :
  openApi srv0 = Some doc -> isReady (generateFromCurrentOpenApi srv0) = true.
Proof. intros H. unfold generateFromCurrentOpenApi. now rewrite H. Qed.

End Tables.

(* ===================================================================== *)
(** * The handler as a whole *)
(* ===================================================================== *)

Section Handler.

Variable srv : Server.
Variable up : Upstream.

(** A call that makes any exchange is a dispatched one. *)
Lemma callTool_cases c name typedArgs :
  snd (callTool srv up c name typedArgs) = []
  \/ (isReady srv = true /\ not_acknowledged name typedArgs
      /\ exists op, operationMap srv !! name = Some op
           /\ callTool srv up c name typedArgs
              = dispatch srv up name typedArgs op (with_proxy typedArgs c)).
Proof.
  destruct (isReady srv) eqn:Hready; [|left; unfold callTool; now rewrite Hready].
  destruct (operationMap srv !! name) as [op|] eqn:Hop.
  - assert (Hfound : not_acknowledged name typedArgs ->
      callTool srv up c name typedArgs
      = dispatch srv up name typedArgs op (with_proxy typedArgs c)).
    { intros Hack. now apply callTool_dispatch. }
    destruct (requested_proxy typedArgs) as [id|] eqn:Hproxy.
    + destruct (String.eqb name "getProxyUsers") eqn:Hname.
      * left. unfold callTool. now rewrite Hready, Hproxy, Hname.
      * assert (Hack : not_acknowledged name typedArgs).
        { right. intros ->. discriminate. }
        right. repeat split; [exact Hack|]. exists op. split; [reflexivity|auto].
    + assert (Hack : not_acknowledged name typedArgs) by now left.
      right. repeat split; [exact Hack|]. exists op. split; [reflexivity|auto].
  - left. unfold callTool, lookup_and_dispatch. rewrite Hready, Hop. simpl.
    destruct (requested_proxy typedArgs); [|reflexivity].
    now destruct (String.eqb name "getProxyUsers").
Qed.

Lemma registered_basic_uses_basic (requirement : SecurityRequirement) :
  registered_basic srv requirement -> uses_basic srv requirement = true.
Proof.
  intros (schemeName & sch & Hin & Hsch & Hkind).
  unfold uses_basic. apply existsb_exists. exists schemeName. split; [exact Hin|].
  unfold indicates_basic. rewrite Hsch.
  unfold http_basic, names_basic in Hkind.
  destruct Hkind as [->| ->]; [reflexivity|].
  now rewrite orb_true_r.
Qed.

End Handler.

(* ===================================================================== *)
(** * Bearer resolution *)
(* ===================================================================== *)

Section Bearer.

Variable srv : Server.
Variable up : Upstream.

Lemma sends_with_bearer_exchanges (tr : list event) (token : value) (n : nat) :
  sends_with_bearer tr token n -> exchanges tr = n.
Proof.
  intros (pre & auths & cfg & -> & Hpre & Hauths & <- & _).
  rewrite !exchanges_app, (vendor_only_exchanges _ Hpre). simpl.
  unfold exchanges. rewrite Nat.add_0_r. f_equal.
  induction Hauths as [|e auths He _ IH]; [reflexivity|].
  simpl. rewrite He. simpl. now f_equal.
Qed.

(** What a call that reaches the bearer branch does, in terms of the
    token at hand when RESOLVE_AUTH starts. *)
Lemma bearer_resolution c name typedArgs op :
  bearer_call srv up c name typedArgs op ->
  let arg := get (default ∅ typedArgs) "api_token" in
  let c0 := with_proxy typedArgs c in
  let out := fst (fst (callTool srv up c name typedArgs)) in
  let c' := snd (fst (callTool srv up c name typedArgs)) in
  let tr := snd (callTool srv up c name typedArgs) in
  (truthy (or_else arg (apiToken c)) = true ->
   sends_with_bearer tr (or_else arg (apiToken c)) 0 /\ apiToken c' = apiToken c)
  /\ (truthy (or_else arg (apiToken c)) = false ->
      exchanges tr = 1
      /\ match token_endpoint up (proxy_header c0) with
         | Replied token =>
             apiToken c' = token
             /\ (if truthy token then sends_with_bearer tr token 1
                 else requests tr = []
                      /\ fails_with out "Missing bearer token (api_token)")
         | Failed reason =>
             apiToken c' = apiToken c
             /\ requests tr = []
             /\ fails_with out ("Authentication failed: " +:+ reason)
         end).
Proof.
  intros [Hready Hack Hop Hcomplete (requirement & rest & Hsec & Hbasic & Hbearer)].
  cbv zeta.
  set (args := default ∅ typedArgs) in *.
  set (c0 := with_proxy typedArgs c) in *.
  rewrite (callTool_dispatch srv up c name typedArgs op Hready Hack Hop).
  fold c0. rewrite dispatch_stages. cbv zeta. fold args. rewrite Hcomplete.
  set (built := header_loop up op args (headerParams op) ∅ c0).
  pose proof (header_loop_spec up op args (headerParams op) ∅ c0) as [Hsame Hvendor].
  fold built in Hsame, Hvendor.
  destruct Hsame as (Hconfig & _ & Htoken).
  pose proof (with_proxy_credentials typedArgs c) as (_ & _ & Htoken0 & _).
  fold c0 in Htoken0.
  assert (Hcached : apiToken (snd (fst built)) = apiToken c) by congruence.
  assert (Hproxy : proxy_header (snd (fst built)) = proxy_header c0).
  { unfold proxy_header. now rewrite Hconfig. }
  set (c1 := snd (fst built)) in *.
  set (hd := fst (fst (fst built))) in *.
  pose proof (resolve_auth_bearer srv up op args hd c1 requirement rest
                Hsec Hbasic Hbearer) as Hauth.
  simpl fst. simpl snd.
  split.
  - intros Hhand. rewrite <- Hcached in Hhand |- *.
    rewrite (attach_bearer_at_hand up args hd c1 Hhand) in Hauth. simpl in Hauth.
    destruct (resolve_and_execute_sends srv up name typedArgs op
                (fst (build_url op args)) (fst (query_loop op args (queryParams op) ∅))
                (get args "body") hd c1 _ _ _ _ Hauth eq_refl) as (-> & -> & _).
    split; [|reflexivity].
    exists (snd built), [], (final_config op (fst (build_url op args))
                               (fst (query_loop op args (queryParams op) ∅))
                               (get args "body")
                               (<["Authorization" :=
                                   VString ("Bearer " +:+
                                     to_string (or_else (get args "api_token")
                                                  (apiToken c1)))]> hd) false c1).
    repeat split; [exact Hvendor|constructor|apply lookup_insert_eq].
  - intros Hnone. rewrite <- Hcached in Hnone.
    rewrite (attach_bearer_exchange up args hd c1 Hnone), Hproxy in Hauth.
    rewrite Hconfig in Hauth.
    destruct (token_endpoint up (proxy_header c0)) as [reason|token]; simpl in Hauth.
    + rewrite (resolve_and_execute_throws srv up name typedArgs op _ _ _ _ _ _ _ _ Hauth).
      simpl. rewrite exchanges_app, requests_app,
        (vendor_only_exchanges _ Hvendor), (vendor_only_requests _ Hvendor).
      repeat split; [exact Hcached|]. eexists. reflexivity.
    + destruct (truthy token) eqn:Htruthy.
      * destruct (resolve_and_execute_sends srv up name typedArgs op
                    (fst (build_url op args))
                    (fst (query_loop op args (queryParams op) ∅))
                    (get args "body") hd c1 _ _ _ _ Hauth eq_refl) as (-> & -> & _).
        assert (Hsends : sends_with_bearer
                  (snd built ++
                   [Authenticate (username (config c0)) (password (config c0))
                      (proxy_header c0)] ++
                   [Request (final_config op (fst (build_url op args))
                               (fst (query_loop op args (queryParams op) ∅))
                               (get args "body")
                               (<["Authorization" :=
                                   VString ("Bearer " +:+ to_string token)]> hd)
                               false (setApiToken token c1))]) token 1).
        { eexists _, _, _. split; [reflexivity|].
          repeat split; [exact Hvendor|repeat constructor|apply lookup_insert_eq]. }
        split; [now apply sends_with_bearer_exchanges in Hsends|].
        split; [reflexivity|exact Hsends].
      * rewrite (resolve_and_execute_throws srv up name typedArgs op _ _ _ _ _ _ _ _ Hauth).
        simpl. rewrite exchanges_app, requests_app,
          (vendor_only_exchanges _ Hvendor), (vendor_only_requests _ Hvendor).
        repeat split. eexists. reflexivity.
Qed.

End Bearer.

(* ===================================================================== *)
(** * The vendor token *)
(* ===================================================================== *)

Section Vendor.

Variable srv : Server.
Variable up : Upstream.

(** Asking again changes neither the value nor the session. *)
Lemma vendor_token_idem (c : Client) :
  fst (vendor_token up (snd (fst (vendor_token up c)))) = fst (vendor_token up c).
Proof.
  unfold vendor_token, getAmazonAccessToken.
  destruct (truthy (amazonAccessToken c)) eqn:E; simpl.
  - now rewrite E.
  - destruct (access_token_endpoint up (marketplaceId c)) as [reason|token] eqn:R; simpl.
    + rewrite ?E, ?R. simpl. now rewrite ?E, ?R.
    + destruct (truthy token) eqn:T; simpl; [reflexivity|].
      rewrite ?T, ?R. simpl. now rewrite ?T, ?R.
Qed.

Lemma vendor_token_cached (c : Client) :
  truthy (amazonAccessToken c) = true ->
  vendor_token up c = (amazonAccessToken c, c, []).
Proof. unfold vendor_token. now intros ->. Qed.

Lemma vendor_token_fetched (c : Client) (token : value) :
  truthy (amazonAccessToken c) = false ->
  access_token_endpoint up (marketplaceId c) = Replied token ->
  vendor_token up c = (token, setAmazonAccessToken token c, [AccessToken (marketplaceId c)]).
Proof.
  intros Hc Hr. unfold vendor_token, getAmazonAccessToken. now rewrite Hc, Hr.
Qed.

Lemma vendor_token_failed (c : Client) (reason : string) :
  truthy (amazonAccessToken c) = false ->
  access_token_endpoint up (marketplaceId c) = Failed reason ->
  vendor_token up c = (amazonAccessToken c, c, [AccessToken (marketplaceId c)]).
Proof.
  intros Hc Hr. unfold vendor_token, getAmazonAccessToken. now rewrite Hc, Hr.
Qed.

Section Loop.

Variable op : Operation.
Variable args : gmap string value.
Hypothesis not_supplied : truthy (argument args "x-access-token") = false.

(** The header set binds [x-access-token] to the vendor value. *)
Lemma header_loop_vendor_value (hs : list string) (acc : gmap string value)
    (c : Client) (v : value) :
  fst (fst (vendor_token up c)) = v -> is_undefined v = false ->
  In "x-access-token" hs \/ acc !! "x-access-token" = Some v ->
  fst (fst (fst (header_loop up op args hs acc c))) !! "x-access-token" = Some v.
Proof.
  revert acc c. induction hs as [|h hs IH]; intros acc c Hv Hdef Hin.
  - destruct Hin as [[]|Hacc]. exact Hacc.
  - simpl. destruct (String.eqb h "x-access-token") eqn:Hh.
    + apply String.eqb_eq in Hh. subst h. rewrite not_supplied. simpl.
      pose proof (vendor_token_idem c) as Hidem.
      destruct (vendor_token up c) as [[val c1] tr]. simpl in Hv, Hidem. subst val.
      rewrite Hdef. simpl.
      specialize (IH (<["x-access-token":=v]> acc) c1).
      destruct (header_loop up op args hs (<["x-access-token":=v]> acc) c1) as [[[hd ms] c2] tr'].
      simpl in *. apply IH; [now rewrite Hidem|exact Hdef|].
      right. apply lookup_insert_eq.
    + simpl. apply String.eqb_neq in Hh.
      assert (Hrest : In "x-access-token" hs \/ acc !! "x-access-token" = Some v).
      { destruct Hin as [[Heq|Hin]|Hacc]; [congruence|now left|now right]. }
      destruct (is_undefined (argument args h)); simpl.
      * specialize (IH acc c Hv Hdef Hrest).
        now destruct (header_loop up op args hs acc c) as [[[hd ms] c2] tr'].
      * specialize (IH (<[h:=argument args h]> acc) c Hv Hdef).
        destruct (header_loop up op args hs (<[h:=argument args h]> acc) c)
          as [[[hd ms] c2] tr'].
        simpl in *. apply IH.
        destruct Hrest as [Hin'|Hacc]; [now left|right].
        now rewrite lookup_insert_ne.
Qed.

(** The session after the loop is the one after the first fetch. *)
Lemma header_loop_vendor_session (hs : list string) (acc : gmap string value) (c : Client) :
  snd (fst (header_loop up op args hs acc c))
  = if existsb (fun h' => String.eqb h' "x-access-token") hs then snd (fst (vendor_token up c)) else c.
Proof.
  revert acc c. induction hs as [|h hs IH]; intros acc c; [reflexivity|].
  simpl.
  destruct (String.eqb h "x-access-token") eqn:Hh.
  - apply String.eqb_eq in Hh. subst h. rewrite not_supplied. simpl.
    pose proof (vendor_token_idem c) as Hidem.
    destruct (vendor_token up c) as [[val c1] tr]. simpl in Hidem.
    assert (Hc1 : snd (fst (vendor_token up c1)) = c1) by now rewrite Hidem.
    destruct (is_undefined val); simpl.
    + specialize (IH acc c1).
      destruct (header_loop up op args hs acc c1) as [[[hd ms] c2] tr']. simpl in *.
      rewrite IH, Hc1. now destruct (existsb (fun h' => String.eqb h' "x-access-token") hs).
    + specialize (IH (<["x-access-token":=val]> acc) c1).
      destruct (header_loop up op args hs (<["x-access-token":=val]> acc) c1) as [[[hd ms] c2] tr'].
      simpl in *.
      rewrite IH, Hc1. now destruct (existsb (fun h' => String.eqb h' "x-access-token") hs).
  - simpl. destruct (is_undefined (argument args h)); simpl.
    + specialize (IH acc c).
      now destruct (header_loop up op args hs acc c) as [[[hd ms] c2] tr'].
    + specialize (IH (<[h:=argument args h]> acc) c).
      now destruct (header_loop up op args hs (<[h:=argument args h]> acc) c)
        as [[[hd ms] c2] tr'].
Qed.

(** With a cached token the loop fetches nothing. *)
Lemma header_loop_cached (hs : list string) (acc : gmap string value) (c : Client) :
  truthy (amazonAccessToken c) = true ->
  snd (header_loop up op args hs acc c) = [].
Proof.
  intros Hc. revert acc. induction hs as [|h hs IH]; intros acc; [reflexivity|].
  simpl. rewrite (vendor_token_cached c Hc).
  destruct (String.eqb h "x-access-token" && negb (truthy (argument args h))).
  - destruct (is_undefined (amazonAccessToken c)); simpl.
    + specialize (IH acc).
      destruct (header_loop up op args hs acc c) as [[[hd ms] c2] tr']. exact IH.
    + specialize (IH (<[h:=amazonAccessToken c]> acc)).
      destruct (header_loop up op args hs (<[h:=amazonAccessToken c]> acc) c)
        as [[[hd ms] c2] tr']. exact IH.
  - destruct (is_undefined (argument args h)); simpl.
    + specialize (IH acc).
      destruct (header_loop up op args hs acc c) as [[[hd ms] c2] tr']. exact IH.
    + specialize (IH (<[h:=argument args h]> acc)).
      destruct (header_loop up op args hs (<[h:=argument args h]> acc) c)
        as [[[hd ms] c2] tr']. exact IH.
Qed.

(** Without a cached token the first exchange of the loop is the fetch. *)
Lemma header_loop_fetches_first (hs : list string) (acc : gmap string value) (c : Client) :
  truthy (amazonAccessToken c) = false -> In "x-access-token" hs ->
  exists tr', snd (header_loop up op args hs acc c) = AccessToken (marketplaceId c) :: tr'.
Proof.
  intros Hc. revert acc. induction hs as [|h hs IH]; intros acc Hin; [destruct Hin|].
  simpl. destruct (String.eqb h "x-access-token") eqn:Hh.
  - apply String.eqb_eq in Hh. subst h. rewrite not_supplied. simpl.
    assert (Hfetch : exists v c1, vendor_token up c = (v, c1, [AccessToken (marketplaceId c)])).
    { destruct (access_token_endpoint up (marketplaceId c)) as [reason|token] eqn:R.
      - rewrite (vendor_token_failed c reason Hc R). eauto.
      - rewrite (vendor_token_fetched c token Hc R). eauto. }
    destruct Hfetch as (v & c1 & ->).
    destruct (is_undefined v); simpl.
    + destruct (header_loop up op args hs acc c1) as [[[hd ms] c2] tr']. simpl. eauto.
    + destruct (header_loop up op args hs (<["x-access-token":=v]> acc) c1) as [[[hd ms] c2] tr'].
      simpl. eauto.
  - simpl. apply String.eqb_neq in Hh.
    destruct Hin as [Heq|Hin]; [congruence|].
    destruct (is_undefined (argument args h)); simpl.
    + destruct (IH acc Hin) as (tr0 & Htr).
      destruct (header_loop up op args hs acc c) as [[[hd ms] c2] tr']. simpl in *. eauto.
    + destruct (IH (<[h:=argument args h]> acc) Hin) as (tr0 & Htr).
      destruct (header_loop up op args hs (<[h:=argument args h]> acc) c)
        as [[[hd ms] c2] tr']. simpl in *. eauto.
Qed.

(** A vendor value that is not [undefined] records nothing as missing:
    the entries are those of the other header parameters. *)
Lemma header_loop_skips_vendor (hs : list string) (acc acc' : gmap string value)
    (c c' : Client) :
  is_undefined (fst (fst (vendor_token up c))) = false ->
  snd (fst (fst (header_loop up op args hs acc c)))
  = snd (fst (fst (header_loop up op args
                     (List.filter (fun h' => negb (String.eqb h' "x-access-token")) hs) acc' c'))).
Proof.
  revert acc acc' c c'. induction hs as [|h hs IH]; intros acc acc' c c' Hdef;
    [reflexivity|].
  simpl. destruct (String.eqb h "x-access-token") eqn:Hh; simpl.
  - apply String.eqb_eq in Hh. subst h. rewrite not_supplied. simpl.
    pose proof (vendor_token_idem c) as Hidem.
    destruct (vendor_token up c) as [[val c1] tr]. simpl in Hdef, Hidem.
    rewrite Hdef. simpl.
    specialize (IH (<["x-access-token":=val]> acc) acc' c1 c').
    destruct (header_loop up op args hs (<["x-access-token":=val]> acc) c1) as [[[hd ms] c2] tr'].
    simpl in *. apply IH. now rewrite Hidem.
  - rewrite ?Hh. simpl.
    destruct (is_undefined (argument args h)); simpl.
    + specialize (IH acc acc' c c' Hdef).
      destruct (header_loop up op args hs acc c) as [[[hd ms] c2] tr'].
      destruct (header_loop up op args _ acc' c') as [[[hd' ms'] c2'] tr''].
      simpl in *. now rewrite IH.
    + specialize (IH (<[h:=argument args h]> acc) (<[h:=argument args h]> acc') c c' Hdef).
      destruct (header_loop up op args hs (<[h:=argument args h]> acc) c)
        as [[[hd ms] c2] tr'].
      now destruct (header_loop up op args _ (<[h:=argument args h]> acc') c')
        as [[[hd' ms'] c2'] tr''].
Qed.

End Loop.

End Vendor.

(* ===================================================================== *)
(** * What RESOLVE_AUTH and EXECUTE leave alone *)
(* ===================================================================== *)

Section Frame.

Variable srv : Server.
Variable up : Upstream.

Lemma vendor_fetches_app (a b : list event) :
  vendor_fetches (a ++ b) = vendor_fetches a + vendor_fetches b.
Proof. unfold vendor_fetches. now rewrite List.filter_app, List.length_app. Qed.

Lemma attach_bearer_frame (args headers : gmap string value) (c : Client) :
  vendor_fetches (snd (attach_bearer up args headers c)) = 0
  /\ forall headers' k,
       fst (fst (attach_bearer up args headers c)) = inr headers' ->
       k <> "Authorization" -> headers' !! k = headers !! k.
Proof.
  destruct (truthy (or_else (get args "api_token") (apiToken c))) eqn:H.
  - rewrite attach_bearer_at_hand by exact H. simpl. split; [reflexivity|].
    intros headers' k [= <-] Hk. now rewrite lookup_insert_ne.
  - rewrite attach_bearer_exchange by exact H.
    destruct (token_endpoint up (proxy_header c)) as [reason|token]; simpl;
      (split; [reflexivity|]); [discriminate|].
    intros headers' k Heq Hk. destruct (truthy token); [|discriminate].
    injection Heq as <-. now rewrite lookup_insert_ne.
Qed.

Lemma resolve_auth_frame (op : Operation) (args headers : gmap string value) (c : Client) :
  vendor_fetches (snd (resolve_auth srv up op args headers c)) = 0
  /\ forall headers' useBasicAuth k,
       fst (fst (resolve_auth srv up op args headers c)) = inr (headers', useBasicAuth) ->
       k <> "Authorization" -> headers' !! k = headers !! k.
Proof.
  unfold resolve_auth.
  destruct (security op) as [|requirement rest].
  { split; [reflexivity|]. now intros headers' b k [= <- _] _. }
  destruct (uses_basic srv requirement).
  { split; [reflexivity|]. intros headers' b k [= <- _] Hk. now rewrite lookup_delete_ne. }
  destruct (existsb (indicates_bearer srv) (map fst requirement)) eqn:Hb.
  - rewrite (bearer_loop_found _ _ _ _ _ _ Hb).
    pose proof (attach_bearer_frame args headers c) as [Hfetch Hkeys].
    destruct (attach_bearer up args headers c) as [[r c1] tr]. simpl in *.
    split; [exact Hfetch|].
    intros headers' b k Heq Hk. destruct r as [e|hd]; [discriminate|].
    injection Heq as <- _. now apply Hkeys.
  - rewrite (bearer_loop_none _ _ _ _ _ _ Hb). simpl.
    split; [reflexivity|]. now intros headers' b k [= <- _] _.
Qed.

Lemma resolve_and_execute_no_fetch name typedArgs op urlPath queryParams data headers c :
  vendor_fetches (snd (resolve_and_execute srv up name typedArgs op urlPath queryParams
                         data headers c)) = 0.
Proof.
  pose proof (resolve_auth_frame op (default ∅ typedArgs) headers c) as [Hfetch _].
  destruct (resolve_auth srv up op (default ∅ typedArgs) headers c)
    as [[r c2] tr2] eqn:Hauth. simpl in Hfetch.
  destruct r as [e|[headers' useBasicAuth]].
  - now rewrite (resolve_and_execute_throws _ _ _ _ _ _ _ _ _ _ _ _ _ Hauth).
  - destruct (useBasicAuth && negb (has_credentials c2)) eqn:Hcreds.
    + apply andb_true_iff in Hcreds as [-> Hc]. apply negb_true_iff in Hc.
      now rewrite (resolve_and_execute_no_credentials _ _ _ _ _ _ _ _ _ _ _ _ _ Hauth Hc).
    + destruct (resolve_and_execute_sends srv up name typedArgs op urlPath queryParams
                  data headers c _ _ _ _ Hauth Hcreds) as (-> & _ & _).
      rewrite vendor_fetches_app, Hfetch. reflexivity.
Qed.

(** After BUILD_HEADERS the vendor token of the session is settled. *)
Lemma dispatch_vendor_session name typedArgs op c :
  amazonAccessToken (snd (fst (dispatch srv up name typedArgs op c)))
  = amazonAccessToken
      (snd (fst (header_loop up op (default ∅ typedArgs) (headerParams op) ∅ c))).
Proof.
  rewrite dispatch_stages. cbv zeta.
  destruct (filteredMissing _); [|reflexivity]. simpl.
  now destruct (resolve_and_execute_config srv up name typedArgs op
    (fst (build_url op (default ∅ typedArgs)))
    (fst (query_loop op (default ∅ typedArgs) (queryParams op) ∅))
    (get (default ∅ typedArgs) "body")
    (fst (fst (fst (header_loop up op (default ∅ typedArgs) (headerParams op) ∅ c))))
    (snd (fst (header_loop up op (default ∅ typedArgs) (headerParams op) ∅ c))))
    as (_ & _ & ->).
Qed.

(** The trace of a dispatched call starts with the trace of BUILD_HEADERS. *)
Lemma dispatch_trace name typedArgs op c :
  exists rest,
    snd (dispatch srv up name typedArgs op c)
    = snd (header_loop up op (default ∅ typedArgs) (headerParams op) ∅ c) ++ rest
    /\ vendor_fetches rest = 0.
Proof.
  rewrite dispatch_stages. cbv zeta.
  destruct (filteredMissing _).
  - eexists. split; [reflexivity|]. apply resolve_and_execute_no_fetch.
  - exists []. now rewrite app_nil_r.
Qed.

(** The loops read the parameter definitions of the operation only. *)
Lemma path_loop_defs (op op' : Operation) (args : gmap string value)
    (ps : list string) (u : string) :
  paramDefs op' = paramDefs op -> path_loop op' args ps u = path_loop op args ps u.
Proof.
  intros Hdefs. revert u. induction ps as [|p ps IH]; intros u; [reflexivity|].
  simpl. rewrite Hdefs. destruct (is_undefined (argument args p)); [|apply IH].
  now rewrite IH.
Qed.

Lemma query_loop_defs (op op' : Operation) (args : gmap string value)
    (qs : list string) (acc : gmap string value) :
  paramDefs op' = paramDefs op -> query_loop op' args qs acc = query_loop op args qs acc.
Proof.
  intros Hdefs. revert acc. induction qs as [|q qs IH]; intros acc; [reflexivity|].
  simpl. rewrite Hdefs. destruct (negb (is_undefined (argument args q))); [apply IH|].
  now rewrite IH.
Qed.

Lemma header_loop_defs (op op' : Operation) (args : gmap string value)
    (hs : list string) (acc : gmap string value) (c : Client) :
  paramDefs op' = paramDefs op ->
  header_loop up op' args hs acc c = header_loop up op args hs acc c.
Proof.
  intros Hdefs. revert acc c. induction hs as [|h hs IH]; intros acc c; [reflexivity|].
  simpl. rewrite Hdefs.
  destruct (String.eqb h "x-access-token" && negb (truthy (argument args h))).
  - destruct (vendor_token up c) as [[val c1] tr].
    destruct (negb (is_undefined val)); now rewrite IH.
  - destruct (negb (is_undefined (argument args h))); now rewrite IH.
Qed.

(** A vendor value that is not [undefined] keeps [x-access-token] out of
    the missing inputs: they are those of the operation without it. *)
Lemma missingInputs_without_vendor (op : Operation) (args : gmap string value) (c : Client) :
  truthy (argument args "x-access-token") = false ->
  is_undefined (fst (fst (vendor_token up c))) = false ->
  missingInputs up op args c
  = missingInputs up (without_header "x-access-token" op) args c.
Proof.
  intros Harg Hdef. unfold missingInputs, build_url, body_missing. simpl.
  rewrite (path_loop_defs op (without_header "x-access-token" op)) by reflexivity.
  rewrite (query_loop_defs op (without_header "x-access-token" op)) by reflexivity.
  rewrite (header_loop_defs op (without_header "x-access-token" op)) by reflexivity.
  now rewrite (header_loop_skips_vendor up op args Harg (headerParams op) ∅ ∅ c c Hdef).
Qed.

End Frame.

Section VendorHeader.

Variable srv : Server.
Variable up : Upstream.

(** A complete call of an operation without security requirement sends
    its request, once. *)
Lemma callTool_open_sends c name typedArgs op :
  isReady srv = true ->
  not_acknowledged name typedArgs ->
  operationMap srv !! name = Some op ->
  filteredMissing (missingInputs up op (default ∅ typedArgs) (with_proxy typedArgs c)) = [] ->
  security op = [] ->
  exists cfg,
    requests (snd (callTool srv up c name typedArgs)) = [cfg]
    /\ url cfg = fst (build_url op (default ∅ typedArgs)).
Proof.
  intros Hready Hack Hop Hmissing Hopen.
  rewrite (callTool_dispatch srv up c name typedArgs op Hready Hack Hop).
  set (args := default ∅ typedArgs) in *.
  set (c0 := with_proxy typedArgs c) in *.
  rewrite dispatch_stages. cbv zeta. fold args. rewrite Hmissing.
  pose proof (header_loop_spec up op args (headerParams op) ∅ c0) as [_ Hv].
  simpl snd. rewrite requests_app, (vendor_only_requests _ Hv). simpl.
  set (built := header_loop up op args (headerParams op) ∅ c0).
  destruct (resolve_and_execute_sends srv up name typedArgs op
              (fst (build_url op args)) (fst (query_loop op args (queryParams op) ∅))
              (get args "body") (fst (fst (fst built))) (snd (fst built)) _ _ _ _
              (resolve_auth_open srv up op args (fst (fst (fst built)))
                 (snd (fst built)) Hopen) eq_refl) as (-> & _).
  simpl. eauto.
Qed.

(** The value that a dispatched call gives to [x-access-token] when the
    caller supplies none and the vendor value is not [undefined]. *)
Lemma vendor_header_sent c name typedArgs op :
  isReady srv = true ->
  not_acknowledged name typedArgs ->
  operationMap srv !! name = Some op ->
  In "x-access-token" (headerParams op) ->
  truthy (argument (default ∅ typedArgs) "x-access-token") = false ->
  is_undefined (fst (fst (vendor_token up (with_proxy typedArgs c)))) = false ->
  (forall cfg,
     In cfg (requests (snd (callTool srv up c name typedArgs))) ->
     headers cfg !! "x-access-token"
     = Some (fst (fst (vendor_token up (with_proxy typedArgs c)))))
  /\ amazonAccessToken (snd (fst (callTool srv up c name typedArgs)))
     = amazonAccessToken (snd (fst (vendor_token up (with_proxy typedArgs c))))
  /\ exists rest,
       snd (callTool srv up c name typedArgs)
       = snd (header_loop up op (default ∅ typedArgs) (headerParams op) ∅
                (with_proxy typedArgs c)) ++ rest
       /\ vendor_fetches rest = 0.
Proof.
  intros Hready Hack Hop Hin Harg Hdef.
  rewrite (callTool_dispatch srv up c name typedArgs op Hready Hack Hop).
  set (args := default ∅ typedArgs) in *.
  set (c0 := with_proxy typedArgs c) in *.
  split; [|split].
  - intros cfg Hcfg.
    apply dispatch_requests in Hcfg as (_ & hd & b & c2 & tr2 & Hauth & ->).
    fold args in Hauth. simpl.
    pose proof (resolve_auth_frame srv up op args
                  (fst (fst (fst (header_loop up op args (headerParams op) ∅ c0))))
                  (snd (fst (header_loop up op args (headerParams op) ∅ c0))))
      as [_ Hkeys].
    rewrite Hauth in Hkeys.
    rewrite (Hkeys hd b "x-access-token" eq_refl) by discriminate.
    apply (header_loop_vendor_value up op args Harg); [reflexivity|exact Hdef|now left].
  - rewrite dispatch_vendor_session. fold args.
    rewrite (header_loop_vendor_session up op args Harg).
    assert (Hex : existsb (fun h' => String.eqb h' "x-access-token") (headerParams op) = true).
    { apply existsb_exists. exists "x-access-token". split; [exact Hin|reflexivity]. }
    now rewrite Hex.
  - apply dispatch_trace.
Qed.

End VendorHeader.

(* ===================================================================== *)
(** * Elicitation *)
(* ===================================================================== *)

Section Elicitation.

Variable srv : Server.
Variable up : Upstream.

Lemma required_absent_recorded (op : Operation) (args : gmap string value)
    (c : Client) (mi : MissingInput) :
  required_absent op args mi -> In mi (missingInputs up op args c).
Proof.
  intros H. unfold missingInputs. destruct H as [p Hin Habs Hplain|q Hin Hreq Habs Hplain
                                                |h Hin Hreq Hne Habs Hplain|Hbody Hnone].
  - apply in_or_app. left. rewrite build_url_missing.
    apply path_loop_missing; [exact Hin|now apply argument_absent].
  - apply in_or_app. right. apply in_or_app. left.
    apply query_loop_missing; [exact Hin|now apply argument_absent|exact Hreq].
  - apply in_or_app. right. apply in_or_app. right. apply in_or_app. left.
    apply header_loop_missing; [exact Hin|exact Hne|now apply argument_absent|exact Hreq].
  - apply in_or_app. right. apply in_or_app. right. apply in_or_app. right.
    unfold body_missing. rewrite Hbody, (get_absent args "body" Hnone eq_refl).
    now left.
Qed.

Lemma filteredMissing_names (ms : list MissingInput) :
  ~ In "api_token" (map ri_name (map required_input (filteredMissing ms))).
Proof.
  intros H. apply in_map_iff in H as (ri & Hname & H).
  apply in_map_iff in H as (mi & <- & H).
  apply List.filter_In in H as [_ H]. simpl in Hname. rewrite Hname in H. discriminate.
Qed.

Lemma resolve_and_execute_outcome name typedArgs op urlPath queryParams data headers c
    inputs :
  fst (fst (resolve_and_execute srv up name typedArgs op urlPath queryParams data
              headers c)) <> Returned (Requires inputs).
Proof.
  unfold resolve_and_execute.
  destruct (resolve_auth srv up op (default ∅ typedArgs) headers c) as [[r c2] tr2].
  destruct r as [e|[headers' useBasicAuth]]; [discriminate|].
  destruct (useBasicAuth && _); [discriminate|].
  destruct (api up _) as [reason|payload]; [discriminate|]. simpl.
  destruct (format_result_cases name payload) as [->|(_ & _ & ->)]; discriminate.
Qed.

(** An elicitation is the answer of CHECK_MISSING. *)
Lemma callTool_requires c name typedArgs inputs :
  fst (fst (callTool srv up c name typedArgs)) = Returned (Requires inputs) ->
  exists op,
    operationMap srv !! name = Some op
    /\ inputs = map required_input
                  (filteredMissing (missingInputs up op (default ∅ typedArgs)
                                      (with_proxy typedArgs c))).
Proof.
  assert (Hlookup : forall c0,
    fst (fst (lookup_and_dispatch srv up name typedArgs c0)) = Returned (Requires inputs) ->
    exists op,
      operationMap srv !! name = Some op
      /\ inputs = map required_input
                    (filteredMissing (missingInputs up op (default ∅ typedArgs) c0))).
  { intros c0. unfold lookup_and_dispatch.
    destruct (operationMap srv !! name) as [op|]; [|discriminate].
    rewrite dispatch_stages. cbv zeta.
    destruct (filteredMissing _) as [|mi fm] eqn:Hfm.
    - intros H. now apply resolve_and_execute_outcome in H.
    - intros H. injection H as H. subst inputs. exists op.
      split; [reflexivity|]. now rewrite Hfm. }
  unfold callTool, with_proxy.
  destruct (negb (isReady srv)); [discriminate|].
  destruct (requested_proxy typedArgs) as [id|]; [|apply Hlookup].
  destruct (String.eqb name "getProxyUsers"); [discriminate|apply Hlookup].
Qed.

End Elicitation.

(* ===================================================================== *)
(** * The header set and the vendor token, further *)
(* ===================================================================== *)

(** The header stage only sets declared header parameters. *)
Lemma header_loop_names (up : Upstream) (op : Operation) (args : gmap string value)
    (hs : list string) (acc : gmap string value) (c : Client) (k : string) :
  is_Some (fst (fst (fst (header_loop up op args hs acc c))) !! k) ->
  In k hs \/ is_Some (acc !! k).
Proof.
  revert acc c. induction hs as [|h hs IH]; intros acc c; [now right|].
  cbn [header_loop].
  assert (Hstep : forall val c1 tr,
            is_Some
              (fst (fst (fst
                 (let '(val, c1, tr) := (val, c1, tr) in
                  if negb (is_undefined val)
                  then let '(hd, ms, c2, tr') :=
                         header_loop up op args hs (<[h:=val]> acc) c1 in
                       (hd, ms, c2, tr ++ tr')
                  else let '(hd, ms, c2, tr') := header_loop up op args hs acc c1 in
                       (hd, (if required (defs_header (paramDefs op)) h
                             then [missing (defs_header (paramDefs op)) h "header"]
                             else []) ++ ms, c2, tr ++ tr')))) !! k) ->
            In k (h :: hs) \/ is_Some (acc !! k)).
  { intros val c1 tr. destruct (negb (is_undefined val)).
    - specialize (IH (<[h:=val]> acc) c1).
      destruct (header_loop up op args hs (<[h:=val]> acc) c1) as [[[hd ms] c2] tr'].
      cbn [fst] in *. intros H. destruct (IH H) as [Hin|Hacc]; [left; now right|].
      destruct (decide (h = k)) as [->|Hne]; [left; now left|].
      rewrite lookup_insert_ne in Hacc by exact Hne. now right.
    - specialize (IH acc c1).
      destruct (header_loop up op args hs acc c1) as [[[hd ms] c2] tr'].
      cbn [fst] in *. intros H. destruct (IH H) as [Hin|Hacc]; [left; now right|now right]. }
  destruct (String.eqb h "x-access-token" && negb (truthy (argument args h))).
  - destruct (vendor_token up c) as [[val c1] tr]. apply Hstep.
  - apply Hstep.
Qed.

(** A failed fetch on a session whose cached vendor value is
    [undefined]: the session stays as it is, the header is not set, and
    a required header is recorded as missing. *)
Lemma header_loop_vendor_undefined (up : Upstream) (op : Operation)
    (args : gmap string value) (hs : list string) (acc : gmap string value)
    (c : Client) (reason : string) :
  truthy (argument args "x-access-token") = false ->
  amazonAccessToken c = VUndefined ->
  access_token_endpoint up (marketplaceId c) = Failed reason ->
  snd (fst (header_loop up op args hs acc c)) = c
  /\ fst (fst (fst (header_loop up op args hs acc c))) !! "x-access-token"
     = acc !! "x-access-token"
  /\ (In "x-access-token" hs ->
      required (defs_header (paramDefs op)) "x-access-token" = true ->
      In (missing (defs_header (paramDefs op)) "x-access-token" "header")
         (snd (fst (fst (header_loop up op args hs acc c))))).
Proof.
  intros Harg Hcached Hreply.
  assert (Hvendor : vendor_token up c = (VUndefined, c, [AccessToken (marketplaceId c)])).
  { rewrite (vendor_token_failed up c reason); [now rewrite Hcached| |exact Hreply].
    now rewrite Hcached. }
  revert acc. induction hs as [|h hs IH]; intros acc.
  { simpl. split; [reflexivity|]. split; [reflexivity|]. intros []. }
  cbn [header_loop].
  destruct (String.eqb_spec h "x-access-token") as [->|Hne].
  - rewrite Harg. cbn [negb andb]. rewrite Hvendor. cbn [is_undefined negb].
    destruct (IH acc) as (Hc & Hacc & Hmissing).
    destruct (header_loop up op args hs acc c) as [[[hd ms] c2] tr'].
    cbn [fst snd] in *. split; [exact Hc|]. split; [exact Hacc|].
    intros _ Hrequired. rewrite Hrequired. now left.
  - cbn [andb]. destruct (is_undefined (argument args h)) eqn:Hh; cbn [negb].
    + destruct (IH acc) as (Hc & Hacc & Hmissing).
      destruct (header_loop up op args hs acc c) as [[[hd ms] c2] tr'].
      cbn [fst snd] in *. split; [exact Hc|]. split; [exact Hacc|].
      intros [Heq|Hin] Hrequired; [congruence|].
      apply in_or_app. right. now apply Hmissing.
    + destruct (IH (<[h := argument args h]> acc)) as (Hc & Hacc & Hmissing).
      destruct (header_loop up op args hs (<[h := argument args h]> acc) c)
        as [[[hd ms] c2] tr'].
      cbn [fst snd] in *. split; [exact Hc|].
      split; [now rewrite Hacc, lookup_insert_ne|].
      intros [Heq|Hin] Hrequired; [congruence|]. now apply Hmissing.
Qed.

(* ===================================================================== *)
(** * Delegated user *)
(* ===================================================================== *)

(** C8 (as amended): on a ready server, a call of [getProxyUsers] whose
    [proxy_user_id] argument is a string that is not empty after trimming
    sets the delegated user of the session to the trimmed value, returns
    the confirmation for that value and issues no HTTP exchange,
    whatever the operation table holds. *)
Theorem proxy_selection_acknowledged
    (srv : Server) (up : Upstream) (c : Client)
    (args : gmap string value) (s : string) :
  isReady srv = true ->
  args !! "proxy_user_id" = Some (VString s) ->
  trim s <> "" ->
  callTool srv up c "getProxyUsers" (Some args)
  = (Returned (ProxyUserSet (trim s)), setProxyUserId (Some (trim s)) c, []).
Proof.
  intros Hready Hs Hne. unfold callTool.
  rewrite Hready, (requested_proxy_string args s Hs Hne). reflexivity.
Qed.

Lemma proxy_selection_acknowledged_witness :
  callTool (loaded account_document) upstream_without_vendor fresh_client
    "getProxyUsers" (Some {[ "proxy_user_id" := VString " 42 " ]})
  = (Returned (ProxyUserSet "42"), setProxyUserId (Some "42") fresh_client, []).
Proof.
  apply (proxy_selection_acknowledged (loaded account_document)
           upstream_without_vendor fresh_client
           {[ "proxy_user_id" := VString " 42 " ]} " 42 ").
  - reflexivity.
  - reflexivity.
  - vm_compute. discriminate.
Defined.

(** C8 (as stated) fails: a [proxy_user_id] that is a non-empty string of
    blanks is not taken as a selection; the delegated user stays unset
    and the listing request goes out. *)
Lemma blank_proxy_user_id_is_dispatched :
  callTool (loaded account_document) upstream_without_vendor fresh_client
    "getProxyUsers" (Some {[ "proxy_user_id" := VString "   " ]})
  = (Returned (Content (JObject [])), fresh_client,
     [Request {| cfg_method := GET; url := "/account/"; params := None;
                 data := VUndefined; headers := ∅; auth := None |}]).
Proof. vm_compute. reflexivity. Qed.

(** C10 (as amended): on a ready server, whatever tool is named, a
    [proxy_user_id] argument that is a string not empty after trimming
    leaves the delegated user of the session set to the trimmed value
    when the handler is done, whether it returned or failed; when the
    name is not in the operation table the call fails (the promise of
    the handler is rejected, no exchange is made) and the session keeps
    the new delegated user. *)
Theorem proxy_user_set_before_lookup
    (srv : Server) (up : Upstream) (c : Client) (name : string)
    (args : gmap string value) (s : string) :
  isReady srv = true ->
  args !! "proxy_user_id" = Some (VString s) ->
  trim s <> "" ->
  proxyUserId (config (snd (fst (callTool srv up c name (Some args))))) = Some (trim s)
  /\ (operationMap srv !! name = None -> name <> "getProxyUsers" ->
      callTool srv up c name (Some args)
      = (Rejected undefined_method_TypeError, setProxyUserId (Some (trim s)) c, [])).
Proof.
  intros Hready Hs Hne. unfold callTool.
  rewrite Hready, (requested_proxy_string args s Hs Hne). simpl negb. cbv iota.
  split.
  - destruct (String.eqb name "getProxyUsers"); [reflexivity|].
    now rewrite lookup_and_dispatch_config.
  - intros Hnone Hname. rewrite (String_eqb_false _ _ Hname).
    now apply lookup_and_dispatch_unknown.
Qed.

Lemma proxy_user_set_before_lookup_witness :
  proxyUserId (config (snd (fst
    (callTool (loaded account_document) upstream_without_vendor fresh_client
       "listWidgets" (Some {[ "proxy_user_id" := VString " 42 " ]})))))
  = Some "42"
  /\ callTool (loaded account_document) upstream_without_vendor fresh_client
       "listWidgets" (Some {[ "proxy_user_id" := VString " 42 " ]})
     = (Rejected undefined_method_TypeError, setProxyUserId (Some "42") fresh_client, []).
Proof.
  destruct (proxy_user_set_before_lookup (loaded account_document)
              upstream_without_vendor fresh_client "listWidgets"
              {[ "proxy_user_id" := VString " 42 " ]} " 42 ") as [H1 H2].
  - reflexivity.
  - reflexivity.
  - vm_compute. discriminate.
  - split; [exact H1|].
    apply H2; [reflexivity|vm_compute; discriminate].
Defined.

(** C10 (as stated) fails: while the server is not ready the handler
    answers before it looks at the arguments, and the delegated user of
    the session is left as it was. *)
Lemma proxy_user_ignored_until_ready :
  callTool new_server upstream_without_vendor fresh_client "listWidgets"
    (Some {[ "proxy_user_id" := VString "42" ]})
  = (Returned NotReady, fresh_client, [])
  /\ proxyUserId (config fresh_client) = None.
Proof. split; reflexivity. Qed.

(* ===================================================================== *)
(** * Unknown tools *)
(* ===================================================================== *)

(** C5 (the code at a failing input): on a ready server, calling a name
    that the operation table does not hold makes the [catch] block read
    [op.method] of [undefined]: the promise of the handler is rejected with
    that [TypeError] instead of returning an error-flagged result that
    names the tool. *)
Theorem unknown_tool_rejects_the_handler (up : Upstream) (c : Client) :
  callTool (loaded account_document) up c "listWidgets" (Some ∅)
  = (Rejected undefined_method_TypeError, c, []).
Proof. reflexivity. Qed.

(* ===================================================================== *)
(** * Placeholders *)
(* ===================================================================== *)

(** C1 (the code at a failing input): the missing path parameter
    [api_token] of [GET /keys/{api_token}] is dropped from the missing
    inputs, and the request goes out with the placeholder in its URL. *)
Theorem placeholder_api_token_is_sent (up : Upstream) (c : Client) :
  map url (requests (snd (callTool (loaded keys_document) up c "getKey" (Some ∅))))
  = ["/keys/{api_token}"].
Proof.
  destruct up as [token access send]. vm_compute.
  now destruct (send _).
Qed.

(* ===================================================================== *)
(** * Readiness *)
(* ===================================================================== *)

(** C9 (the code at failing inputs): a filesystem path is no URL for the
    loader, which then neither fetches nor touches the server, so the
    server stays not ready; and a URL that answers the JSON value
    [null] empties the tables without setting the flag. *)
Theorem filesystem_source_is_never_ready (fetch : string -> Fetched) :
  loadOpenApiAndGenerateTools (Some "./docs/api/bundled.json") fetch new_server
  = (new_server, [])
  /\ isReady (fst (loadOpenApiAndGenerateTools
                     (Some "https://unity.scanpower.com/docs/api/spec.json")
                     (fun _ => Parsed None) new_server)) = false.
Proof. split; reflexivity. Qed.

(* ===================================================================== *)
(** * Trailing slash *)
(* ===================================================================== *)

(** C6: for an operation of the table compiled from a document whose
    stored path ends with a slash, or which is [getProxyUsers] on
    [/account], the recorded flag is set, the path built from any
    arguments ends with a slash, and so does the URL of every request
    the handler sends for it; a dispatched call with no input missing,
    for an operation without security requirement, sends such a
    request. *)
Theorem trailing_slash_preserved
    (srv0 : Server) (doc : OpenApi) (up : Upstream) (c : Client)
    (name : string) (typedArgs : option (gmap string value)) (op : Operation) :
  openApi srv0 = Some doc ->
  operationMap (generateFromCurrentOpenApi srv0) !! name = Some op ->
  endsWithSlash (path op) = true \/ (path op = "/account" /\ name = "getProxyUsers") ->
  pathHasTrailingSlash op = true
  /\ endsWithSlash (fst (build_url op (default ∅ typedArgs))) = true
  /\ (forall cfg,
        In cfg (requests (snd (callTool (generateFromCurrentOpenApi srv0) up c name
                                 typedArgs))) ->
        endsWithSlash (url cfg) = true)
  /\ (not_acknowledged name typedArgs ->
      filteredMissing (missingInputs up op (default ∅ typedArgs)
                         (with_proxy typedArgs c)) = [] ->
      security op = [] ->
      exists cfg,
        requests (snd (callTool (generateFromCurrentOpenApi srv0) up c name typedArgs))
        = [cfg]
        /\ endsWithSlash (url cfg) = true).
Proof.
  intros Hdoc Hop Hpath.
  assert (Hflag : pathHasTrailingSlash op = true).
  { rewrite (compiled_flag srv0 doc name op Hdoc Hop).
    destruct Hpath as [Hslash|[-> ->]];
      [now apply flag_of_trailing_slash|apply flag_of_proxy_listing]. }
  split; [exact Hflag|].
  split; [now apply build_url_trailing_slash|].
  split.
  - intros cfg Hin.
    destruct (callTool_cases (generateFromCurrentOpenApi srv0) up c name typedArgs)
      as [Hnil|(_ & _ & op' & Hop' & Hcall)].
    + rewrite Hnil in Hin. destruct Hin.
    + rewrite Hop in Hop'. injection Hop' as <-.
      rewrite Hcall in Hin.
      apply dispatch_requests in Hin as (_ & hd & b & c2 & tr2 & _ & ->).
      simpl. now apply build_url_trailing_slash.
  - intros Hack Hmissing Hopen.
    destruct (callTool_open_sends (generateFromCurrentOpenApi srv0) up c name typedArgs op
                (generated_is_ready srv0 doc Hdoc) Hack Hop Hmissing Hopen)
      as (cfg & Hone & Hurl).
    exists cfg. split; [exact Hone|].
    rewrite Hurl. now apply build_url_trailing_slash.
Qed.

Lemma trailing_slash_preserved_witness :
  pathHasTrailingSlash (operation_of items_document "getItem") = true
  /\ map url (requests (snd (callTool (loaded items_document) upstream_without_vendor
                               fresh_client "getItem"
                               (Some {[ "id" := VString "abc 123" ]}))))
     = ["/items/abc%20123/"]
  /\ (forall cfg,
        In cfg (requests (snd (callTool (loaded items_document) upstream_without_vendor
                                 fresh_client "getItem"
                                 (Some {[ "id" := VString "abc 123" ]})))) ->
        endsWithSlash (url cfg) = true)
  /\ path (operation_of account_document "getProxyUsers") = "/account"
  /\ exists cfg,
       requests (snd (callTool (loaded account_document) upstream_without_vendor
                        fresh_client "getProxyUsers" None)) = [cfg]
       /\ endsWithSlash (url cfg) = true.
Proof.
  destruct (trailing_slash_preserved (set_openApi (Some items_document) new_server)
              items_document upstream_without_vendor fresh_client "getItem"
              (Some {[ "id" := VString "abc 123" ]})
              (operation_of items_document "getItem"))
    as (Hflag & _ & Hall & _).
  { reflexivity. }
  { reflexivity. }
  { left. reflexivity. }
  destruct (trailing_slash_preserved (set_openApi (Some account_document) new_server)
              account_document upstream_without_vendor fresh_client "getProxyUsers"
              None (operation_of account_document "getProxyUsers"))
    as (_ & _ & _ & Hsent).
  { reflexivity. }
  { reflexivity. }
  { right. split; reflexivity. }
  split; [exact Hflag|]. split; [reflexivity|]. split; [exact Hall|].
  split; [reflexivity|].
  apply Hsent; [left; reflexivity|reflexivity|reflexivity].
Defined.

(* ===================================================================== *)
(** * HTTP Basic *)
(* ===================================================================== *)

(** C4 (as amended): when the first security requirement of the
    operation names a scheme that the registry declares and that is HTTP
    basic or has basic in its name, no authentication exchange is made,
    and every request the handler sends carries the static credentials
    for HTTP Basic and no header of the dispatcher's making, whatever
    [api_token] the caller gives: its headers are values of declared
    header parameters, none under the name [Authorization], so that no
    header named [Authorization] in any letter case is handed to the
    HTTP client unless the operation declares one in another spelling;
    when no input is missing and the credentials are configured, that
    request is sent. *)
Theorem basic_never_carries_bearer
    (srv : Server) (up : Upstream) (c : Client) (name : string)
    (typedArgs : option (gmap string value)) (op : Operation)
    (requirement : SecurityRequirement) (rest : list SecurityRequirement) :
  operationMap srv !! name = Some op ->
  security op = requirement :: rest ->
  registered_basic srv requirement ->
  exchanges (snd (callTool srv up c name typedArgs)) = 0
  /\ (forall cfg,
        In cfg (requests (snd (callTool srv up c name typedArgs))) ->
        headers cfg !! "Authorization" = None
        /\ auth cfg = Some (username (config c), password (config c))
        /\ (forall k, is_Some (headers cfg !! k) ->
                      In k (headerParams op) /\ k <> "Authorization")
        /\ (one_spelling op ->
            forall k, toLowerCase k = "authorization" -> headers cfg !! k = None))
  /\ (isReady srv = true -> not_acknowledged name typedArgs ->
      filteredMissing (missingInputs up op (default ∅ typedArgs)
                         (with_proxy typedArgs c)) = [] ->
      has_credentials c = true ->
      exists cfg, requests (snd (callTool srv up c name typedArgs)) = [cfg]).
Proof.
  intros Hop Hsec Hbasic.
  apply registered_basic_uses_basic in Hbasic.
  set (args := default ∅ typedArgs).
  set (c0 := with_proxy typedArgs c).
  set (built := header_loop up op args (headerParams op) ∅ c0).
  pose proof (header_loop_spec up op args (headerParams op) ∅ c0) as [Hsame Hvendor].
  fold built in Hsame, Hvendor.
  pose proof (resolve_auth_basic srv up op args (fst (fst (fst built))) (snd (fst built))
                requirement rest Hsec Hbasic) as Hauth.
  pose proof (with_proxy_credentials typedArgs c) as (Huser & Hpass & _).
  fold c0 in Huser, Hpass.
  destruct Hsame as (Hconfig & _ & _).
  assert (Hcall : isReady srv = true -> not_acknowledged name typedArgs ->
                  callTool srv up c name typedArgs = dispatch srv up name typedArgs op c0).
  { intros Hready Hack. now apply callTool_dispatch. }
  split; [|split].
  - destruct (callTool_cases srv up c name typedArgs)
      as [->|(Hready & Hack & _)]; [reflexivity|].
    rewrite (Hcall Hready Hack), dispatch_stages. cbv zeta. fold args built.
    destruct (filteredMissing _); simpl snd;
      [|now apply vendor_only_exchanges].
    rewrite exchanges_app, (vendor_only_exchanges _ Hvendor). simpl.
    destruct (has_credentials (snd (fst built))) eqn:Hcreds.
    + destruct (resolve_and_execute_sends srv up name typedArgs op
                  (fst (build_url op args)) (fst (query_loop op args (queryParams op) ∅))
                  (get args "body") _ _ _ _ _ _ Hauth) as (-> & _); [now rewrite Hcreds|].
      reflexivity.
    + now rewrite (resolve_and_execute_no_credentials srv up name typedArgs op
                     _ _ _ _ _ _ _ _ Hauth Hcreds).
  - intros cfg Hin.
    destruct (callTool_cases srv up c name typedArgs)
      as [Hnil|(Hready & Hack & _)]; [rewrite Hnil in Hin; destruct Hin|].
    rewrite (Hcall Hready Hack) in Hin.
    apply dispatch_requests in Hin as (_ & hd & b & c2 & tr2 & Hauth' & ->).
    fold args c0 built in Hauth'. rewrite Hauth in Hauth'.
    injection Hauth' as <- <- <- <-. simpl.
    assert (Hdeclared : forall k,
              is_Some (delete "Authorization" (fst (fst (fst built))) !! k) ->
              In k (headerParams op) /\ k <> "Authorization").
    { intros k Hsome. destruct (decide (k = "Authorization")) as [->|Hk].
      - rewrite lookup_delete_eq in Hsome. now destruct Hsome.
      - rewrite lookup_delete_ne in Hsome by congruence.
        split; [|exact Hk]. unfold built in Hsome.
        apply header_loop_names in Hsome as [Hin|Hempty]; [exact Hin|].
        rewrite lookup_empty in Hempty. now destruct Hempty. }
    split; [apply lookup_delete_eq|].
    split; [rewrite Hconfig; now rewrite Huser, Hpass|].
    split; [exact Hdeclared|].
    intros Hspelling k Hk.
    destruct (delete "Authorization" (fst (fst (fst built))) !! k) as [v|] eqn:Hv;
      [|reflexivity].
    destruct (Hdeclared k) as [Hin Hne]; [now rewrite Hv|].
    now destruct (Hne (Hspelling k Hin Hk)).
  - intros Hready Hack Hmissing Hcreds.
    rewrite (Hcall Hready Hack), dispatch_stages. cbv zeta. fold args c0 built.
    rewrite Hmissing. simpl snd.
    assert (Hcreds' : has_credentials (snd (fst built)) = true).
    { unfold has_credentials in *. rewrite Hconfig. now rewrite Huser, Hpass. }
    destruct (resolve_and_execute_sends srv up name typedArgs op
                (fst (build_url op args)) (fst (query_loop op args (queryParams op) ∅))
                (get args "body") _ _ _ _ _ _ Hauth) as (-> & _); [now rewrite Hcreds'|].
    rewrite requests_app, (vendor_only_requests _ Hvendor). simpl. eauto.
Qed.

Lemma basic_never_carries_bearer_witness :
  exchanges (snd (callTool (loaded token_document) upstream_without_vendor fresh_client
                    "getToken" (Some {[ "api_token" := VString "tok" ]}))) = 0
  /\ map (fun cfg => (headers cfg !! "Authorization", auth cfg))
       (requests (snd (callTool (loaded token_document) upstream_without_vendor
                         fresh_client "getToken"
                         (Some {[ "api_token" := VString "tok" ]}))))
     = [(None, Some ("seller", "secret"))]
  /\ forall cfg,
       In cfg (requests (snd (callTool (loaded token_document) upstream_without_vendor
                                fresh_client "getToken"
                                (Some {[ "api_token" := VString "tok" ]})))) ->
       auth cfg = Some ("seller", "secret")
       /\ headers cfg !! "authorization" = None
       /\ headers cfg !! "AUTHORIZATION" = None.
Proof.
  destruct (basic_never_carries_bearer (loaded token_document) upstream_without_vendor
              fresh_client "getToken" (Some {[ "api_token" := VString "tok" ]})
              (operation_of token_document "getToken")
              [("basic_auth", []); ("bearerAuth", [])] [])
    as (Hnone & Hall & _).
  - reflexivity.
  - reflexivity.
  - exists "basic_auth", basic_scheme. split; [now left|]. split; [reflexivity|].
    left. reflexivity.
  - split; [exact Hnone|]. split; [reflexivity|].
    intros cfg Hcfg. destruct (Hall cfg Hcfg) as (_ & Hauth & _ & Hcase).
    split; [exact Hauth|].
    assert (Hspelling : one_spelling (operation_of token_document "getToken"))
      by (intros h []).
    split; apply (Hcase Hspelling); reflexivity.
Defined.

(** A header parameter that the operation declares as [authorization]
    is not the [Authorization] that the basic branch removes: the
    caller's value for it stays in the request handed to the HTTP
    client, next to the static credentials. *)
Example authorization_in_other_case_is_kept :
  map (fun cfg => (headers cfg !! "authorization", auth cfg))
    (requests (snd (callTool (loaded ledger_document) upstream_without_vendor
                      fresh_client "getLedger"
                      (Some {[ "authorization" := VString "Bearer tok" ]}))))
  = [(Some (VString "Bearer tok"), Some ("seller", "secret"))].
Proof. reflexivity. Qed.

(** C4 (as stated) fails: the first requirement names [basic_auth], a
    scheme with basic in its name that the registry does not declare,
    next to the declared bearer scheme; the dispatcher skips the
    undeclared name and sends the request with [Authorization: Bearer]. *)
Lemma undeclared_basic_scheme_carries_bearer :
  mentions_basic (loaded dangling_document) [("basic_auth", []); ("bearerAuth", [])]
  /\ map (fun cfg => (headers cfg !! "Authorization", auth cfg))
       (requests (snd (callTool (loaded dangling_document) upstream_without_vendor
                         fresh_client "getToken"
                         (Some {[ "api_token" := VString "tok" ]}))))
     = [(Some (VString "Bearer tok"), None)].
Proof.
  split; [|reflexivity].
  exists "basic_auth". split; [now left|]. left. reflexivity.
Qed.

(* ===================================================================== *)
(** * Bearer tokens *)
(* ===================================================================== *)

(** C3: for a call that reaches RESOLVE_AUTH on an operation whose first
    security requirement resolves to an HTTP bearer scheme, the request
    carries [Authorization: Bearer] with the [api_token] argument when
    the caller gives one, else with the cached session token, both
    without any authentication exchange; with neither, exactly one
    exchange is made, just before the request, which then carries the
    minted token, now cached; when that exchange yields no token the
    call ends with the missing-bearer-token error and sends no request
    (when the exchange itself fails, with the authentication error); and
    a later call on the session left by this one, with a cached token
    and no argument, makes no exchange. *)
Theorem bearer_token_priority
    (srv : Server) (up : Upstream) (c : Client) (name : string)
    (typedArgs : option (gmap string value)) (op : Operation) :
  bearer_call srv up c name typedArgs op ->
  let arg := get (default ∅ typedArgs) "api_token" in
  let out := fst (fst (callTool srv up c name typedArgs)) in
  let c' := snd (fst (callTool srv up c name typedArgs)) in
  let tr := snd (callTool srv up c name typedArgs) in
  (truthy arg = true ->
   sends_with_bearer tr arg 0 /\ exchanges tr = 0 /\ apiToken c' = apiToken c)
  /\ (truthy arg = false -> truthy (apiToken c) = true ->
      sends_with_bearer tr (apiToken c) 0 /\ exchanges tr = 0
      /\ apiToken c' = apiToken c)
  /\ (truthy arg = false -> truthy (apiToken c) = false ->
      exchanges tr = 1
      /\ match token_endpoint up (proxy_header (with_proxy typedArgs c)) with
         | Replied token =>
             apiToken c' = token
             /\ (if truthy token then sends_with_bearer tr token 1
                 else requests tr = []
                      /\ fails_with out "Missing bearer token (api_token)")
         | Failed reason =>
             apiToken c' = apiToken c
             /\ requests tr = []
             /\ fails_with out ("Authentication failed: " +:+ reason)
         end)
  /\ (forall up2 name2 typedArgs2 op2,
        bearer_call srv up2 c' name2 typedArgs2 op2 ->
        truthy (get (default ∅ typedArgs2) "api_token") = false ->
        truthy (apiToken c') = true ->
        exchanges (snd (callTool srv up2 c' name2 typedArgs2)) = 0
        /\ sends_with_bearer (snd (callTool srv up2 c' name2 typedArgs2)) (apiToken c') 0).
Proof.
  intros Hcall. cbv zeta.
  destruct (bearer_resolution srv up c name typedArgs op Hcall) as [Hhand Hnone].
  cbv zeta in Hhand, Hnone.
  split; [|split; [|split]].
  - intros Harg. rewrite (or_else_truthy _ (apiToken c) Harg) in Hhand.
    destruct (Hhand Harg) as [Hsends Hkept].
    repeat split; [exact Hsends| |exact Hkept].
    now apply sends_with_bearer_exchanges in Hsends.
  - intros Harg Hcached. rewrite (or_else_fallback _ (apiToken c) Harg) in Hhand.
    destruct (Hhand Hcached) as [Hsends Hkept].
    repeat split; [exact Hsends| |exact Hkept].
    now apply sends_with_bearer_exchanges in Hsends.
  - intros Harg Hcached. rewrite (or_else_fallback _ (apiToken c) Harg) in Hnone.
    now apply Hnone.
  - intros up2 name2 typedArgs2 op2 Hcall2 Harg2 Hcached2.
    destruct (bearer_resolution srv up2 _ name2 typedArgs2 op2 Hcall2) as [Hhand2 _].
    cbv zeta in Hhand2. rewrite (or_else_fallback _ _ Harg2) in Hhand2.
    destruct (Hhand2 Hcached2) as [Hsends _].
    split; [|exact Hsends].
    now apply sends_with_bearer_exchanges in Hsends.
Qed.

Lemma bearer_token_priority_witness :
  exchanges (snd (callTool (loaded items_document) upstream_without_vendor fresh_client
                    "getItem" (Some {[ "id" := VString "abc 123" ]}))) = 1
  /\ apiToken (snd (fst (callTool (loaded items_document) upstream_without_vendor
                           fresh_client "getItem"
                           (Some {[ "id" := VString "abc 123" ]})))) = VString "t1"
  /\ sends_with_bearer
       (snd (callTool (loaded items_document) upstream_without_vendor fresh_client
               "getItem" (Some {[ "id" := VString "abc 123" ]})))
       (VString "t1") 1
  /\ exchanges
       (snd (callTool (loaded items_document) upstream_without_vendor
               (snd (fst (callTool (loaded items_document) upstream_without_vendor
                            fresh_client "getItem"
                            (Some {[ "id" := VString "abc 123" ]}))))
               "getItem" (Some {[ "id" := VString "xyz" ]}))) = 0.
Proof.
  assert (Hop : forall (c : Client) (typedArgs : option (gmap string value)),
    filteredMissing
      (missingInputs upstream_without_vendor
         (operation_of items_document "getItem")
         (default ∅ typedArgs) (with_proxy typedArgs c)) = [] ->
    bearer_call (loaded items_document) upstream_without_vendor c "getItem" typedArgs
      (operation_of items_document "getItem")).
  { intros c typedArgs Hcomplete. split.
    - reflexivity.
    - right. discriminate.
    - reflexivity.
    - exact Hcomplete.
    - exists [("bearerAuth", [])], []. repeat split; reflexivity. }
  destruct (bearer_token_priority (loaded items_document) upstream_without_vendor
              fresh_client "getItem" (Some {[ "id" := VString "abc 123" ]})
              (operation_of items_document "getItem"))
    as (_ & _ & Hmint & Hnext).
  { apply Hop. vm_compute. reflexivity. }
  assert (Hfirst := Hmint ltac:(vm_compute; reflexivity) ltac:(reflexivity)).
  cbn in Hfirst. destruct Hfirst as (Hone & Hcached & Hsends).
  split; [exact Hone|]. split; [exact Hcached|]. split; [exact Hsends|].
  apply (Hnext upstream_without_vendor "getItem" (Some {[ "id" := VString "xyz" ]})
           (operation_of items_document "getItem")).
  - apply Hop. vm_compute. reflexivity.
  - reflexivity.
  - reflexivity.
Defined.

(* ===================================================================== *)
(** * Vendor access token *)
(* ===================================================================== *)

(** C7 (the code at a failing input): the vendor endpoint first answers
    without [access_token], which leaves [undefined] as the cached
    value in place of the initial [null]; in the next call the fetch
    fails, the header is left out, and the failure is reported as a
    missing input: the handler elicits [x_access_token], which the
    operation marks required, and sends nothing, where a session whose
    cached value is still [null] sends the request. *)
Theorem failed_vendor_fetch_is_elicited :
  amazonAccessToken
    (snd (fst (callTool (loaded catalog_document) upstream_tokenless fresh_client
                 "searchCatalog" None)))
  = VUndefined
  /\ access_token_endpoint upstream_without_vendor "ATVPDKIKX0DER"
     = Failed "Error: Request failed with status code 500"
  /\ callTool (loaded catalog_document) upstream_without_vendor
       (snd (fst (callTool (loaded catalog_document) upstream_tokenless fresh_client
                    "searchCatalog" None)))
       "searchCatalog" None
     = (Returned (Requires [ {| ri_name := "x_access_token"; ri_description := None;
                                ri_schema := None |} ]),
        tokenless_client,
        [AccessToken "ATVPDKIKX0DER"])
  /\ requests (snd (callTool (loaded catalog_document) upstream_without_vendor
                      fresh_client "searchCatalog" None))
     = [ {| cfg_method := GET; url := "/catalog"; params := None; data := VUndefined;
            headers := {[ "x-access-token" := VNull ]}; auth := None |} ].
Proof. repeat split; reflexivity. Qed.

(* ===================================================================== *)
(** * Missing inputs *)
(* ===================================================================== *)

(** C2 (as amended): on a ready server, for a call dispatched to an
    operation (not the acknowledgement of a delegated-user selection),
    every required input that the call leaves out (a declared path
    parameter, a query parameter or a header parameter other than
    [x-access-token] whose definition is marked required, or the body of
    an operation that requires one), when neither its name nor its
    sanitized name is a property inherited from [Object.prototype] and
    its sanitized name is not [api_token], makes the handler return the
    non-error elicitation response, which lists that input with its
    sanitized name, description and schema, after no request of the
    operation and no authentication exchange; and no elicitation
    response ever lists [api_token]. *)
Theorem missing_inputs_are_elicited
    (srv : Server) (up : Upstream) (c : Client) (name : string)
    (typedArgs : option (gmap string value)) :
  (forall op mi,
     isReady srv = true ->
     not_acknowledged name typedArgs ->
     operationMap srv !! name = Some op ->
     required_absent op (default ∅ typedArgs) mi ->
     mi_name mi <> "api_token" ->
     exists inputs,
       fst (fst (callTool srv up c name typedArgs)) = Returned (Requires inputs)
       /\ isError (Requires inputs) = false
       /\ In (required_input mi) inputs
       /\ requests (snd (callTool srv up c name typedArgs)) = []
       /\ exchanges (snd (callTool srv up c name typedArgs)) = 0)
  /\ (forall inputs,
        fst (fst (callTool srv up c name typedArgs)) = Returned (Requires inputs) ->
        ~ In "api_token" (map ri_name inputs)).
Proof.
  split.
  - intros op mi Hready Hack Hop Habsent Hname.
    set (args := default ∅ typedArgs) in *.
    set (c0 := with_proxy typedArgs c).
    assert (Hin : In mi (filteredMissing (missingInputs up op args c0))).
    { apply List.filter_In. split; [now apply required_absent_recorded|].
      now rewrite String_eqb_false. }
    rewrite (callTool_dispatch srv up c name typedArgs op Hready Hack Hop).
    fold c0. rewrite dispatch_stages. cbv zeta. fold args.
    pose proof (header_loop_spec up op args (headerParams op) ∅ c0) as [_ Hvendor].
    destruct (filteredMissing (missingInputs up op args c0)) as [|mi' fm];
      [destruct Hin|].
    exists (map required_input (mi' :: fm)). simpl fst. simpl snd.
    repeat split.
    + now apply in_map.
    + now apply vendor_only_requests.
    + now apply vendor_only_exchanges.
  - intros inputs H. apply callTool_requires in H as (op & _ & ->).
    apply filteredMissing_names.
Qed.

Lemma missing_inputs_are_elicited_witness :
  fst (fst (callTool (loaded stock_document) upstream_without_vendor fresh_client
              "getStock" (Some {[ "warehouse" := VString "W1" ]})))
  = Returned (Requires [ {| ri_name := "sku_id";
                            ri_description := Some "Stock keeping unit";
                            ri_schema := Some (Fragment "string") |} ])
  /\ exists inputs,
       fst (fst (callTool (loaded stock_document) upstream_without_vendor fresh_client
                   "getStock" (Some {[ "warehouse" := VString "W1" ]})))
       = Returned (Requires inputs)
       /\ isError (Requires inputs) = false
       /\ In {| ri_name := "sku_id";
                ri_description := Some "Stock keeping unit";
                ri_schema := Some (Fragment "string") |} inputs
       /\ requests (snd (callTool (loaded stock_document) upstream_without_vendor
                           fresh_client "getStock"
                           (Some {[ "warehouse" := VString "W1" ]}))) = []
       /\ exchanges (snd (callTool (loaded stock_document) upstream_without_vendor
                            fresh_client "getStock"
                            (Some {[ "warehouse" := VString "W1" ]}))) = 0.
Proof.
  split; [reflexivity|].
  destruct (missing_inputs_are_elicited (loaded stock_document) upstream_without_vendor
              fresh_client "getStock" (Some {[ "warehouse" := VString "W1" ]}))
    as [Helicit _].
  apply (Helicit (operation_of stock_document "getStock")
           (missing (defs_query (paramDefs (operation_of stock_document "getStock")))
              "sku.id" "query")).
  - reflexivity.
  - left. reflexivity.
  - reflexivity.
  - apply absent_query.
    + left. reflexivity.
    + reflexivity.
    + split; reflexivity.
    + split; reflexivity.
  - vm_compute. discriminate.
Defined.

(** C2 (as stated) fails: the header parameter [x-access-token] is
    marked required and the call gives no value for it, yet the handler
    does not elicit it: it asks the upstream for a vendor token and, the
    fetch failing, sends the request of the operation all the same. *)
Lemma required_vendor_header_is_not_elicited :
  required (defs_header (paramDefs (operation_of catalog_document "searchCatalog")))
    "x-access-token" = true
  /\ absent (∅ : gmap string value) "x-access-token"
  /\ callTool (loaded catalog_document) upstream_without_vendor fresh_client
       "searchCatalog" (Some ∅)
     = (Returned (Content (JObject [])), fresh_client,
        [AccessToken "ATVPDKIKX0DER";
         Request {| cfg_method := GET; url := "/catalog"; params := None;
                    data := VUndefined;
                    headers := {[ "x-access-token" := VNull ]};
                    auth := None |}]).
Proof. repeat split; reflexivity. Qed.

(* ===================================================================== *)
(** * Names, identifiers and URL text *)
(* ===================================================================== *)

Section Text.

Lemma all_chars_app (P : ascii -> bool) (s t : string) :
  all_chars P (s +:+ t) = all_chars P s && all_chars P t.
Proof.
  induction s as [|c s IH]; [reflexivity|].
  change (String c s +:+ t) with (String c (s +:+ t)). simpl.
  now rewrite IH, andb_assoc.
Qed.

Lemma all_chars_excludes (P : ascii -> bool) (d : ascii) (s : string) :
  P d = false -> all_chars P s = true -> includes (String d "") s = false.
Proof.
  intros Hd. induction s as [|c s IH]; intros Hs; [reflexivity|].
  simpl in Hs. apply andb_true_iff in Hs as [Hc Hs].
  rewrite includes_cons. cbn [String.prefix].
  destruct (ascii_dec d c) as [->|_]; [congruence|].
  now apply IH.
Qed.

Lemma encoded_char_class (c : ascii) :
  all_chars (fun a => unreserved a || Ascii.eqb a "%")
    (if unreserved c then String c "" else percent c) = true.
Proof. destruct c as [[] [] [] [] [] [] [] []]; reflexivity. Qed.

Lemma encodeURIComponent_step (c : ascii) (s : string) :
  encodeURIComponent (String c s)
  = (if unreserved c then String c "" else percent c) +:+ encodeURIComponent s.
Proof. simpl. now destruct (unreserved c). Qed.

Lemma encodeURIComponent_class (s : string) :
  all_chars (fun a => unreserved a || Ascii.eqb a "%") (encodeURIComponent s) = true.
Proof.
  induction s as [|c s IH]; [reflexivity|].
  rewrite encodeURIComponent_step, all_chars_app, IH, encoded_char_class. reflexivity.
Qed.

End Text.

(** X1: the text that [encodeURIComponent] yields holds only unreserved
    bytes and [%]; in particular none of the bytes that delimit the parts
    of a URL or a placeholder of a path template ([/ ? # & = { }], the
    blank, [$ + : @]): a caller value cannot add a path segment, a query
    or a placeholder to the URL it is substituted into. *)
Theorem encodeURIComponent_is_inert (s : string) :
  all_chars (fun a => unreserved a || Ascii.eqb a "%") (encodeURIComponent s) = true
  /\ forall d, In d delimiters -> includes (String d "") (encodeURIComponent s) = false.
Proof.
  split; [apply encodeURIComponent_class|].
  intros d Hd.
  apply all_chars_excludes with (P := fun a => unreserved a || Ascii.eqb a "%");
    [|apply encodeURIComponent_class].
  unfold delimiters in Hd. simpl in Hd.
  repeat (destruct Hd as [<-|Hd]; [reflexivity|]). destruct Hd.
Qed.

Section Injective.

Lemma hex_digit_inj (n m : N) :
  (n < 16)%N -> (m < 16)%N -> hex_digit n = hex_digit m -> n = m.
Proof.
  intros Hn Hm H. apply (f_equal N_of_ascii) in H. unfold hex_digit in H.
  destruct (N.ltb_spec n 10); destruct (N.ltb_spec m 10);
    rewrite !N_ascii_embedding in H by lia; lia.
Qed.

Lemma percent_inj (c d : ascii) : percent c = percent d -> c = d.
Proof.
  unfold percent. intros H. injection H as H1 H2.
  assert (Hc : (code c < 256)%N) by apply N_ascii_bounded.
  assert (Hd : (code d < 256)%N) by apply N_ascii_bounded.
  apply hex_digit_inj in H1;
    [|apply N.Div0.div_lt_upper_bound; lia|apply N.Div0.div_lt_upper_bound; lia].
  apply hex_digit_inj in H2; [|apply N.mod_lt; lia|apply N.mod_lt; lia].
  assert (Hcode : code c = code d).
  { rewrite (N.div_mod (code c) 16), (N.div_mod (code d) 16) by lia. congruence. }
  unfold code in Hcode.
  rewrite <- (ascii_N_embedding c), <- (ascii_N_embedding d). now rewrite Hcode.
Qed.

Lemma unreserved_percent : unreserved "%" = false.
Proof. reflexivity. Qed.

End Injective.

(** X2: the percent-encoding loses nothing: two values are substituted
    as the same text only when [String] gives them the same text (as it
    does for the number 7 and the string [7]). *)
Theorem encodeURIComponent_injective (v w : value) :
  encodeURIComponent (to_string v) = encodeURIComponent (to_string w) ->
  to_string v = to_string w.
Proof.
  generalize (to_string w) as t. generalize (to_string v) as s. intros s.
  induction s as [|c s IH]; intros [|d t] H.
  - reflexivity.
  - simpl in H. unfold percent in H. simpl in H.
    destruct (unreserved d); discriminate.
  - simpl in H. unfold percent in H. simpl in H.
    destruct (unreserved c); discriminate.
  - simpl in H.
    destruct (unreserved c) eqn:Hc; destruct (unreserved d) eqn:Hd.
    + injection H as -> H. f_equal. now apply IH.
    + unfold percent in H. simpl in H. injection H as -> _.
      rewrite unreserved_percent in Hc. discriminate.
    + unfold percent in H. simpl in H. injection H as <- _.
      rewrite unreserved_percent in Hd. discriminate.
    + assert (Hp : percent c = percent d
                   /\ encodeURIComponent s = encodeURIComponent t).
      { unfold percent in *. injection H as H1 H2 H3. simpl in H3.
        split; [now rewrite H1, H2|exact H3]. }
      destruct Hp as [Hp Hrest]. apply percent_inj in Hp as ->.
      f_equal. now apply IH.
Qed.

Lemma encodeURIComponent_injective_witness :
  encodeURIComponent (to_string (VString "a/b"))
  <> encodeURIComponent (to_string (VString "a%2Fb")).
Proof.
  intros H.
  apply (encodeURIComponent_injective (VString "a/b") (VString "a%2Fb")) in H.
  discriminate H.
Defined.

Example same_text_same_segment :
  VNumber (7%Z ↾ I) <> VString "7"
  /\ encodeURIComponent (to_string (VNumber (7%Z ↾ I)))
     = encodeURIComponent (to_string (VString "7")).
Proof. split; [discriminate|reflexivity]. Qed.

Section Identifiers.

Lemma alnum_not_underscore (c : ascii) : is_alnum c = true -> Ascii.eqb c "_" = false.
Proof. destruct c as [[] [] [] [] [] [] [] []]; try reflexivity; discriminate. Qed.

Lemma no_double_cons (c a : ascii) (s : string) :
  no_double c (String a s)
  = negb (Ascii.eqb a c && starts_with c s) && no_double c s.
Proof. destruct s as [|b s]; simpl; [now rewrite andb_false_r|reflexivity]. Qed.

Lemma collapse_from_spec (s : string) (in_run : bool) :
  all_chars identifier_char (collapse_from in_run s) = true
  /\ no_double "_" (collapse_from in_run s) = true
  /\ (in_run = true -> starts_with "_" (collapse_from in_run s) = false).
Proof.
  revert in_run. induction s as [|c s IH]; intros in_run.
  - repeat split.
  - simpl. destruct (is_alnum c) eqn:Hc.
    + destruct (IH false) as (Hall & Hdouble & _).
      repeat split.
      * simpl. unfold identifier_char at 1. now rewrite Hc, Hall.
      * rewrite no_double_cons, (alnum_not_underscore c Hc), Hdouble. reflexivity.
      * intros _. simpl. now apply alnum_not_underscore.
    + destruct in_run.
      * apply IH.
      * destruct (IH true) as (Hall & Hdouble & Hstart).
        repeat split; [now simpl; rewrite Hall| |discriminate].
        rewrite no_double_cons, (Hstart eq_refl), Hdouble. reflexivity.
Qed.

Lemma method_key_identifier (m : Method) : all_chars identifier_char (method_key m) = true.
Proof. now destruct m. Qed.

End Identifiers.

(** X3: the identifier that the compiler makes up for an operation
    without [operationId] is the method, an underscore and the path with
    every run of bytes that are not letters or digits collapsed to one
    underscore: it holds only letters, digits and underscores, and the
    collapsed path never holds two underscores in a row. *)
Theorem synthesized_name_is_identifier
    (pathKey : string) (m : Method) (o : OperationObject) :
  operationId o = None ->
  operation_name pathKey m o = method_key m +:+ "_" +:+ collapse_non_alnum pathKey
  /\ all_chars identifier_char (operation_name pathKey m o) = true
  /\ no_double "_" (collapse_non_alnum pathKey) = true.
Proof.
  intros Hid. unfold operation_name. rewrite Hid.
  destruct (collapse_from_spec pathKey false) as (Hall & Hdouble & _).
  repeat split; [|exact Hdouble].
  rewrite !all_chars_app, method_key_identifier. unfold collapse_non_alnum.
  now rewrite Hall.
Qed.

Lemma synthesized_name_is_identifier_witness :
  operation_name "/users/{user-id}/orders/"
    GET {| operationId := None; summary := None; description := None;
           parameters := []; requestBody := None; op_security := None |}
  = "get__users_user_id_orders_"
  /\ all_chars identifier_char
       (operation_name "/users/{user-id}/orders/"
          GET {| operationId := None; summary := None; description := None;
                 parameters := []; requestBody := None; op_security := None |}) = true.
Proof.
  destruct (synthesized_name_is_identifier "/users/{user-id}/orders/" GET
              {| operationId := None; summary := None; description := None;
                 parameters := []; requestBody := None; op_security := None |} eq_refl)
    as (_ & Hall & _).
  split; [reflexivity|exact Hall].
Defined.

(* ===================================================================== *)
(** * Placeholder substitution *)
(* ===================================================================== *)

Section Substitution.

Lemma prefix_app_self (p s : string) : String.prefix p (p +:+ s) = true.
Proof.
  induction p as [|c p IH]; [now destruct s|].
  change (String c p +:+ s) with (String c (p +:+ s)). cbn [String.prefix].
  destruct (ascii_dec c c) as [_|Hne]; [exact IH|congruence].
Qed.

Lemma drop_chars_app (p s : string) : drop_chars (String.length p) (p +:+ s) = s.
Proof. induction p as [|c p IH]; [reflexivity|exact IH]. Qed.

Lemma prefix_first_char (c d : ascii) (p s : string) :
  c <> d -> String.prefix (String c p) (String d s) = false.
Proof.
  intros Hne. cbn [String.prefix]. destruct (ascii_dec c d); [contradiction|reflexivity].
Qed.

(** The first occurrence is the one after a text without the first byte
    of the pattern. *)
Lemma replace_first_after (c : ascii) (p rep a b : string) :
  includes (String c "") a = false ->
  replace_first (String c p) rep (a +:+ String c p +:+ b) = a +:+ rep +:+ b.
Proof.
  induction a as [|d a IH]; intros Ha.
  - change ("" +:+ String c p +:+ b) with (String c p +:+ b).
    destruct (String c p +:+ b) eqn:E; [discriminate|].
    unfold replace_first; fold replace_first. rewrite <- E.
    now rewrite prefix_app_self, drop_chars_app.
  - rewrite includes_cons in Ha. apply orb_false_iff in Ha as [Hd Ha].
    cbn [String.prefix] in Hd.
    destruct (ascii_dec c d) as [->|Hne]; [now destruct a|].
    change (String d a +:+ String c p +:+ b) with (String d (a +:+ String c p +:+ b)).
    unfold replace_first; fold replace_first.
    rewrite (prefix_first_char c d p _ Hne).
    change (String d a +:+ rep +:+ b) with (String d (a +:+ rep +:+ b)).
    f_equal. now apply IH.
Qed.

Lemma replace_first_absent (pat rep s : string) :
  includes pat s = false -> replace_first pat rep s = s.
Proof.
  induction s as [|c s IH]; intros H.
  - simpl in *. destruct pat; [discriminate|reflexivity].
  - rewrite includes_cons in H. apply orb_false_iff in H as [Hp H].
    unfold replace_first; fold replace_first. rewrite Hp. f_equal. now apply IH.
Qed.

End Substitution.

(** X4: for an operation with one path parameter [p], whose template is
    some text without [{], the placeholder [{p}] and a rest, a value
    given for [p] replaces exactly that first placeholder by its
    percent-encoded text; the text before and the rest are kept as they
    are (a second [{p}] in the rest stays literal), the stored trailing
    slash is restored, and nothing is recorded as missing. *)
Theorem first_placeholder_substituted
    (op : Operation) (args : gmap string value) (p a b : string) :
  path op = a +:+ "{" +:+ p +:+ "}" +:+ b ->
  includes "{" a = false ->
  pathParams op = [p] ->
  argument args p <> VUndefined ->
  build_url op args
  = (let u := a +:+ encodeURIComponent (to_string (argument args p)) +:+ b in
     if pathHasTrailingSlash op && negb (endsWithSlash u) then u +:+ "/" else u,
     []).
Proof.
  intros Hpath Ha Hparams Hv. unfold build_url. rewrite Hparams, Hpath.
  cbn [path_loop].
  destruct (is_undefined (argument args p)) eqn:Hu.
  { destruct (argument args p); try discriminate. contradiction. }
  assert (Hshape : a +:+ "{" +:+ p +:+ "}" +:+ b = a +:+ String "{" (p +:+ "}") +:+ b).
  { f_equal. change ("{" +:+ p +:+ "}" +:+ b) with (String "{" (p +:+ "}" +:+ b)).
    change (String "{" (p +:+ "}") +:+ b) with (String "{" ((p +:+ "}") +:+ b)).
    f_equal. clear. induction p as [|c p IH]; [reflexivity|].
    change (String c p +:+ "}" +:+ b) with (String c (p +:+ "}" +:+ b)).
    change ((String c p +:+ "}") +:+ b) with (String c ((p +:+ "}") +:+ b)).
    now rewrite IH. }
  change ("{" +:+ p +:+ "}") with (String "{" (p +:+ "}")).
  now rewrite Hshape, (replace_first_after "{" (p +:+ "}") _ a b Ha).
Qed.

Lemma first_placeholder_substituted_witness :
  build_url
    {| method := GET; path := "/shops/{id}/items/{id}/";
       pathHasTrailingSlash := true;
       pathParams := ["id"]; queryParams := []; headerParams := [];
       paramDefs := {| defs_path := [path_param "id"]; defs_query := [];
                       defs_header := [] |};
       security := []; bodyRequired := false; bodySchema := None |}
    {[ "id" := VString "a/b c" ]}
  = ("/shops/a%2Fb%20c/items/{id}/", []).
Proof.
  rewrite (first_placeholder_substituted _ _ "id" "/shops/" "/items/{id}/");
    [reflexivity|reflexivity|reflexivity|reflexivity|vm_compute; discriminate].
Defined.

(* ===================================================================== *)
(** * Where the missing inputs come from *)
(* ===================================================================== *)

Section Origins.

Variable up : Upstream.

Lemma is_undefined_true (v : value) : is_undefined v = true -> v = VUndefined.
Proof. now destruct v. Qed.

Lemma path_loop_origin (op : Operation) (args : gmap string value)
    (ps : list string) (u : string) (mi : MissingInput) :
  In mi (snd (path_loop op args ps u)) ->
  exists p, In p ps /\ argument args p = VUndefined
            /\ mi = missing (defs_path (paramDefs op)) p "path".
Proof.
  revert u. induction ps as [|q ps IH]; intros u H; [destruct H|].
  simpl in H. destruct (is_undefined (argument args q)) eqn:Hq.
  - destruct (path_loop op args ps u) as [u' ms] eqn:E. simpl in H.
    destruct H as [<-|H].
    + exists q. repeat split; [now left|now apply is_undefined_true].
    + destruct (IH u) as (p & Hin & Hp & Hmi); [now rewrite E|].
      exists p. repeat split; [now right|exact Hp|exact Hmi].
  - destruct (IH _ H) as (p & Hin & Hp & Hmi).
    exists p. repeat split; [now right|exact Hp|exact Hmi].
Qed.

Lemma query_loop_origin (op : Operation) (args : gmap string value)
    (qs : list string) (acc : gmap string value) (mi : MissingInput) :
  In mi (snd (query_loop op args qs acc)) ->
  exists q, In q qs /\ argument args q = VUndefined
            /\ required (defs_query (paramDefs op)) q = true
            /\ mi = missing (defs_query (paramDefs op)) q "query".
Proof.
  revert acc. induction qs as [|q' qs IH]; intros acc H; [destruct H|].
  simpl in H. destruct (is_undefined (argument args q')) eqn:Hq; simpl in H.
  - destruct (query_loop op args qs acc) as [qp ms] eqn:E. simpl in H.
    apply in_app_or in H as [H|H].
    + destruct (required (defs_query (paramDefs op)) q') eqn:Hreq; [|destruct H].
      destruct H as [<-|[]].
      exists q'. repeat split; [now left|now apply is_undefined_true|exact Hreq].
    + destruct (IH acc) as (q & Hin & Hp & Hreq & Hmi); [now rewrite E|].
      exists q. repeat split; [now right|exact Hp|exact Hreq|exact Hmi].
  - destruct (IH _ H) as (q & Hin & Hp & Hreq & Hmi).
    exists q. repeat split; [now right|exact Hp|exact Hreq|exact Hmi].
Qed.

Lemma header_loop_origin (op : Operation) (args : gmap string value)
    (hs : list string) (acc : gmap string value) (c : Client) (mi : MissingInput) :
  ~ In "x-access-token" hs ->
  In mi (snd (fst (fst (header_loop up op args hs acc c)))) ->
  exists h, In h hs /\ argument args h = VUndefined
            /\ required (defs_header (paramDefs op)) h = true
            /\ mi = missing (defs_header (paramDefs op)) h "header".
Proof.
  revert acc c. induction hs as [|h' hs IH]; intros acc c Hx H; [destruct H|].
  assert (Hne : String.eqb h' "x-access-token" = false).
  { apply String.eqb_neq. intros ->. apply Hx. now left. }
  assert (Hx' : ~ In "x-access-token" hs) by (intros Hin; apply Hx; now right).
  simpl in H. rewrite Hne in H. simpl in H.
  destruct (is_undefined (argument args h')) eqn:Hq; simpl in H.
  - destruct (header_loop up op args hs acc c) as [[[hd ms] c2] tr'] eqn:E. simpl in H.
    apply in_app_or in H as [H|H].
    + destruct (required (defs_header (paramDefs op)) h') eqn:Hreq; [|destruct H].
      destruct H as [<-|[]].
      exists h'. repeat split; [now left|now apply is_undefined_true|exact Hreq].
    + destruct (IH acc c Hx') as (h & Hin & Hp & Hreq & Hmi); [now rewrite E|].
      exists h. repeat split; [now right|exact Hp|exact Hreq|exact Hmi].
  - destruct (header_loop up op args hs (<[h':=argument args h']> acc) c)
      as [[[hd ms] c2] tr'] eqn:E. simpl in H.
    destruct (IH (<[h':=argument args h']> acc) c Hx') as (h & Hin & Hp & Hreq & Hmi);
      [now rewrite E|].
    exists h. repeat split; [now right|exact Hp|exact Hreq|exact Hmi].
Qed.

End Origins.

(* ===================================================================== *)
(** * Answering an elicitation *)
(* ===================================================================== *)

Section Retry.

Variable srv : Server.

Lemma get_union (supplied args : gmap string value) (k : string) :
  get (supplied ∪ args) k
  = match supplied !! k with Some v => v | None => get args k end.
Proof.
  unfold get. destruct (supplied !! k) as [v|] eqn:E.
  - now rewrite (lookup_union_Some_l supplied args k v E).
  - now rewrite (lookup_union_r supplied args k E).
Qed.

Lemma nullish_given (a b : value) : given b -> nullish a b <> VUndefined.
Proof. intros [H1 H2]. destruct a; simpl; congruence. Qed.

Lemma nullish_given_l (a b : value) : given a -> nullish a b <> VUndefined.
Proof. intros [H1 H2]. destruct a; simpl; congruence. Qed.

(** An input that is still missing after values were added was missing
    before, and none was added under its listed name. *)
Lemma argument_still_missing (supplied args : gmap string value) (p : string) :
  (forall k v, supplied !! k = Some v -> given v) ->
  argument (supplied ∪ args) p = VUndefined ->
  supplied !! sanitize p = None /\ argument args p = VUndefined.
Proof.
  intros Hgiven. unfold argument. rewrite !get_union. intros H.
  destruct (supplied !! sanitize p) as [v|] eqn:Es.
  { exfalso. revert H. apply nullish_given. eauto. }
  destruct (supplied !! p) as [w|] eqn:Ep.
  { exfalso. revert H. apply nullish_given_l. eauto. }
  now split.
Qed.

Lemma filteredMissing_nil (ms : list MissingInput) :
  (forall mi, In mi ms -> mi_name mi = "api_token") -> filteredMissing ms = [].
Proof.
  induction ms as [|mi ms IH]; intros H; [reflexivity|].
  simpl. rewrite (H mi (or_introl eq_refl)). simpl. apply IH.
  intros mi' Hin. apply H. now right.
Qed.

Lemma retry_missing (up up' : Upstream) (op : Operation)
    (supplied args : gmap string value) (c c' : Client) :
  ~ In "x-access-token" (headerParams op) ->
  (forall k v, supplied !! k = Some v -> given v) ->
  (forall mi, In mi (filteredMissing (missingInputs up op args c)) ->
              is_Some (supplied !! mi_name mi)) ->
  filteredMissing (missingInputs up' op (supplied ∪ args) c') = [].
Proof.
  intros Hx Hgiven Hsupplied. apply filteredMissing_nil. intros mi Hin.
  destruct (String.eqb (mi_name mi) "api_token") eqn:Hname;
    [now apply String.eqb_eq|exfalso].
  assert (Hold : In mi (missingInputs up op args c) -> supplied !! mi_name mi = None ->
                 False).
  { intros Hbefore Hnone.
    destruct (Hsupplied mi) as [v Hv]; [|congruence].
    apply List.filter_In. split; [exact Hbefore|]. now rewrite Hname. }
  unfold missingInputs in Hin.
  apply in_app_or in Hin as [Hin|Hin]; [|apply in_app_or in Hin as [Hin|Hin];
                                         [|apply in_app_or in Hin as [Hin|Hin]]].
  - rewrite build_url_missing in Hin.
    apply path_loop_origin in Hin as (p & Hp & Harg & ->).
    apply (argument_still_missing supplied args p Hgiven) in Harg as [Hnone Harg].
    apply Hold; [|exact Hnone].
    unfold missingInputs. apply in_or_app. left. rewrite build_url_missing.
    now apply path_loop_missing.
  - apply query_loop_origin in Hin as (q & Hq & Harg & Hreq & ->).
    apply (argument_still_missing supplied args q Hgiven) in Harg as [Hnone Harg].
    apply Hold; [|exact Hnone].
    unfold missingInputs. apply in_or_app. right. apply in_or_app. left.
    now apply query_loop_missing.
  - apply header_loop_origin in Hin as (h & Hh & Harg & Hreq & ->); [|exact Hx].
    apply (argument_still_missing supplied args h Hgiven) in Harg as [Hnone Harg].
    apply Hold; [|exact Hnone].
    unfold missingInputs. apply in_or_app. right. apply in_or_app. right.
    apply in_or_app. left.
    apply header_loop_missing; [exact Hh| |exact Harg|exact Hreq].
    intros ->. contradiction.
  - unfold body_missing in Hin. rewrite get_union in Hin.
    destruct (bodyRequired op) eqn:Hbody; [|destruct Hin].
    destruct (supplied !! "body") as [v|] eqn:Eb.
    + destruct (Hgiven "body" v Eb) as [Hv _].
      destruct v; simpl in Hin; solve [destruct Hin|congruence].
    + simpl in Hin. destruct (is_undefined (get args "body")) eqn:Hu; [|destruct Hin].
      destruct Hin as [<-|[]].
      apply Hold; [|exact Eb].
      unfold missingInputs. apply in_or_app. right. apply in_or_app. right.
      apply in_or_app. right. unfold body_missing. rewrite Hbody, Hu. now left.
Qed.

Lemma callTool_requires_nonempty (up : Upstream) c name typedArgs inputs :
  fst (fst (callTool srv up c name typedArgs)) = Returned (Requires inputs) ->
  inputs <> [].
Proof.
  assert (Hlookup : forall c0,
    fst (fst (lookup_and_dispatch srv up name typedArgs c0)) = Returned (Requires inputs) ->
    inputs <> []).
  { intros c0. unfold lookup_and_dispatch.
    destruct (operationMap srv !! name) as [op|]; [|discriminate].
    rewrite dispatch_stages. cbv zeta.
    destruct (filteredMissing _) as [|mi fm].
    - intros H. now apply resolve_and_execute_outcome in H.
    - intros H. injection H as <-. discriminate. }
  unfold callTool.
  destruct (negb (isReady srv)); [discriminate|].
  destruct (requested_proxy typedArgs) as [id|]; [|apply Hlookup].
  destruct (String.eqb name "getProxyUsers"); [discriminate|apply Hlookup].
Qed.

End Retry.

(** X5: answering an elicitation completes the inputs.  When a call of an
    operation that declares no [x-access-token] header is answered by an
    elicitation, a retry whose arguments are the previous ones with a
    value (neither [null] nor [undefined]) added under every listed name
    is not answered by an elicitation again, whatever the session and the
    upstream are by then. *)
Theorem elicited_inputs_complete_the_call
    (srv : Server) (up up' : Upstream) (c c' : Client) (name : string)
    (op : Operation) (args supplied : gmap string value)
    (inputs : list RequiredInput) :
  operationMap srv !! name = Some op ->
  ~ In "x-access-token" (headerParams op) ->
  fst (fst (callTool srv up c name (Some args))) = Returned (Requires inputs) ->
  (forall k v, supplied !! k = Some v -> given v) ->
  (forall ri, In ri inputs -> is_Some (supplied !! ri_name ri)) ->
  forall inputs',
    fst (fst (callTool srv up' c' name (Some (supplied ∪ args))))
    <> Returned (Requires inputs').
Proof.
  intros Hop Hx Hfirst Hgiven Hlisted inputs' Hretry.
  apply callTool_requires in Hfirst as (op1 & Hop1 & ->).
  rewrite Hop in Hop1. injection Hop1 as <-.
  pose proof (callTool_requires_nonempty _ _ _ _ _ _ Hretry) as Hne.
  apply callTool_requires in Hretry as (op2 & Hop2 & ->).
  rewrite Hop in Hop2. injection Hop2 as <-.
  apply Hne. simpl.
  rewrite (retry_missing up up' op supplied args (with_proxy (Some args) c)
             (with_proxy (Some (supplied ∪ args)) c') Hx Hgiven); [reflexivity|].
  intros mi Hmi. apply (Hlisted (required_input mi)). now apply in_map.
Qed.

Lemma elicited_inputs_complete_the_call_witness :
  fst (fst (callTool (loaded stock_document) upstream_without_vendor fresh_client
              "getStock" (Some {[ "warehouse" := VString "W1" ]})))
  = Returned (Requires [ {| ri_name := "sku_id";
                            ri_description := Some "Stock keeping unit";
                            ri_schema := Some (Fragment "string") |} ])
  /\ fst (fst (callTool (loaded stock_document) upstream_without_vendor fresh_client
                 "getStock"
                 (Some ({[ "sku_id" := VString "S-1" ]} ∪ {[ "warehouse" := VString "W1" ]}))))
     = Returned (Content (JObject []))
  /\ forall inputs',
       fst (fst (callTool (loaded stock_document) upstream_without_vendor fresh_client
                   "getStock"
                   (Some ({[ "sku_id" := VString "S-1" ]}
                          ∪ {[ "warehouse" := VString "W1" ]}))))
       <> Returned (Requires inputs').
Proof.
  split; [reflexivity|]. split; [reflexivity|].
  apply (elicited_inputs_complete_the_call (loaded stock_document)
           upstream_without_vendor upstream_without_vendor fresh_client fresh_client
           "getStock" (operation_of stock_document "getStock")
           {[ "warehouse" := VString "W1" ]} {[ "sku_id" := VString "S-1" ]}
           [ {| ri_name := "sku_id"; ri_description := Some "Stock keeping unit";
                ri_schema := Some (Fragment "string") |} ]).
  - reflexivity.
  - vm_compute. tauto.
  - reflexivity.
  - intros k v H. apply lookup_singleton_Some in H as [_ <-]. split; discriminate.
  - intros ri [<-|[]]. now exists (VString "S-1").
Defined.

(* ===================================================================== *)
(** * The compiled tables and the listed tools *)
(* ===================================================================== *)

Section Compiled.

Lemma operation_table_keys_from (entries : list (string * Operation))
    (acc : gmap string Operation) (name : string) :
  is_Some (fold_left (fun acc e => <[fst e := snd e]> acc) entries acc !! name)
  <-> In name (map fst entries) \/ is_Some (acc !! name).
Proof.
  revert acc. induction entries as [|[k v] entries IH]; intros acc; simpl.
  - split; [now right|now intros [[]|H]].
  - rewrite IH. destruct (decide (k = name)) as [->|Hne].
    + rewrite lookup_insert_eq. split; [intros _; now left; left|eauto].
    + rewrite lookup_insert_ne by exact Hne. tauto.
Qed.

Lemma operation_table_keys (entries : list (string * Operation)) (name : string) :
  is_Some (operation_table entries !! name) <-> In name (map fst entries).
Proof.
  unfold operation_table. rewrite operation_table_keys_from, lookup_empty.
  split; [intros [H|[x Hx]]; [exact H|discriminate]|now left].
Qed.

Lemma fold_insert_keeps (after : list (string * Operation))
    (acc : gmap string Operation) (name : string) (op : Operation) :
  ~ In name (map fst after) -> acc !! name = Some op ->
  fold_left (fun acc e => <[fst e := snd e]> acc) after acc !! name = Some op.
Proof.
  revert acc. induction after as [|[k v] after IH]; intros acc Hafter H; [exact H|].
  simpl. apply IH; [intros Hin; apply Hafter; now right|].
  rewrite lookup_insert_ne; [exact H|]. intros ->. apply Hafter. now left.
Qed.

Lemma operation_table_last (before after : list (string * Operation))
    (name : string) (op : Operation) :
  ~ In name (map fst after) ->
  operation_table (before ++ (name, op) :: after) !! name = Some op.
Proof.
  intros Hafter. unfold operation_table. rewrite fold_left_app. simpl.
  apply fold_insert_keeps; [exact Hafter|apply lookup_insert_eq].
Qed.

Lemma compile_item_names (entry : string * PathItem) (doc : OpenApi)
    (e : Tool * (string * Operation)) :
  In e (compile_item doc entry) -> tool_name (fst e) = fst (snd e).
Proof.
  destruct entry as [pathKey item]. unfold compile_item. intros H.
  apply list_elem_of_In, list_elem_of_omap in H as (m & _ & Hm).
  destruct (item_operation item m) as [o|]; [|discriminate].
  injection Hm as <-. reflexivity.
Qed.

Lemma compile_all_names (doc : OpenApi) :
  map tool_name (map fst (compile_all doc)) = map fst (map snd (compile_all doc)).
Proof.
  rewrite !map_map. apply map_ext_in. intros e He.
  unfold compile_all in He. apply in_concat in He as (l & Hl & He).
  apply in_map_iff in Hl as (entry & <- & _).
  now apply compile_item_names in He.
Qed.

End Compiled.

(** X6: after a document is compiled, the listed tools and the operation
    table agree on the names: every listed tool names an operation of the
    table, and every operation of the table is listed. *)
Theorem listed_tools_are_callable (srv0 : Server) (doc : OpenApi) (name : string) :
  openApi srv0 = Some doc ->
  In name (map tool_name (listTools (generateFromCurrentOpenApi srv0)))
  <-> is_Some (operationMap (generateFromCurrentOpenApi srv0) !! name).
Proof.
  intros Hdoc. unfold listTools, generateFromCurrentOpenApi. rewrite Hdoc. simpl.
  now rewrite operation_table_keys, compile_all_names.
Qed.

Lemma listed_tools_are_callable_witness :
  In "getItem" (map tool_name (listTools (loaded items_document)))
  <-> is_Some (operationMap (loaded items_document) !! "getItem").
Proof.
  apply (listed_tools_are_callable (set_openApi (Some items_document) new_server)
           items_document "getItem").
  reflexivity.
Defined.

(** X7: an identifier that two operations share is not detected: both
    are listed as tools, and the table holds the operation compiled last
    under that name, so the earlier one cannot be called. *)
Theorem later_operation_replaces_earlier
    (srv0 : Server) (doc : OpenApi)
    (before after : list (Tool * (string * Operation)))
    (tool : Tool) (name : string) (op : Operation) :
  openApi srv0 = Some doc ->
  compile_all doc = before ++ (tool, (name, op)) :: after ->
  ~ In name (map (fun e => fst (snd e)) after) ->
  operationMap (generateFromCurrentOpenApi srv0) !! name = Some op
  /\ listTools (generateFromCurrentOpenApi srv0)
     = map fst before ++ tool :: map fst after.
Proof.
  intros Hdoc Hall Hafter. unfold listTools, generateFromCurrentOpenApi.
  rewrite Hdoc. simpl. rewrite Hall, !map_app. simpl. split; [|reflexivity].
  apply operation_table_last. now rewrite map_map.
Qed.

Lemma later_operation_replaces_earlier_witness :
  map tool_name (listTools (loaded colliding_document)) = ["listItems"; "listItems"]
  /\ path <$> operationMap (loaded colliding_document) !! "listItems" = Some "/v2/items/".
Proof.
  destruct (later_operation_replaces_earlier
              (set_openApi (Some colliding_document) new_server) colliding_document
              (take 1 (compile_all colliding_document)) []
              (compile_tool "/v2/items/" GET (empty_operation "listItems" [] None)
                 (operation_of colliding_document "listItems"))
              "listItems" (operation_of colliding_document "listItems"))
    as [Hop _].
  - reflexivity.
  - reflexivity.
  - simpl. tauto.
  - split; [reflexivity|]. unfold loaded. now rewrite Hop.
Defined.

Section Buckets.

Lemma located_well_bucketed (loc : string) (params : list ParamDef) :
  well_bucketed loc (map pd_name (located loc params)) (located loc params).
Proof.
  assert (Hloc : forall d, In d (located loc params) -> pd_in d = loc).
  { intros d Hd. apply List.filter_In in Hd as [_ Hd]. now apply String.eqb_eq. }
  split; [reflexivity|]. split; [exact Hloc|].
  intros p Hp. apply in_map_iff in Hp as (d & Hname & Hd).
  unfold find_def.
  destruct (List.find (fun pd => String.eqb (pd_name pd) p) (located loc params))
    as [d'|] eqn:Hfind.
  - apply List.find_some in Hfind as [Hin Heq]. apply String.eqb_eq in Heq.
    exists d'. repeat split; [exact Heq|now apply Hloc].
  - apply (List.find_none _ _ Hfind) in Hd. simpl in Hd.
    rewrite Hname, String.eqb_refl in Hd. discriminate.
Qed.

Lemma compile_all_pair (doc : OpenApi) (tool : Tool) (e : string * Operation) :
  In (tool, e) (compile_all doc) ->
  exists pathKey item m o,
    e = compile_operation doc pathKey item m o
    /\ tool = compile_tool pathKey m o (snd e).
Proof.
  intros Hin. unfold compile_all in Hin. apply in_concat in Hin as (l & Hl & Hin).
  apply in_map_iff in Hl as ([pathKey item] & <- & _).
  unfold compile_item in Hin.
  apply list_elem_of_In, list_elem_of_omap in Hin as (m & _ & Hm).
  destruct (item_operation item m) as [o|]; [|discriminate].
  exists pathKey, item, m, o. injection Hm as <- <-. now split.
Qed.

Lemma insert_properties_keys (kind : Property) (names : list string)
    (acc : gmap string Property) (k : string) :
  is_Some (insert_properties kind names acc !! k)
  <-> In k (map sanitize names) \/ is_Some (acc !! k).
Proof.
  unfold insert_properties. revert acc.
  induction names as [|n names IH]; intros acc; simpl.
  - split; [now right|now intros [[]|H]].
  - rewrite IH. destruct (decide (sanitize n = k)) as [->|Hne].
    + rewrite lookup_insert_eq. split; [intros _; now left; left|eauto].
    + rewrite lookup_insert_ne by exact Hne. tauto.
Qed.

End Buckets.

(** X8: in every operation of a compiled table the parameter names of a
    location are the names of the definitions kept for that location, in
    order, and a name finds a definition of that name and location (the
    first one declared): the dispatcher never looks up a declared
    parameter without finding its definition. *)
Theorem declared_parameters_have_definitions
    (srv0 : Server) (doc : OpenApi) (name : string) (op : Operation) :
  openApi srv0 = Some doc ->
  operationMap (generateFromCurrentOpenApi srv0) !! name = Some op ->
  well_bucketed "path" (pathParams op) (defs_path (paramDefs op))
  /\ well_bucketed "query" (queryParams op) (defs_query (paramDefs op))
  /\ well_bucketed "header" (headerParams op) (defs_header (paramDefs op)).
Proof.
  intros Hdoc. unfold generateFromCurrentOpenApi. rewrite Hdoc. simpl.
  intros H. apply operation_table_lookup, compile_all_entry in H
    as (pathKey & item & m & o & H).
  unfold compile_operation in H. injection H as _ ->. simpl.
  repeat split; apply located_well_bucketed.
Qed.

Lemma declared_parameters_have_definitions_witness :
  well_bucketed "path" ["warehouse"]
    (defs_path (paramDefs (operation_of stock_document "getStock")))
  /\ well_bucketed "query" ["sku.id"]
       (defs_query (paramDefs (operation_of stock_document "getStock")))
  /\ well_bucketed "header" []
       (defs_header (paramDefs (operation_of stock_document "getStock"))).
Proof.
  apply (declared_parameters_have_definitions
           (set_openApi (Some stock_document) new_server) stock_document "getStock"
           (operation_of stock_document "getStock")); reflexivity.
Defined.

(** X9: the tool compiled for an operation has the name of the operation;
    it requires the sanitized names of the path parameters and nothing
    else (no list at all without path parameters); it always advertises
    [api_token] as the token input, even when a parameter has that name;
    and its properties are exactly [api_token], [body] when a JSON body
    is declared, and the sanitized names of the declared path, query and
    header parameters (the key [__proto__], which a JavaScript object
    does not store as a property of its own, is left aside). *)
Theorem tool_schema_of_operation
    (doc : OpenApi) (tool : Tool) (name : string) (op : Operation) :
  In (tool, (name, op)) (compile_all doc) ->
  tool_name tool = name
  /\ tool_required tool
     = match pathParams op with [] => None | _ => Some (map sanitize (pathParams op)) end
  /\ tool_properties tool !! "api_token" = Some TokenProperty
  /\ forall k,
       k <> "__proto__" ->
       (is_Some (tool_properties tool !! k)
        <-> k = "api_token" \/ (bodyRequired op = true /\ k = "body")
            \/ In k (map sanitize (declared_names op))).
Proof.
  intros Hin. apply compile_all_pair in Hin as (pathKey & item & m & o & He & ->).
  simpl snd. unfold compile_tool. cbn [tool_name tool_required tool_properties].
  split; [unfold compile_operation in He; now injection He as <- _|].
  split; [now destruct (pathParams op)|].
  split; [apply lookup_insert_eq|].
  intros k _. destruct (decide ("api_token" = k)) as [<-|Hne].
  { rewrite lookup_insert_eq. split; [now left|eauto]. }
  rewrite lookup_insert_ne by exact Hne.
  assert (Hprops : is_Some (insert_properties HeaderProperty (headerParams op)
                     (insert_properties QueryProperty (queryParams op)
                        (insert_properties PathProperty (pathParams op) ∅)) !! k)
                   <-> In k (map sanitize (declared_names op))).
  { rewrite !insert_properties_keys, lookup_empty. unfold declared_names.
    rewrite !map_app, !in_app_iff. split.
    - intros [H|[H|[H|[x Hx]]]]; [tauto|tauto|tauto|discriminate].
    - tauto. }
  destruct (bodyRequired op).
  - destruct (decide ("body" = k)) as [<-|Hb].
    + rewrite lookup_insert_eq. split; [intros _; right; left; now split|eauto].
    + rewrite lookup_insert_ne by exact Hb. rewrite Hprops.
      split; [tauto|]. intros [H|[[_ H]|H]]; [congruence|congruence|exact H].
  - rewrite Hprops. split; [tauto|].
    intros [H|[[H _]|H]]; [congruence|discriminate|exact H].
Qed.

Lemma tool_schema_of_operation_witness :
  exists tool,
    hd_error (map fst (compile_all stock_document)) = Some tool
    /\ tool_name tool = "getStock"
    /\ tool_required tool = Some ["warehouse"]
    /\ tool_properties tool !! "api_token" = Some TokenProperty
    /\ is_Some (tool_properties tool !! "sku_id").
Proof.
  exists (compile_tool "/stock/{warehouse}" GET
            (empty_operation "getStock" [Inline (query_param "sku.id" true)] None)
            (operation_of stock_document "getStock")).
  split; [vm_compute; reflexivity|].
  destruct (tool_schema_of_operation stock_document
              (compile_tool "/stock/{warehouse}" GET
                 (empty_operation "getStock" [Inline (query_param "sku.id" true)] None)
                 (operation_of stock_document "getStock"))
              "getStock" (operation_of stock_document "getStock"))
    as (Hname & Hreq & Htoken & Hkeys).
  { vm_compute. now left. }
  split; [exact Hname|]. split; [exact Hreq|]. split; [exact Htoken|].
  apply Hkeys; [discriminate|]. right. right. vm_compute. tauto.
Defined.

(* ===================================================================== *)
(** * The exchanges of one call *)
(* ===================================================================== *)

Lemma vendor_only_fetches_nil (tr : list event) :
  vendor_only tr -> vendor_fetches tr = 0 -> tr = [].
Proof.
  intros Hv. destruct Hv as [|e tr [m ->] _]; [reflexivity|].
  unfold vendor_fetches. simpl. discriminate.
Qed.

Lemma vendor_token_no_fetch (up : Upstream) (c : Client) :
  vendor_fetches (snd (vendor_token up c)) = 0 -> snd (fst (vendor_token up c)) = c.
Proof.
  unfold vendor_token, getAmazonAccessToken.
  destruct (truthy (amazonAccessToken c)); simpl; [reflexivity|].
  destruct (access_token_endpoint up (marketplaceId c)); simpl; discriminate.
Qed.

Lemma header_loop_no_fetch (up : Upstream) (op : Operation) (args : gmap string value)
    (hs : list string) (acc : gmap string value) (c : Client) :
  vendor_fetches (snd (header_loop up op args hs acc c)) = 0 ->
  snd (fst (header_loop up op args hs acc c)) = c.
Proof.
  revert acc c. induction hs as [|h hs IH]; intros acc c; [reflexivity|].
  cbn [header_loop].
  assert (Hstep : forall val c1 tr,
            (vendor_fetches tr = 0 -> c1 = c) ->
            vendor_fetches
              (snd (let '(val, c1, tr) := (val, c1, tr) in
                    if negb (is_undefined val)
                    then let '(hd, ms, c2, tr') :=
                           header_loop up op args hs (<[h:=val]> acc) c1 in
                         (hd, ms, c2, tr ++ tr')
                    else let '(hd, ms, c2, tr') := header_loop up op args hs acc c1 in
                         (hd, (if required (defs_header (paramDefs op)) h
                               then [missing (defs_header (paramDefs op)) h "header"]
                               else []) ++ ms, c2, tr ++ tr'))) = 0 ->
            snd (fst (let '(val, c1, tr) := (val, c1, tr) in
                    if negb (is_undefined val)
                    then let '(hd, ms, c2, tr') :=
                           header_loop up op args hs (<[h:=val]> acc) c1 in
                         (hd, ms, c2, tr ++ tr')
                    else let '(hd, ms, c2, tr') := header_loop up op args hs acc c1 in
                         (hd, (if required (defs_header (paramDefs op)) h
                               then [missing (defs_header (paramDefs op)) h "header"]
                               else []) ++ ms, c2, tr ++ tr'))) = c).
  { intros val c1 tr Hc1. destruct (negb (is_undefined val)).
    - specialize (IH (<[h:=val]> acc) c1).
      destruct (header_loop up op args hs (<[h:=val]> acc) c1) as [[[hd ms] c2] tr'].
      simpl in *. rewrite vendor_fetches_app. intros H.
      rewrite IH by lia. apply Hc1. lia.
    - specialize (IH acc c1).
      destruct (header_loop up op args hs acc c1) as [[[hd ms] c2] tr'].
      simpl in *. rewrite vendor_fetches_app. intros H.
      rewrite IH by lia. apply Hc1. lia. }
  destruct (String.eqb h "x-access-token" && negb (truthy (argument args h))).
  - pose proof (vendor_token_no_fetch up c) as Hv.
    destruct (vendor_token up c) as [[val c1] tr]. apply Hstep. exact Hv.
  - apply Hstep. reflexivity.
Qed.

(** The trace of RESOLVE_AUTH: nothing, or one authentication exchange,
    which alone can change the cached token. *)
Lemma attach_bearer_trace (up : Upstream) (args headers : gmap string value) (c : Client) :
  (snd (attach_bearer up args headers c) = []
   /\ snd (fst (attach_bearer up args headers c)) = c)
  \/ exists u p x, snd (attach_bearer up args headers c) = [Authenticate u p x].
Proof.
  unfold attach_bearer, authenticate.
  destruct (truthy (or_else (get args "api_token") (apiToken c))); simpl.
  - destruct (negb (truthy (or_else (get args "api_token") (apiToken c))));
      left; now split.
  - right. destruct (token_endpoint up (proxy_header c)); simpl.
    + eauto.
    + destruct (negb _); eauto.
Qed.

Lemma resolve_auth_trace (srv : Server) (up : Upstream) (op : Operation)
    (args headers : gmap string value) (c : Client) :
  (snd (resolve_auth srv up op args headers c) = []
   /\ snd (fst (resolve_auth srv up op args headers c)) = c)
  \/ exists u p x, snd (resolve_auth srv up op args headers c) = [Authenticate u p x].
Proof.
  unfold resolve_auth. destruct (security op) as [|requirement rest]; [left; now split|].
  destruct (uses_basic srv requirement); [left; now split|].
  assert (H : (snd (bearer_loop srv up args (map fst requirement) headers c) = []
               /\ snd (fst (bearer_loop srv up args (map fst requirement) headers c)) = c)
              \/ exists u p x,
                   snd (bearer_loop srv up args (map fst requirement) headers c)
                   = [Authenticate u p x]).
  { induction (map fst requirement) as [|n names IH]; simpl; [left; now split|].
    destruct (indicates_bearer srv n); [apply attach_bearer_trace|exact IH]. }
  destruct (bearer_loop srv up args (map fst requirement) headers c) as [[r c1] tr].
  exact H.
Qed.

(** EXECUTE: the trace of RESOLVE_AUTH, then at most the request; the
    result is read off the reply when a request was sent and is an error
    otherwise. *)
Lemma resolve_and_execute_cases srv up name typedArgs op urlPath queryParams data
    headers c :
  let auth_stage := resolve_auth srv up op (default ∅ typedArgs) headers c in
  let run := resolve_and_execute srv up name typedArgs op urlPath queryParams data
               headers c in
  snd (fst run) = snd (fst auth_stage)
  /\ ((snd run = snd auth_stage
       /\ exists message details, fst (fst run) = Returned (ErrorResult message details))
      \/ exists cfg,
           snd run = snd auth_stage ++ [Request cfg]
           /\ fst (fst run) = answer name typedArgs cfg (api up cfg)).
Proof.
  cbv zeta. unfold resolve_and_execute.
  destruct (resolve_auth srv up op (default ∅ typedArgs) headers c) as [[r c2] tr2].
  destruct r as [e|[headers' useBasicAuth]]; simpl.
  - split; [reflexivity|]. left. split; [reflexivity|]. eauto.
  - destruct (useBasicAuth && (String.eqb (username (config c2)) ""
                               || String.eqb (password (config c2)) "")); simpl.
    + split; [reflexivity|]. left. split; [reflexivity|]. eauto.
    + match goal with |- context [api up ?cfg] => set (sent := cfg) end.
      assert (Hecho : without_auth sent
                      = {| cfg_method := method op; url := urlPath;
                           params := if Nat.eqb (size queryParams) 0 then None
                                     else Some queryParams;
                           data := data; headers := headers'; auth := None |}).
      { subst sent. now destruct useBasicAuth. }
      destruct (api up sent) as [reason|payload] eqn:Hreply; simpl.
      * split; [reflexivity|]. right. exists sent. split; [reflexivity|].
        rewrite Hreply. simpl. now rewrite Hecho.
      * split; [reflexivity|]. right. exists sent. split; [reflexivity|].
        now rewrite Hreply.
Qed.

(** The trace of a call: vendor-token fetches, then at most one
    authentication exchange, then at most the request, whose reply
    settles the answer. *)
Lemma callTool_trace srv up c name typedArgs :
  exists fetches auths sent,
    snd (callTool srv up c name typedArgs) = fetches ++ auths ++ sent
    /\ vendor_only fetches
    /\ (auths = [] \/ exists u p x, auths = [Authenticate u p x])
    /\ ((sent = []
         /\ ~ answers_a_reply (fst (fst (callTool srv up c name typedArgs))))
        \/ exists cfg,
             sent = [Request cfg]
             /\ fst (fst (callTool srv up c name typedArgs))
                = answer name typedArgs cfg (api up cfg)).
Proof.
  assert (Hquiet : forall out c',
            ~ answers_a_reply out ->
            callTool srv up c name typedArgs = (out, c', []) ->
            exists fetches auths sent,
              snd (callTool srv up c name typedArgs) = fetches ++ auths ++ sent
              /\ vendor_only fetches
              /\ (auths = [] \/ exists u p x, auths = [Authenticate u p x])
              /\ ((sent = []
                   /\ ~ answers_a_reply (fst (fst (callTool srv up c name typedArgs))))
                  \/ exists cfg,
                       sent = [Request cfg]
                       /\ fst (fst (callTool srv up c name typedArgs))
                          = answer name typedArgs cfg (api up cfg))).
  { intros out c' Hout ->. exists [], [], []. simpl.
    repeat split; [constructor|now left|]. left. now split. }
  assert (Hfound : forall op c0,
            callTool srv up c name typedArgs = dispatch srv up name typedArgs op c0 ->
            exists fetches auths sent,
              snd (callTool srv up c name typedArgs) = fetches ++ auths ++ sent
              /\ vendor_only fetches
              /\ (auths = [] \/ exists u p x, auths = [Authenticate u p x])
              /\ ((sent = []
                   /\ ~ answers_a_reply (fst (fst (callTool srv up c name typedArgs))))
                  \/ exists cfg,
                       sent = [Request cfg]
                       /\ fst (fst (callTool srv up c name typedArgs))
                          = answer name typedArgs cfg (api up cfg))).
  { intros op c0 ->. rewrite dispatch_stages. cbv zeta.
    pose proof (header_loop_spec up op (default ∅ typedArgs) (headerParams op) ∅ c0)
      as [_ Hvendor].
    set (built := header_loop up op (default ∅ typedArgs) (headerParams op) ∅ c0) in *.
    destruct (filteredMissing (missingInputs up op (default ∅ typedArgs) c0)) as [|m l].
    - pose proof (resolve_and_execute_cases srv up name typedArgs op
                    (fst (build_url op (default ∅ typedArgs)))
                    (fst (query_loop op (default ∅ typedArgs) (queryParams op) ∅))
                    (get (default ∅ typedArgs) "body")
                    (fst (fst (fst built))) (snd (fst built))) as Hrun.
      cbv zeta in Hrun. destruct Hrun as [_ Hrun].
      pose proof (resolve_auth_trace srv up op (default ∅ typedArgs)
                    (fst (fst (fst built))) (snd (fst built))) as Hauth.
      set (auths := snd (resolve_auth srv up op (default ∅ typedArgs)
                           (fst (fst (fst built))) (snd (fst built)))) in *.
      assert (Hauths : auths = [] \/ exists u p x, auths = [Authenticate u p x])
        by (destruct Hauth as [[H _]|H]; [now left|now right]).
      destruct Hrun as [[Htr (message & details & Hout)]|(cfg & Htr & Hout)].
      + exists (snd built), auths, []. simpl. rewrite Htr, app_nil_r.
        repeat split; [exact Hvendor|exact Hauths|].
        left. split; [reflexivity|]. rewrite Hout. no_reply.
      + exists (snd built), auths, [Request cfg]. simpl. rewrite Htr.
        repeat split; [exact Hvendor|exact Hauths|].
        right. exists cfg. now split.
    - exists (snd built), [], []. simpl. rewrite app_nil_r.
      repeat split; [exact Hvendor|now left|].
      left. split; [reflexivity|]. no_reply. }
  unfold callTool in *. destruct (negb (isReady srv)).
  { eapply Hquiet; [|reflexivity]. no_reply. }
  assert (Hlookup : forall c0,
            (exists out c', ~ answers_a_reply out
                            /\ lookup_and_dispatch srv up name typedArgs c0 = (out, c', []))
            \/ exists op, lookup_and_dispatch srv up name typedArgs c0
                          = dispatch srv up name typedArgs op c0).
  { intros c0. unfold lookup_and_dispatch.
    destruct (operationMap srv !! name) as [op|].
    - right. now exists op.
    - left. eexists _, _. split; [|reflexivity]. no_reply. }
  destruct (requested_proxy typedArgs) as [id|].
  - destruct (String.eqb name "getProxyUsers").
    + eapply Hquiet; [|reflexivity]. no_reply.
    + destruct (Hlookup (setProxyUserId (Some id) c)) as [(out & c' & Hout & H)|[op H]].
      * eapply Hquiet; eassumption.
      * eapply Hfound; eassumption.
  - destruct (Hlookup c) as [(out & c' & Hout & H)|[op H]].
    + eapply Hquiet; eassumption.
    + eapply Hfound; eassumption.
Qed.

(** X10: a call sends at most one request and makes at most one
    authentication exchange, whatever the server, the upstream and the
    arguments are; a request that is sent is the last exchange of the
    call. *)
Theorem call_sends_at_most_once srv up c name typedArgs :
  List.length (requests (snd (callTool srv up c name typedArgs))) <= 1
  /\ exchanges (snd (callTool srv up c name typedArgs)) <= 1
  /\ forall cfg,
       In cfg (requests (snd (callTool srv up c name typedArgs))) ->
       exists before,
         snd (callTool srv up c name typedArgs) = before ++ [Request cfg]
         /\ requests before = [].
Proof.
  destruct (callTool_trace srv up c name typedArgs)
    as (fetches & auths & sent & -> & Hvendor & Hauths & Hsent).
  rewrite !requests_app, !exchanges_app.
  rewrite (vendor_only_requests _ Hvendor), (vendor_only_exchanges _ Hvendor).
  assert (Ha : requests auths = [] /\ exchanges auths <= 1).
  { destruct Hauths as [->|(u & p & x & ->)]; split; simpl; auto. }
  destruct Ha as [Hreq Hex]. rewrite Hreq. simpl.
  destruct Hsent as [[-> _]|(cfg & -> & _)]; simpl.
  - change (exchanges []) with 0. split; [lia|]. split; [lia|]. intros cfg [].
  - change (exchanges [Request cfg]) with 0. split; [lia|]. split; [lia|].
    intros cfg' [<-|[]]. exists (fetches ++ auths).
    rewrite <- app_assoc. split; [reflexivity|].
    now rewrite requests_app, (vendor_only_requests _ Hvendor), Hreq.
Qed.



(** X12: a call answers with upstream data only if it sent a request
    (exactly one) and the upstream replied to it with that data. *)
Theorem content_comes_from_the_upstream srv up c name typedArgs payload :
  fst (fst (callTool srv up c name typedArgs)) = Returned (Content payload) ->
  exists cfg,
    requests (snd (callTool srv up c name typedArgs)) = [cfg]
    /\ api up cfg = Replied payload.
Proof.
  destruct (callTool_trace srv up c name typedArgs)
    as (fetches & auths & sent & -> & Hvendor & Hauths & Hsent).
  intros Hout. rewrite !requests_app, (vendor_only_requests _ Hvendor).
  assert (Hreq : requests auths = [])
    by (destruct Hauths as [->|(u & p & x & ->)]; reflexivity).
  rewrite Hreq. simpl.
  destruct Hsent as [[-> Hnone]|(cfg & -> & Hanswer)];
    [destruct Hnone; left; eauto|].
  exists cfg. split; [reflexivity|]. rewrite Hanswer in Hout. unfold answer in Hout.
  destruct (api up cfg) as [reason|data]; [discriminate|].
  injection Hout as Hout. apply format_result_content in Hout. now subst.
Qed.

Lemma content_comes_from_the_upstream_witness :
  exists cfg,
    requests (snd (callTool (loaded stock_document) upstream_without_vendor fresh_client
                     "getStock"
                     (Some {[ "warehouse" := VString "w1"; "sku_id" := VNumber (7%Z ↾ I) ]})))
    = [cfg]
    /\ api upstream_without_vendor cfg = Replied (JObject []).
Proof.
  apply content_comes_from_the_upstream. vm_compute. reflexivity.
Defined.

(* ===================================================================== *)
(** * What a call may change in the session *)
(* ===================================================================== *)

Lemma resolve_and_execute_token srv up name typedArgs op urlPath queryParams data
    headers c :
  exchanges (snd (resolve_and_execute srv up name typedArgs op urlPath queryParams
                    data headers c)) = 0 ->
  apiToken (snd (fst (resolve_and_execute srv up name typedArgs op urlPath queryParams
                        data headers c))) = apiToken c.
Proof.
  pose proof (resolve_and_execute_cases srv up name typedArgs op urlPath queryParams
                data headers c) as Hrun.
  cbv zeta in Hrun. destruct Hrun as [-> Htr].
  destruct (resolve_auth_trace srv up op (default ∅ typedArgs) headers c)
    as [[_ ->]|(u & p & x & Hauth)]; [reflexivity|].
  rewrite Hauth in Htr.
  destruct Htr as [[-> _]|(cfg & -> & _)]; discriminate.
Qed.

Lemma dispatch_frame srv up name typedArgs op c :
  let c' := snd (fst (dispatch srv up name typedArgs op c)) in
  let tr := snd (dispatch srv up name typedArgs op c) in
  config c' = config c
  /\ marketplaceId c' = marketplaceId c
  /\ (exchanges tr = 0 -> apiToken c' = apiToken c)
  /\ (vendor_fetches tr = 0 -> amazonAccessToken c' = amazonAccessToken c).
Proof.
  cbv zeta. split; [apply dispatch_config|].
  rewrite dispatch_vendor_session, dispatch_stages. cbv zeta.
  pose proof (header_loop_spec up op (default ∅ typedArgs) (headerParams op) ∅ c)
    as [(Hconfig & Hmarket & Htoken) Hvendor].
  pose proof (header_loop_no_fetch up op (default ∅ typedArgs) (headerParams op) ∅ c)
    as Hfetch.
  set (built := header_loop up op (default ∅ typedArgs) (headerParams op) ∅ c) in *.
  destruct (filteredMissing (missingInputs up op (default ∅ typedArgs) c)) as [|m l];
    simpl.
  - match goal with |- context [resolve_and_execute ?s ?u ?n ?t ?o ?p ?q ?d ?h ?k] =>
      pose proof (resolve_and_execute_config s u n t o p q d h k) as (_ & Hm & _);
      pose proof (resolve_and_execute_token s u n t o p q d h k) as Ht;
      set (run := resolve_and_execute s u n t o p q d h k) in *
    end.
    split; [congruence|]. split.
    + rewrite exchanges_app. intros H. rewrite Ht by lia. exact Htoken.
    + rewrite vendor_fetches_app. intros H. rewrite Hfetch by lia. reflexivity.
  - split; [exact Hmarket|]. split; [intros _; exact Htoken|].
    intros H. now rewrite Hfetch.
Qed.

Lemma lookup_and_dispatch_frame srv up name typedArgs c :
  let c' := snd (fst (lookup_and_dispatch srv up name typedArgs c)) in
  let tr := snd (lookup_and_dispatch srv up name typedArgs c) in
  config c' = config c
  /\ marketplaceId c' = marketplaceId c
  /\ (exchanges tr = 0 -> apiToken c' = apiToken c)
  /\ (vendor_fetches tr = 0 -> amazonAccessToken c' = amazonAccessToken c).
Proof.
  unfold lookup_and_dispatch.
  destruct (operationMap srv !! name) as [op|]; [apply dispatch_frame|].
  cbv zeta. simpl. auto.
Qed.

Lemma callTool_token srv up c name typedArgs :
  exchanges (snd (callTool srv up c name typedArgs)) = 0 ->
  apiToken (snd (fst (callTool srv up c name typedArgs))) = apiToken c.
Proof.
  unfold callTool. destruct (negb (isReady srv)); [reflexivity|].
  destruct (requested_proxy typedArgs) as [id|].
  - destruct (String.eqb name "getProxyUsers"); [reflexivity|].
    intros H.
    now apply (lookup_and_dispatch_frame srv up name typedArgs (setProxyUserId (Some id) c)).
  - intros H. now apply (lookup_and_dispatch_frame srv up name typedArgs c).
Qed.

(** X13: what a call may change in the session.  The base URL, the
    static credentials and the marketplace never change; the delegated
    user is the one a call selects, when the server is ready, and is kept
    otherwise; the cached bearer token changes only in a call that makes
    an authentication exchange (an [api_token] argument is never cached);
    the cached vendor token changes only in a call that fetches one. *)
Theorem call_session_frame srv up c name typedArgs :
  let c' := snd (fst (callTool srv up c name typedArgs)) in
  let tr := snd (callTool srv up c name typedArgs) in
  baseUrl (config c') = baseUrl (config c)
  /\ username (config c') = username (config c)
  /\ password (config c') = password (config c)
  /\ marketplaceId c' = marketplaceId c
  /\ proxyUserId (config c')
     = (if isReady srv
        then match requested_proxy typedArgs with
             | Some id => Some id
             | None => proxyUserId (config c)
             end
        else proxyUserId (config c))
  /\ (exchanges tr = 0 -> apiToken c' = apiToken c)
  /\ (vendor_fetches tr = 0 -> amazonAccessToken c' = amazonAccessToken c).
Proof.
  cbv zeta. unfold callTool. destruct (isReady srv); simpl; [|auto 10].
  destruct (requested_proxy typedArgs) as [id|].
  - destruct (String.eqb name "getProxyUsers"); simpl; [auto 10|].
    destruct (lookup_and_dispatch_frame srv up name typedArgs (setProxyUserId (Some id) c))
      as (Hc & Hm & Ht & Hv).
    rewrite Hc, Hm. simpl. auto 10.
  - destruct (lookup_and_dispatch_frame srv up name typedArgs c) as (Hc & Hm & Ht & Hv).
    rewrite Hc, Hm. auto 10.
Qed.

(* ===================================================================== *)
(** * The security requirement *)
(* ===================================================================== *)

Lemma header_loop_credentials (up : Upstream) (op : Operation) (args : gmap string value)
    (typedArgs : option (gmap string value)) (c : Client) :
  has_credentials
    (snd (fst (header_loop up op args (headerParams op) ∅ (with_proxy typedArgs c))))
  = has_credentials c.
Proof.
  destruct (header_loop_spec up op args (headerParams op) ∅ (with_proxy typedArgs c))
    as [(Hconfig & _) _].
  destruct (with_proxy_credentials typedArgs c) as (Hu & Hp & _).
  unfold has_credentials. now rewrite Hconfig, Hu, Hp.
Qed.

(** X14: an operation whose first security requirement selects basic
    authentication cannot be called by a session that lacks the user
    name or the password: the call ends in the error-flagged result that
    asks for both, and neither a request nor an authentication exchange
    is made. *)
Theorem basic_needs_static_credentials srv up c name typedArgs op requirement rest :
  isReady srv = true ->
  not_acknowledged name typedArgs ->
  operationMap srv !! name = Some op ->
  filteredMissing (missingInputs up op (default ∅ typedArgs) (with_proxy typedArgs c)) = [] ->
  security op = requirement :: rest ->
  uses_basic srv requirement = true ->
  has_credentials c = false ->
  fails_with (fst (fst (callTool srv up c name typedArgs)))
    "SCANPOWER_USERNAME and SCANPOWER_PASSWORD are required for basic authentication"
  /\ requests (snd (callTool srv up c name typedArgs)) = []
  /\ exchanges (snd (callTool srv up c name typedArgs)) = 0.
Proof.
  intros Hready Hack Hop Hcomplete Hsec Hbasic Hcred.
  rewrite (callTool_dispatch srv up c name typedArgs op Hready Hack Hop).
  rewrite dispatch_stages. cbv zeta. rewrite Hcomplete.
  pose proof (header_loop_spec up op (default ∅ typedArgs) (headerParams op) ∅
                (with_proxy typedArgs c)) as [_ Hvendor].
  pose proof (header_loop_credentials up op (default ∅ typedArgs) typedArgs c) as Hsame.
  set (built := header_loop up op (default ∅ typedArgs) (headerParams op) ∅
                  (with_proxy typedArgs c)) in *.
  rewrite (resolve_and_execute_no_credentials srv up name typedArgs op _ _ _ _ _
             (delete "Authorization" (fst (fst (fst built)))) (snd (fst built)) []).
  - simpl. rewrite app_nil_r.
    split; [eexists; reflexivity|].
    split; [now apply vendor_only_requests|now apply vendor_only_exchanges].
  - now apply (resolve_auth_basic srv up op _ _ _ requirement rest).
  - now rewrite Hsame.
Qed.

Lemma basic_needs_static_credentials_witness :
  fails_with
    (fst (fst (callTool (loaded token_document) upstream_without_vendor anonymous_client
                 "getToken" None)))
    "SCANPOWER_USERNAME and SCANPOWER_PASSWORD are required for basic authentication"
  /\ requests (snd (callTool (loaded token_document) upstream_without_vendor
                      anonymous_client "getToken" None)) = []
  /\ exchanges (snd (callTool (loaded token_document) upstream_without_vendor
                       anonymous_client "getToken" None)) = 0.
Proof.
  apply (basic_needs_static_credentials (loaded token_document) upstream_without_vendor
           anonymous_client "getToken" None (operation_of token_document "getToken")
           [("basic_auth", []); ("bearerAuth", [])] []).
  - reflexivity.
  - left. reflexivity.
  - reflexivity.
  - vm_compute. reflexivity.
  - reflexivity.
  - vm_compute. reflexivity.
  - reflexivity.
Defined.

(** X15: when the first security requirement of an operation names
    neither a scheme that selects basic authentication nor a registered
    HTTP bearer scheme (an API key, OAuth2, an undeclared name), the
    request is sent as the header stage left it: no credentials are
    attached and no authentication exchange is made, whatever the later
    requirements of the operation are. *)
Theorem unrecognised_schemes_attach_nothing srv up c name typedArgs op requirement rest :
  isReady srv = true ->
  not_acknowledged name typedArgs ->
  operationMap srv !! name = Some op ->
  filteredMissing (missingInputs up op (default ∅ typedArgs) (with_proxy typedArgs c)) = [] ->
  security op = requirement :: rest ->
  uses_basic srv requirement = false ->
  existsb (indicates_bearer srv) (map fst requirement) = false ->
  exchanges (snd (callTool srv up c name typedArgs)) = 0
  /\ exists cfg,
       requests (snd (callTool srv up c name typedArgs)) = [cfg]
       /\ auth cfg = None
       /\ headers cfg
          = fst (fst (fst (header_loop up op (default ∅ typedArgs) (headerParams op) ∅
                             (with_proxy typedArgs c)))).
Proof.
  intros Hready Hack Hop Hcomplete Hsec Hbasic Hbearer.
  rewrite (callTool_dispatch srv up c name typedArgs op Hready Hack Hop).
  rewrite dispatch_stages. cbv zeta. rewrite Hcomplete.
  pose proof (header_loop_spec up op (default ∅ typedArgs) (headerParams op) ∅
                (with_proxy typedArgs c)) as [_ Hvendor].
  set (built := header_loop up op (default ∅ typedArgs) (headerParams op) ∅
                  (with_proxy typedArgs c)) in *.
  assert (Hauth : resolve_auth srv up op (default ∅ typedArgs) (fst (fst (fst built)))
                    (snd (fst built))
                  = (inr (fst (fst (fst built)), false), snd (fst built), [])).
  { unfold resolve_auth. rewrite Hsec, Hbasic.
    now rewrite (bearer_loop_none srv up _ _ _ _ Hbearer). }
  destruct (resolve_and_execute_sends srv up name typedArgs op
              (fst (build_url op (default ∅ typedArgs)))
              (fst (query_loop op (default ∅ typedArgs) (queryParams op) ∅))
              (get (default ∅ typedArgs) "body") _ _ _ _ _ _ Hauth eq_refl)
    as (Htr & _ & _).
  simpl. rewrite Htr. simpl.
  rewrite exchanges_app, requests_app.
  rewrite (vendor_only_exchanges _ Hvendor), (vendor_only_requests _ Hvendor).
  split; [reflexivity|]. eexists. split; [reflexivity|]. now split.
Qed.

Lemma unrecognised_schemes_attach_nothing_witness :
  exchanges (snd (callTool (loaded reports_document) upstream_without_vendor fresh_client
                    "listReports" None)) = 0
  /\ exists cfg,
       requests (snd (callTool (loaded reports_document) upstream_without_vendor
                        fresh_client "listReports" None)) = [cfg]
       /\ auth cfg = None
       /\ headers cfg = ∅.
Proof.
  apply (unrecognised_schemes_attach_nothing (loaded reports_document)
           upstream_without_vendor fresh_client "listReports" None
           (operation_of reports_document "listReports") [("apiKey", [])]
           [[("bearerAuth", [])]]).
  - reflexivity.
  - left. reflexivity.
  - reflexivity.
  - vm_compute. reflexivity.
  - reflexivity.
  - vm_compute. reflexivity.
  - vm_compute. reflexivity.
Defined.

(* ===================================================================== *)
(** * What a request carries *)
(* ===================================================================== *)

Lemma existsb_eqb_In (k : string) (l : list string) :
  existsb (String.eqb k) l = true <-> In k l.
Proof.
  rewrite existsb_exists. split.
  - intros (x & Hx & Heq). apply String.eqb_eq in Heq. now subst.
  - intros H. exists k. split; [exact H|apply String.eqb_refl].
Qed.

Lemma query_loop_lookup (op : Operation) (args : gmap string value)
    (qs : list string) (acc : gmap string value) (q : string) :
  fst (query_loop op args qs acc) !! q
  = if existsb (String.eqb q) qs && negb (is_undefined (argument args q))
    then Some (argument args q) else acc !! q.
Proof.
  revert acc. induction qs as [|q0 qs IH]; intros acc; [reflexivity|].
  cbn [query_loop existsb].
  destruct (is_undefined (argument args q0)) eqn:Hq0; cbn [negb].
  - specialize (IH acc). destruct (query_loop op args qs acc) as [qp ms].
    cbn [fst] in *. rewrite IH.
    destruct (String.eqb_spec q q0) as [->|Hne]; [|reflexivity].
    rewrite Hq0. cbn [negb]. now rewrite !andb_false_r.
  - rewrite IH. destruct (String.eqb_spec q q0) as [->|Hne]; cbn [orb].
    + rewrite Hq0. cbn [negb]. rewrite andb_true_r.
      rewrite lookup_insert_eq. now destruct (existsb (String.eqb q0) qs).
    + rewrite lookup_insert_ne by congruence. reflexivity.
Qed.

Lemma header_loop_lookup (up : Upstream) (op : Operation) (args : gmap string value)
    (hs : list string) (acc : gmap string value) (c : Client) (k : string) :
  k <> "x-access-token" ->
  fst (fst (fst (header_loop up op args hs acc c))) !! k
  = if existsb (String.eqb k) hs && negb (is_undefined (argument args k))
    then Some (argument args k) else acc !! k.
Proof.
  intros Hk. revert acc c. induction hs as [|h hs IH]; intros acc c; [reflexivity|].
  cbn [header_loop existsb].
  destruct (String.eqb h "x-access-token" && negb (truthy (argument args h))) eqn:Hvendor.
  - apply andb_true_iff in Hvendor as [Hh _]. apply String.eqb_eq in Hh. subst h.
    rewrite (String_eqb_false k "x-access-token" Hk). cbn [orb].
    destruct (vendor_token up c) as [[val c1] tr].
    destruct (negb (is_undefined val)).
    + specialize (IH (<["x-access-token" := val]> acc) c1).
      destruct (header_loop up op args hs (<["x-access-token" := val]> acc) c1)
        as [[[hd ms] c2] tr'].
      cbn [fst] in *. rewrite IH. rewrite lookup_insert_ne by congruence. reflexivity.
    + specialize (IH acc c1).
      destruct (header_loop up op args hs acc c1) as [[[hd ms] c2] tr'].
      cbn [fst] in *. exact IH.
  - destruct (is_undefined (argument args h)) eqn:Hh; cbn [negb].
    + specialize (IH acc c).
      destruct (header_loop up op args hs acc c) as [[[hd ms] c2] tr'].
      cbn [fst] in *. rewrite IH.
      destruct (String.eqb_spec k h) as [->|Hne]; [|reflexivity].
      rewrite Hh. cbn [negb]. now rewrite !andb_false_r.
    + specialize (IH (<[h := argument args h]> acc) c).
      destruct (header_loop up op args hs (<[h := argument args h]> acc) c)
        as [[[hd ms] c2] tr'].
      cbn [fst] in *. rewrite IH.
      destruct (String.eqb_spec k h) as [->|Hne]; cbn [orb].
      * rewrite Hh. cbn [negb]. rewrite andb_true_r.
        rewrite lookup_insert_eq. now destruct (existsb (String.eqb h) hs).
      * rewrite lookup_insert_ne by congruence. reflexivity.
Qed.

(** The request of a call to a found operation, stage by stage. *)
Lemma callTool_request srv up c name typedArgs op cfg :
  operationMap srv !! name = Some op ->
  In cfg (requests (snd (callTool srv up c name typedArgs))) ->
  let args := default ∅ typedArgs in
  let built := header_loop up op args (headerParams op) ∅ (with_proxy typedArgs c) in
  exists headers' useBasicAuth c2 tr2,
    resolve_auth srv up op args (fst (fst (fst built))) (snd (fst built))
    = (inr (headers', useBasicAuth), c2, tr2)
    /\ cfg = final_config op (fst (build_url op args))
               (fst (query_loop op args (queryParams op) ∅))
               (get args "body") headers' useBasicAuth c2.
Proof.
  intros Hop Hin.
  destruct (callTool_cases srv up c name typedArgs)
    as [Hnil|(_ & _ & op' & Hop' & Hcall)]; [now rewrite Hnil in Hin|].
  assert (op' = op) by congruence. subst op'. rewrite Hcall in Hin.
  now apply dispatch_requests in Hin as [_ Hin].
Qed.

(** X16: the query of a dispatched request holds exactly the declared
    query parameters that the arguments give a value other than
    [undefined] ([null] included), each under its declared name (not the
    sanitized one) with the value of the argument; nothing else is added
    to the query.  (The key [__proto__], which a JavaScript object does
    not store as a property of its own, is left aside.) *)
Theorem query_carries_the_declared_values srv up c name typedArgs op cfg :
  operationMap srv !! name = Some op ->
  In cfg (requests (snd (callTool srv up c name typedArgs))) ->
  forall q v,
    q <> "__proto__" ->
    (query_value cfg q = Some v
     <-> In q (queryParams op)
         /\ argument (default ∅ typedArgs) q = v
         /\ v <> VUndefined).
Proof.
  intros Hop Hin q v _.
  destruct (callTool_request srv up c name typedArgs op cfg Hop Hin)
    as (headers' & useBasicAuth & c2 & tr2 & _ & ->).
  unfold query_value, final_config. cbn [params].
  set (sent := fst (query_loop op (default ∅ typedArgs) (queryParams op) ∅)).
  assert (Hsent : ((if Nat.eqb (size sent) 0 then None else Some sent)
                   ≫= fun sent => sent !! q) = sent !! q).
  { destruct (Nat.eqb_spec (size sent) 0) as [Hsize|_]; [|reflexivity].
    apply map_size_empty_iff in Hsize. rewrite Hsize. now rewrite lookup_empty. }
  rewrite Hsent. subst sent. rewrite query_loop_lookup, lookup_empty.
  destruct (existsb (String.eqb q) (queryParams op)) eqn:Hq; cbn [andb].
  - apply existsb_eqb_In in Hq.
    destruct (is_undefined (argument (default ∅ typedArgs) q)) eqn:Hu; cbn [negb].
    + split; [discriminate|]. intros (_ & Heq & Hdef).
      destruct (argument (default ∅ typedArgs) q); try discriminate. congruence.
    + split.
      * intros [= <-]. split; [exact Hq|]. split; [reflexivity|].
        intros Heq. rewrite Heq in Hu. discriminate.
      * now intros (_ & -> & _).
  - split; [discriminate|]. intros (Hin' & _).
    apply existsb_eqb_In in Hin'. congruence.
Qed.

Lemma query_carries_the_declared_values_witness :
  query_value stock_request "sku.id" = Some (VNumber (7%Z ↾ I))
  /\ query_value stock_request "sku_id" = None.
Proof.
  pose proof (query_carries_the_declared_values (loaded stock_document)
                upstream_without_vendor fresh_client "getStock"
                (Some {[ "warehouse" := VString "w1"; "sku_id" := VNumber (7%Z ↾ I) ]})
                (operation_of stock_document "getStock") stock_request
                eq_refl) as Hquery.
  assert (Hsent : In stock_request
                    (requests
                       (snd (callTool (loaded stock_document) upstream_without_vendor
                               fresh_client "getStock"
                               (Some {[ "warehouse" := VString "w1";
                                        "sku_id" := VNumber (7%Z ↾ I) ]})))))
    by (vm_compute; now left).
  specialize (Hquery Hsent). split.
  - apply Hquery; [discriminate|].
    split; [vm_compute; now left|]. split; [reflexivity|discriminate].
  - destruct (query_value stock_request "sku_id") as [v|] eqn:Hv; [|reflexivity].
    apply Hquery in Hv as (Hin & _); [|discriminate]. vm_compute in Hin. destruct Hin as [Hin|[]]. discriminate.
Defined.

(** X17: the headers a dispatched request sets are the declared header
    parameters of the operation and [Authorization], nothing else (the
    delegated user is not among them unless the operation declares such
    a header); a declared header other than the vendor token's is set
    exactly when the arguments give it a value other than [undefined],
    under its declared name and with that value ([__proto__], which a
    JavaScript object does not store as a property of its own, is left
    aside). *)
Theorem headers_carry_the_declared_values srv up c name typedArgs op cfg :
  operationMap srv !! name = Some op ->
  In cfg (requests (snd (callTool srv up c name typedArgs))) ->
  (forall k, is_Some (headers cfg !! k) -> k = "Authorization" \/ In k (headerParams op))
  /\ forall k v,
       k <> "Authorization" -> k <> "x-access-token" -> k <> "__proto__" ->
       (headers cfg !! k = Some v
        <-> In k (headerParams op)
            /\ argument (default ∅ typedArgs) k = v
            /\ v <> VUndefined).
Proof.
  intros Hop Hin.
  destruct (callTool_request srv up c name typedArgs op cfg Hop Hin)
    as (headers' & useBasicAuth & c2 & tr2 & Hauth & ->).
  unfold final_config. cbn [headers].
  assert (Hframe : forall k, k <> "Authorization" ->
            headers' !! k
            = fst (fst (fst (header_loop up op (default ∅ typedArgs) (headerParams op) ∅
                               (with_proxy typedArgs c)))) !! k).
  { intros k Hk.
    pose proof (resolve_auth_frame srv up op (default ∅ typedArgs)
                  (fst (fst (fst (header_loop up op (default ∅ typedArgs)
                                    (headerParams op) ∅ (with_proxy typedArgs c)))))
                  (snd (fst (header_loop up op (default ∅ typedArgs)
                               (headerParams op) ∅ (with_proxy typedArgs c)))))
      as [_ Hkeep].
    apply (Hkeep headers' useBasicAuth k); [now rewrite Hauth|exact Hk]. }
  split.
  - intros k Hsome. destruct (decide (k = "Authorization")) as [->|Hk]; [now left|].
    right. rewrite (Hframe k Hk) in Hsome.
    apply header_loop_names in Hsome as [Hdeclared|Hempty]; [exact Hdeclared|].
    rewrite lookup_empty in Hempty. now destruct Hempty.
  - intros k v Hk Hvendor _. rewrite (Hframe k Hk).
    rewrite header_loop_lookup by exact Hvendor. rewrite lookup_empty.
    destruct (existsb (String.eqb k) (headerParams op)) eqn:Hdeclared; cbn [andb].
    + apply existsb_eqb_In in Hdeclared.
      destruct (is_undefined (argument (default ∅ typedArgs) k)) eqn:Hu; cbn [negb].
      * split; [discriminate|]. intros (_ & Heq & Hdef).
        destruct (argument (default ∅ typedArgs) k); try discriminate. congruence.
      * split.
        -- intros [= <-]. split; [exact Hdeclared|]. split; [reflexivity|].
           intros Heq. rewrite Heq in Hu. discriminate.
        -- now intros (_ & -> & _).
    + split; [discriminate|]. intros (Hin' & _).
      apply existsb_eqb_In in Hin'. congruence.
Qed.

Lemma headers_carry_the_declared_values_witness :
  headers orders_request !! "X-Trace-Id" = Some (VString "t-9")
  /\ ~ is_Some (headers orders_request !! "X-Proxy").
Proof.
  destruct (headers_carry_the_declared_values (loaded orders_document)
              upstream_without_vendor fresh_client "listOrders"
              (Some {[ "X-Trace-Id" := VString "t-9";
                       "proxy_user_id" := VString "u-42" ]})
              (operation_of orders_document "listOrders") orders_request eq_refl)
    as [Hnames Hvalues].
  { vm_compute. now left. }
  split.
  - apply Hvalues; [discriminate|discriminate|discriminate|].
    split; [vm_compute; now left|]. split; [reflexivity|discriminate].
  - intros Hsome. apply Hnames in Hsome as [Heq|Hin]; [discriminate|].
    vm_compute in Hin. destruct Hin as [Hin|[]]. discriminate.
Defined.

(* ===================================================================== *)
(** * The delegated user *)
(* ===================================================================== *)

Lemma dispatch_outcome srv up name typedArgs op c :
  (exists inputs, fst (fst (dispatch srv up name typedArgs op c)) = Returned (Requires inputs))
  \/ (exists message details,
        fst (fst (dispatch srv up name typedArgs op c))
        = Returned (ErrorResult message details))
  \/ (exists payload,
        fst (fst (dispatch srv up name typedArgs op c)) = Returned (Content payload))
  \/ exists users,
       fst (fst (dispatch srv up name typedArgs op c)) = Returned (ProxyUsers users).
Proof.
  rewrite dispatch_stages. cbv zeta.
  destruct (filteredMissing _) as [|m l]; [|left; eexists; reflexivity].
  right. simpl.
  match goal with |- context [resolve_and_execute ?s ?u ?n ?t ?o ?p ?q ?d ?h ?k] =>
    pose proof (resolve_and_execute_cases s u n t o p q d h k) as Hrun;
    cbv zeta in Hrun; destruct Hrun as [_ Hrun];
    set (run := resolve_and_execute s u n t o p q d h k) in *
  end.
  destruct Hrun as [[_ Herr]|(cfg & _ & Hout)]; [now left|].
  rewrite Hout. unfold answer. destruct (api up cfg) as [reason|data]; [left; eauto|].
  right. destruct (format_result_cases name data) as [->|(_ & _ & ->)]; eauto.
Qed.

Lemma requested_proxy_nonempty (typedArgs : option (gmap string value)) (id : string) :
  requested_proxy typedArgs = Some id -> id <> "".
Proof.
  unfold requested_proxy. destruct typedArgs as [args|]; [|discriminate].
  destruct (get args "proxy_user_id"); try discriminate.
  destruct (String.eqb_spec (trim s) "") as [|Hne]; [discriminate|].
  now intros [= <-].
Qed.

(** X18: a call is acknowledged as the selection of a delegated user
    only when it names [getProxyUsers] and carries a [proxy_user_id] that
    is not blank; it contacts no one, and the authentication exchange
    that the session makes next, whichever upstream answers it, carries
    the selected user in [X-Proxy] next to the static credentials. *)
Theorem selected_user_accompanies_authentication srv up c name typedArgs id :
  fst (fst (callTool srv up c name typedArgs)) = Returned (ProxyUserSet id) ->
  name = "getProxyUsers"
  /\ requested_proxy typedArgs = Some id
  /\ id <> ""
  /\ snd (callTool srv up c name typedArgs) = []
  /\ forall up',
       snd (authenticate up' (snd (fst (callTool srv up c name typedArgs))))
       = [Authenticate (username (config c)) (password (config c)) (Some id)].
Proof.
  assert (Hlookup : forall c0,
            fst (fst (lookup_and_dispatch srv up name typedArgs c0))
            <> Returned (ProxyUserSet id)).
  { intros c0. unfold lookup_and_dispatch.
    destruct (operationMap srv !! name) as [op|]; [|discriminate].
    destruct (dispatch_outcome srv up name typedArgs op c0)
      as [[inputs ->]|[(message & details & ->)|[[payload ->]|[users ->]]]];
      discriminate. }
  unfold callTool. destruct (negb (isReady srv)); [discriminate|].
  destruct (requested_proxy typedArgs) as [id'|] eqn:Hproxy;
    [|intros H; now apply Hlookup in H].
  destruct (String.eqb_spec name "getProxyUsers") as [->|Hname];
    [|intros H; now apply Hlookup in H].
  simpl. intros [= <-].
  pose proof (requested_proxy_nonempty _ _ Hproxy) as Hid.
  repeat split; [exact Hid|].
  intros up'. unfold authenticate, proxy_header. simpl.
  rewrite (String_eqb_false id' "" Hid).
  now destruct (token_endpoint up' (Some id')).
Qed.

Lemma selected_user_accompanies_authentication_witness :
  snd (authenticate upstream_with_vendor
         (snd (fst (callTool (loaded account_document) upstream_without_vendor
                      fresh_client "getProxyUsers"
                      (Some {[ "proxy_user_id" := VString " u-42 " ]})))))
  = [Authenticate "seller" "secret" (Some "u-42")].
Proof.
  destruct (selected_user_accompanies_authentication (loaded account_document)
              upstream_without_vendor fresh_client "getProxyUsers"
              (Some {[ "proxy_user_id" := VString " u-42 " ]}) "u-42")
    as (_ & _ & _ & _ & Hnext); [reflexivity|].
  apply Hnext.
Defined.

Lemma same_but_proxy_refl (c : Client) : same_but_proxy c c.
Proof. now repeat split. Qed.

Lemma same_but_proxy_set (p p' : option string) (c c' : Client) :
  same_but_proxy c c' -> same_but_proxy (setProxyUserId p c) (setProxyUserId p' c').
Proof. intros (Hu & Hp & Hm & Ht & Ha). now repeat split. Qed.

Lemma vendor_token_sim (up : Upstream) (c c' : Client) :
  same_but_proxy c c' ->
  fst (fst (vendor_token up c')) = fst (fst (vendor_token up c))
  /\ snd (vendor_token up c') = snd (vendor_token up c)
  /\ same_but_proxy (snd (fst (vendor_token up c))) (snd (fst (vendor_token up c'))).
Proof.
  intros (Hu & Hp & Hm & Ht & Ha). unfold vendor_token, getAmazonAccessToken.
  rewrite Ha, Hm. destruct (truthy (amazonAccessToken c)); simpl.
  - split; [reflexivity|]. split; [reflexivity|]. now repeat split.
  - destruct (access_token_endpoint up (marketplaceId c)); simpl.
    + split; [exact Ha|]. split; [reflexivity|]. now repeat split.
    + split; [reflexivity|]. split; [reflexivity|]. now repeat split.
Qed.

Lemma header_loop_sim (up : Upstream) (op : Operation) (args : gmap string value)
    (hs : list string) (acc : gmap string value) (c c' : Client) :
  same_but_proxy c c' ->
  fst (fst (header_loop up op args hs acc c')) = fst (fst (header_loop up op args hs acc c))
  /\ snd (header_loop up op args hs acc c') = snd (header_loop up op args hs acc c)
  /\ same_but_proxy (snd (fst (header_loop up op args hs acc c)))
       (snd (fst (header_loop up op args hs acc c'))).
Proof.
  revert acc c c'. induction hs as [|h hs IH]; intros acc c c' Hsame.
  { simpl. split; [reflexivity|]. split; [reflexivity|exact Hsame]. }
  cbn [header_loop].
  assert (Hstep : forall val c1 c1' tr,
            same_but_proxy c1 c1' ->
            let step := fun c1 : Client =>
              if negb (is_undefined val)
              then let '(hd, ms, c2, tr') :=
                     header_loop up op args hs (<[h:=val]> acc) c1 in
                   (hd, ms, c2, tr ++ tr')
              else let '(hd, ms, c2, tr') := header_loop up op args hs acc c1 in
                   (hd, (if required (defs_header (paramDefs op)) h
                         then [missing (defs_header (paramDefs op)) h "header"]
                         else []) ++ ms, c2, tr ++ tr') in
            fst (fst (step c1')) = fst (fst (step c1))
            /\ snd (step c1') = snd (step c1)
            /\ same_but_proxy (snd (fst (step c1))) (snd (fst (step c1')))).
  { intros val c1 c1' tr H1. cbv zeta. destruct (negb (is_undefined val)).
    - destruct (IH (<[h:=val]> acc) c1 c1' H1) as (Hhd & Htr & Hc).
      destruct (header_loop up op args hs (<[h:=val]> acc) c1) as [[[hd ms] c2] tr1].
      destruct (header_loop up op args hs (<[h:=val]> acc) c1') as [[[hd' ms'] c2'] tr1'].
      simpl in *. injection Hhd as -> ->. subst tr1'.
      split; [reflexivity|]. split; [reflexivity|exact Hc].
    - destruct (IH acc c1 c1' H1) as (Hhd & Htr & Hc).
      destruct (header_loop up op args hs acc c1) as [[[hd ms] c2] tr1].
      destruct (header_loop up op args hs acc c1') as [[[hd' ms'] c2'] tr1'].
      simpl in *. injection Hhd as -> ->. subst tr1'.
      split; [reflexivity|]. split; [reflexivity|exact Hc]. }
  destruct (String.eqb h "x-access-token" && negb (truthy (argument args h))).
  - destruct (vendor_token_sim up c c' Hsame) as (Hval & Htr & Hc).
    destruct (vendor_token up c) as [[val c1] tr].
    destruct (vendor_token up c') as [[val' c1'] tr'].
    simpl in Hval, Htr, Hc. subst val' tr'. exact (Hstep val c1 c1' tr Hc).
  - exact (Hstep (argument args h) c c' [] Hsame).
Qed.

(** With a cached token RESOLVE_AUTH contacts no one, and its result
    does not depend on the rest of the session. *)
Lemma resolve_auth_cached srv up op args headers (c : Client) :
  truthy (apiToken c) = true ->
  exists r, forall c',
    apiToken c' = apiToken c -> resolve_auth srv up op args headers c' = (r, c', []).
Proof.
  intros Htoken. unfold resolve_auth.
  destruct (security op) as [|requirement rest]; [now eexists|].
  destruct (uses_basic srv requirement); [now eexists|].
  assert (Hloop : exists r, forall c',
            apiToken c' = apiToken c ->
            bearer_loop srv up args (map fst requirement) headers c' = (r, c', [])).
  { induction (map fst requirement) as [|n names IH]; simpl; [now eexists|].
    destruct (indicates_bearer srv n); [|exact IH].
    eexists. intros c' Heq. rewrite attach_bearer_at_hand.
    - rewrite Heq. reflexivity.
    - rewrite Heq. unfold or_else.
      now destruct (truthy (get args "api_token")) eqn:Harg. }
  destruct Hloop as [r Hloop]. eexists. intros c' Heq. now rewrite (Hloop c' Heq).
Qed.

Lemma resolve_and_execute_sim srv up name typedArgs op urlPath queryParams data
    headers (c c' : Client) :
  truthy (apiToken c) = true ->
  same_but_proxy c c' ->
  fst (fst (resolve_and_execute srv up name typedArgs op urlPath queryParams data
              headers c'))
  = fst (fst (resolve_and_execute srv up name typedArgs op urlPath queryParams data
                headers c))
  /\ snd (resolve_and_execute srv up name typedArgs op urlPath queryParams data
            headers c')
     = snd (resolve_and_execute srv up name typedArgs op urlPath queryParams data
              headers c)
  /\ exchanges (snd (resolve_and_execute srv up name typedArgs op urlPath queryParams
                       data headers c)) = 0.
Proof.
  intros Htoken (Hu & Hp & Hm & Ht & Ha).
  destruct (resolve_auth_cached srv up op (default ∅ typedArgs) headers c Htoken)
    as [r Hauth].
  unfold resolve_and_execute.
  rewrite (Hauth c' Ht), (Hauth c eq_refl). rewrite Hu, Hp.
  destruct r as [e|[headers' useBasicAuth]]; [now repeat split|].
  destruct (useBasicAuth && (String.eqb (username (config c)) ""
                             || String.eqb (password (config c)) ""));
    [now repeat split|].
  match goal with |- context [api up ?cfg] => destruct (api up cfg) end;
    now repeat split.
Qed.

Lemma dispatch_sim srv up name typedArgs op (c c' : Client) :
  truthy (apiToken c) = true ->
  same_but_proxy c c' ->
  fst (fst (dispatch srv up name typedArgs op c'))
  = fst (fst (dispatch srv up name typedArgs op c))
  /\ snd (dispatch srv up name typedArgs op c') = snd (dispatch srv up name typedArgs op c)
  /\ exchanges (snd (dispatch srv up name typedArgs op c)) = 0.
Proof.
  intros Htoken Hsame. unfold dispatch.
  destruct (build_url op (default ∅ typedArgs)) as [urlPath ms_path].
  destruct (query_loop op (default ∅ typedArgs) (queryParams op) ∅) as [qp ms_query].
  destruct (header_loop_sim up op (default ∅ typedArgs) (headerParams op) ∅ c c' Hsame)
    as (Hhd & Htr & Hc).
  destruct (header_loop_spec up op (default ∅ typedArgs) (headerParams op) ∅ c)
    as [(_ & _ & Hkept) Hvendor].
  destruct (header_loop up op (default ∅ typedArgs) (headerParams op) ∅ c)
    as [[[hd ms] c1] tr1].
  destruct (header_loop up op (default ∅ typedArgs) (headerParams op) ∅ c')
    as [[[hd' ms'] c1'] tr1'].
  simpl in Hhd, Htr, Hc, Hkept, Hvendor. injection Hhd as -> ->. subst tr1'.
  destruct (filteredMissing _) as [|m l].
  - assert (Htoken1 : truthy (apiToken c1) = true) by now rewrite Hkept.
    destruct (resolve_and_execute_sim srv up name typedArgs op urlPath qp
                (get (default ∅ typedArgs) "body") hd c1 c1' Htoken1 Hc)
      as (Hout & Hsent & Hnone).
    destruct (resolve_and_execute srv up name typedArgs op urlPath qp
                (get (default ∅ typedArgs) "body") hd c1) as [[out c2] tr2].
    destruct (resolve_and_execute srv up name typedArgs op urlPath qp
                (get (default ∅ typedArgs) "body") hd c1') as [[out' c2'] tr2'].
    simpl in *. subst out' tr2'. split; [reflexivity|]. split; [reflexivity|].
    now rewrite exchanges_app, (vendor_only_exchanges _ Hvendor).
  - simpl. split; [reflexivity|]. split; [reflexivity|].
    now apply vendor_only_exchanges.
Qed.

(** X19: while the session holds a bearer token, no call makes an
    authentication exchange, and the delegated user of the session has
    no part in a call: two sessions that differ only in it get the same
    answer and make the same exchanges.  A delegated user selected after
    the token was obtained therefore never reaches the upstream. *)
Theorem delegated_user_is_idle_under_a_cached_token srv up (c c' : Client) name typedArgs :
  truthy (apiToken c) = true ->
  same_but_proxy c c' ->
  fst (fst (callTool srv up c' name typedArgs))
  = fst (fst (callTool srv up c name typedArgs))
  /\ snd (callTool srv up c' name typedArgs) = snd (callTool srv up c name typedArgs)
  /\ exchanges (snd (callTool srv up c name typedArgs)) = 0.
Proof.
  intros Htoken Hsame.
  assert (Hlookup : forall c0 c0',
            truthy (apiToken c0) = true -> same_but_proxy c0 c0' ->
            fst (fst (lookup_and_dispatch srv up name typedArgs c0'))
            = fst (fst (lookup_and_dispatch srv up name typedArgs c0))
            /\ snd (lookup_and_dispatch srv up name typedArgs c0')
               = snd (lookup_and_dispatch srv up name typedArgs c0)
            /\ exchanges (snd (lookup_and_dispatch srv up name typedArgs c0)) = 0).
  { intros c0 c0' H0 Hs. unfold lookup_and_dispatch.
    destruct (operationMap srv !! name) as [op|]; [now apply dispatch_sim|].
    now repeat split. }
  unfold callTool. destruct (negb (isReady srv)); [now repeat split|].
  destruct (requested_proxy typedArgs) as [id|].
  - destruct (String.eqb name "getProxyUsers"); [now repeat split|].
    apply Hlookup; [exact Htoken|now apply same_but_proxy_set].
  - now apply Hlookup.
Qed.

Lemma delegated_user_is_idle_under_a_cached_token_witness :
  snd (callTool (loaded items_document) upstream_without_vendor
         (setProxyUserId (Some "u-42") signed_in_client) "getItem"
         (Some {[ "id" := VString "7" ]}))
  = snd (callTool (loaded items_document) upstream_without_vendor signed_in_client
           "getItem" (Some {[ "id" := VString "7" ]}))
  /\ exchanges (snd (callTool (loaded items_document) upstream_without_vendor
                       signed_in_client "getItem" (Some {[ "id" := VString "7" ]}))) = 0.
Proof.
  apply (delegated_user_is_idle_under_a_cached_token (loaded items_document)
           upstream_without_vendor signed_in_client
           (setProxyUserId (Some "u-42") signed_in_client) "getItem"
           (Some {[ "id" := VString "7" ]})).
  - reflexivity.
  - now repeat split.
Defined.

(* ===================================================================== *)
(** * Startup *)
(* ===================================================================== *)

Lemma http_url_not_blob (src : string) : is_http_url src = true -> is_blob_url src = false.
Proof.
  unfold is_http_url, is_blob_url. cbv zeta.
  destruct (toLowerCase src) as [|a l]; [discriminate|].
  cbn [String.prefix].
  destruct (ascii_dec "h" a) as [<-|Hh]; [reflexivity|discriminate].
Qed.

Lemma url_not_empty (src : string) :
  is_http_url src || is_blob_url src = true -> String.eqb src "" = false.
Proof. destruct src; [discriminate|reflexivity]. Qed.

(** X20: a specification source that is an HTTP(S) URL is fetched
    exactly once, and the state of the server afterwards depends on the
    answer alone, not on what the tables held before: a document gives
    the tables compiled from it, a failed fetch or an answer that does
    not parse gives a ready server without tools, and a [null] answer
    empties the tables and leaves the readiness flag as it was. *)
Theorem url_source_is_fetched_once (src : string) (fetch : string -> Fetched)
    (srv : Server) :
  is_http_url src = true ->
  snd (loadOpenApiAndGenerateTools (Some src) fetch srv) = [src]
  /\ fst (loadOpenApiAndGenerateTools (Some src) fetch srv)
     = match fetch src with
       | Parsed (Some doc) => loaded doc
       | Parsed None => clear_tables srv
       | FetchFailed | Unparseable => ready_without_tools
       end.
Proof.
  intros Hurl. unfold loadOpenApiAndGenerateTools.
  rewrite (url_not_empty src) by now rewrite Hurl.
  rewrite Hurl, (http_url_not_blob src Hurl). cbn [negb andb orb].
  destruct (fetch src) as [| |[doc|]]; split; reflexivity.
Qed.

Lemma url_source_is_fetched_once_witness :
  snd (loadOpenApiAndGenerateTools (Some "HTTPS://unity.scanpower.com/spec.json")
         (serve stock_document) (loaded items_document))
  = ["HTTPS://unity.scanpower.com/spec.json"]
  /\ fst (loadOpenApiAndGenerateTools (Some "HTTPS://unity.scanpower.com/spec.json")
            (serve stock_document) (loaded items_document))
     = loaded stock_document.
Proof.
  apply (url_source_is_fetched_once "HTTPS://unity.scanpower.com/spec.json"
           (serve stock_document) (loaded items_document)).
  reflexivity.
Defined.

(** X21: a blob URL as specification source is never fetched; the server
    becomes ready without tools, so that it lists nothing and every call
    that is not the selection of a delegated user is rejected with the
    [TypeError] of the unknown tool, without any exchange. *)
Theorem blob_source_is_never_fetched (src : string) (fetch : string -> Fetched)
    (up : Upstream) (c : Client) (name : string)
    (typedArgs : option (gmap string value)) :
  is_blob_url src = true ->
  run (Some src) fetch = (ready_without_tools, [])
  /\ listTools (fst (run (Some src) fetch)) = []
  /\ snd (callTool (fst (run (Some src) fetch)) up c name typedArgs) = []
  /\ (not_acknowledged name typedArgs ->
      fst (fst (callTool (fst (run (Some src) fetch)) up c name typedArgs))
      = Rejected undefined_method_TypeError).
Proof.
  intros Hblob.
  assert (Hrun : run (Some src) fetch = (ready_without_tools, [])).
  { unfold run, loadOpenApiAndGenerateTools.
    rewrite (url_not_empty src) by (rewrite Hblob; apply orb_true_r).
    rewrite Hblob, orb_true_r. reflexivity. }
  rewrite Hrun. split; [reflexivity|]. split; [reflexivity|].
  cbn [fst]. unfold callTool. cbn [ready_without_tools set_ready isReady negb].
  assert (Hlookup : forall c0,
            lookup_and_dispatch ready_without_tools up name typedArgs c0
            = (Rejected undefined_method_TypeError, c0, [])).
  { intros c0. now apply lookup_and_dispatch_unknown. }
  destruct (requested_proxy typedArgs) as [id|] eqn:Hproxy.
  - destruct (String.eqb_spec name "getProxyUsers") as [->|Hname].
    + split; [reflexivity|]. intros [Hnone|Hname]; congruence.
    + rewrite Hlookup. now split.
  - rewrite Hlookup. now split.
Qed.

Lemma blob_source_is_never_fetched_witness :
  run (Some "blob:https://unity.scanpower.com/1f0e") (serve stock_document)
  = (ready_without_tools, [])
  /\ fst (fst (callTool
                 (fst (run (Some "blob:https://unity.scanpower.com/1f0e")
                         (serve stock_document)))
                 upstream_without_vendor fresh_client "getStock" None))
     = Rejected undefined_method_TypeError.
Proof.
  destruct (blob_source_is_never_fetched "blob:https://unity.scanpower.com/1f0e"
              (serve stock_document) upstream_without_vendor fresh_client "getStock" None)
    as (Hrun & _ & _ & Hcall); [reflexivity|].
  split; [exact Hrun|]. apply Hcall. now left.
Defined.

(** X22: after startup the server is ready exactly when the
    specification source is a blob URL, or an HTTP(S) URL whose answer
    is not the JSON value [null] (or another falsy one); with no source,
    or one that is no URL, nothing is fetched and the server is never
    ready. *)
Theorem startup_readiness (specSource : option string) (fetch : string -> Fetched) :
  (isReady (fst (run specSource fetch)) = true
   <-> exists src,
         specSource = Some src
         /\ (is_blob_url src = true
             \/ (is_http_url src = true /\ fetch src <> Parsed None)))
  /\ ((forall src, specSource = Some src -> is_http_url src = false) ->
      snd (run specSource fetch) = []).
Proof.
  unfold run, loadOpenApiAndGenerateTools. split.
  - destruct specSource as [src|]; [|split; [discriminate|now intros (src & [=] & _)]].
    destruct (is_blob_url src) eqn:Hblob.
    + rewrite (url_not_empty src) by (rewrite Hblob; apply orb_true_r).
      rewrite orb_true_r. cbn [negb andb]. split; [|reflexivity].
      intros _. exists src. split; [reflexivity|now left].
    + destruct (is_http_url src) eqn:Hurl.
      * rewrite (url_not_empty src) by now rewrite Hurl.
        cbn [negb andb orb]. destruct (fetch src) as [| |[doc|]] eqn:Hfetch; simpl.
        -- split; [|reflexivity]. intros _. exists src. split; [reflexivity|].
           right. split; [exact Hurl|]. congruence.
        -- split; [|reflexivity]. intros _. exists src. split; [reflexivity|].
           right. split; [exact Hurl|]. congruence.
        -- split; [|reflexivity]. intros _. exists src. split; [reflexivity|].
           right. split; [exact Hurl|]. congruence.
        -- split; [discriminate|]. intros (src' & [= <-] & [H|[_ H]]); congruence.
      * rewrite andb_false_r. simpl. split; [discriminate|].
        intros (src' & [= <-] & [H|[H _]]); congruence.
  - intros Hnone. destruct specSource as [src|]; [|reflexivity].
    rewrite (Hnone src eq_refl). cbn [orb].
    destruct (String.eqb src ""); destruct (is_blob_url src); reflexivity.
Qed.

(* ===================================================================== *)
(** * [makeRequest] *)
(* ===================================================================== *)

(** X23: [makeRequest] sends one request, with no header or credentials
    of its own, so the token handed to it does not travel with that
    request; but the token is cached, and a later call of the session to
    an operation secured by a bearer scheme, which brings no [api_token]
    of its own, is sent with it, without any authentication exchange. *)
Theorem makeRequest_token_serves_later_calls srv up method endpoint data params token
    (c : Client) name typedArgs op :
  truthy token = true ->
  truthy (get (default ∅ typedArgs) "api_token") = false ->
  bearer_call srv up (snd (fst (makeRequest up method endpoint data params token c)))
    name typedArgs op ->
  (exists cfg,
     snd (makeRequest up method endpoint data params token c) = [Request cfg]
     /\ headers cfg = ∅ /\ auth cfg = None)
  /\ sends_with_bearer
       (snd (callTool srv up (snd (fst (makeRequest up method endpoint data params token c)))
               name typedArgs))
       token 0.
Proof.
  intros Htoken Harg Hcall. split.
  { eexists. split; [reflexivity|]. now split. }
  pose proof (bearer_resolution srv up _ name typedArgs op Hcall) as [Hcached _].
  cbv zeta in Hcached. revert Hcached.
  unfold makeRequest. rewrite Htoken. cbn [fst snd setApiToken apiToken].
  rewrite (or_else_fallback _ token Harg). intros Hcached.
  now apply Hcached.
Qed.

Lemma makeRequest_token_serves_later_calls_witness :
  sends_with_bearer
    (snd (callTool (loaded items_document) upstream_without_vendor
            (snd (fst (makeRequest upstream_without_vendor GET "/api/v2/account"
                         VUndefined None (VString "t9") fresh_client)))
            "getItem" (Some {[ "id" := VString "7" ]})))
    (VString "t9") 0.
Proof.
  apply (makeRequest_token_serves_later_calls (loaded items_document)
           upstream_without_vendor GET "/api/v2/account" VUndefined None (VString "t9")
           fresh_client "getItem" (Some {[ "id" := VString "7" ]})
           (operation_of items_document "getItem")).
  - reflexivity.
  - reflexivity.
  - split.
    + reflexivity.
    + right. discriminate.
    + reflexivity.
    + vm_compute. reflexivity.
    + exists [("bearerAuth", [])], []. repeat split; reflexivity.
Defined.

(* ===================================================================== *)
(** * Parameters declared twice *)
(* ===================================================================== *)

Lemma find_def_located (loc : string) (ps : list ParamDef) (n : string) :
  find_def (located loc ps) n
  = List.find (fun d => String.eqb (pd_in d) loc && String.eqb (pd_name d) n) ps.
Proof.
  unfold find_def, located. induction ps as [|d ps IH]; [reflexivity|].
  cbn [List.filter List.find].
  destruct (String.eqb (pd_in d) loc); cbn [andb List.find]; [|exact IH].
  destruct (String.eqb (pd_name d) n); [reflexivity|exact IH].
Qed.

Lemma find_def_first (doc : OpenApi) (d : ParamDef) (pre post : list ParamEntry) :
  Forall (other_than doc d) pre ->
  find_def (located (pd_in d) (omap (resolve doc) (pre ++ Inline d :: post))) (pd_name d)
  = Some d.
Proof.
  intros Hpre. rewrite find_def_located.
  induction Hpre as [|entry pre Hentry _ IH]; simpl.
  - now rewrite !String.eqb_refl.
  - destruct (resolve doc entry) as [d'|] eqn:Hresolve; [|exact IH].
    cbn [List.find].
    destruct (String.eqb_spec (pd_in d') (pd_in d)) as [Hin|_]; [|exact IH].
    destruct (String.eqb_spec (pd_name d') (pd_name d)) as [Hname|_]; [|exact IH].
    now destruct (Hentry d' Hresolve Hname).
Qed.

(** X24: a parameter that the path item declares is the one the
    dispatcher goes by, whatever the operation declares under the same
    name and location: unless an earlier entry of the path item already
    declares it, its definition is the one found for the compiled
    operation, so that an operation cannot make a query or header
    parameter of its path item required, or optional. *)
Theorem path_item_declaration_wins
    (doc : OpenApi) (pathKey : string) (item : PathItem) (m : Method)
    (o : OperationObject) (d : ParamDef) (pre post : list ParamEntry) :
  item_parameters item = pre ++ Inline d :: post ->
  Forall (other_than doc d) pre ->
  let defs := paramDefs (snd (compile_operation doc pathKey item m o)) in
  (pd_in d = "path" -> find_def (defs_path defs) (pd_name d) = Some d)
  /\ (pd_in d = "query" ->
      find_def (defs_query defs) (pd_name d) = Some d
      /\ required (defs_query defs) (pd_name d) = pd_required d)
  /\ (pd_in d = "header" ->
      find_def (defs_header defs) (pd_name d) = Some d
      /\ required (defs_header defs) (pd_name d) = pd_required d).
Proof.
  intros Hitem Hpre. cbv zeta. unfold compile_operation. cbn [snd paramDefs].
  unfold resolved_params. rewrite Hitem, <- app_assoc, <- app_comm_cons.
  pose proof (find_def_first doc d pre (post ++ parameters o) Hpre) as Hfound.
  unfold required.
  split; [|split]; intros Hloc; rewrite Hloc in Hfound; cbn [defs_path defs_query defs_header];
    now rewrite ?Hfound.
Qed.

Lemma path_item_declaration_wins_witness :
  required (defs_query (paramDefs (operation_of users_document "listUsers"))) "limit"
  = false.
Proof.
  destruct (path_item_declaration_wins users_document "/users" users_item GET
              (empty_operation "listUsers" [Inline (query_param "limit" true)] None)
              (query_param "limit" false) [] [])
    as (_ & Hquery & _); [reflexivity|constructor|].
  destruct (Hquery eq_refl) as [_ Hrequired]. exact Hrequired.
Defined.

(* ===================================================================== *)
(** * Elicitation *)
(* ===================================================================== *)

(** X25: a call that is answered with the list of required inputs has
    not authenticated and has sent no request: the only exchanges it can
    have made are fetches of the vendor token, and the cached bearer
    token is as before; the list it returns is not empty. *)
Theorem elicitation_precedes_credentials srv up c name typedArgs inputs :
  fst (fst (callTool srv up c name typedArgs)) = Returned (Requires inputs) ->
  inputs <> []
  /\ vendor_only (snd (callTool srv up c name typedArgs))
  /\ apiToken (snd (fst (callTool srv up c name typedArgs))) = apiToken c.
Proof.
  intros Hout. split; [exact (callTool_requires_nonempty srv up c name typedArgs inputs Hout)|].
  assert (Hvendor : vendor_only (snd (callTool srv up c name typedArgs))).
  { destruct (callTool_cases srv up c name typedArgs)
      as [->|(_ & _ & op & _ & Hcall)]; [constructor|].
    rewrite Hcall in *. revert Hout. rewrite dispatch_stages. cbv zeta.
    destruct (filteredMissing _) as [|mi fm].
    - intros H. now apply resolve_and_execute_outcome in H.
    - intros _. apply header_loop_spec. }
  split; [exact Hvendor|].
  apply callTool_token. now apply vendor_only_exchanges.
Qed.

Lemma elicitation_precedes_credentials_witness :
  vendor_only (snd (callTool (loaded items_document) upstream_without_vendor fresh_client
                      "getItem" None))
  /\ apiToken (snd (fst (callTool (loaded items_document) upstream_without_vendor
                           fresh_client "getItem" None))) = VNull.
Proof.
  apply (elicitation_precedes_credentials (loaded items_document) upstream_without_vendor
           fresh_client "getItem" None
           [ {| ri_name := "id"; ri_description := None; ri_schema := None |} ]).
  reflexivity.
Defined.

(* ===================================================================== *)
(** * The user list *)
(* ===================================================================== *)

Lemma listed_ids (items : list Json) :
  Forall (fun u => user_id u <> "") (listed items).
Proof.
  apply List.Forall_forall. intros u Hu. apply List.filter_In in Hu as [_ Hu].
  intros Heq. rewrite Heq in Hu. discriminate.
Qed.

Lemma proxy_users_ids (data : Json) :
  Forall (fun u => user_id u <> "") (proxy_users data).
Proof.
  unfold proxy_users.
  destruct data; try apply listed_ids; try constructor;
    destruct (json_truthy _); try constructor;
    destruct (member _ "items") as [[]|]; try constructor; apply listed_ids.
Qed.

(** X26: the formatted user list is an answer to [getProxyUsers] only;
    it follows the one request of the call, lists the users read in the
    data of its reply, at least one, and every listed user has an id
    that is not empty (entries without one are dropped). *)
Theorem user_list_comes_from_the_upstream srv up c name typedArgs users :
  fst (fst (callTool srv up c name typedArgs)) = Returned (ProxyUsers users) ->
  name = "getProxyUsers"
  /\ users <> []
  /\ Forall (fun u => user_id u <> "") users
  /\ exists cfg data,
       requests (snd (callTool srv up c name typedArgs)) = [cfg]
       /\ api up cfg = Replied data
       /\ users = proxy_users data.
Proof.
  destruct (callTool_trace srv up c name typedArgs)
    as (fetches & auths & sent & -> & Hvendor & Hauths & Hsent).
  intros Hout. rewrite !requests_app, (vendor_only_requests _ Hvendor).
  assert (Hreq : requests auths = [])
    by (destruct Hauths as [->|(u & p & x & ->)]; reflexivity).
  rewrite Hreq. simpl.
  destruct Hsent as [[-> Hnone]|(cfg & -> & Hanswer)];
    [destruct Hnone; right; eauto|].
  rewrite Hanswer in Hout. unfold answer in Hout.
  destruct (api up cfg) as [reason|data] eqn:Hreply; [discriminate|].
  injection Hout as Hout.
  destruct (format_result_cases name data) as [Hdata|(Hname & Hsome & Hlist)];
    [rewrite Hdata in Hout; discriminate|].
  rewrite Hlist in Hout. injection Hout as <-.
  split; [exact Hname|]. split; [exact Hsome|]. split; [apply proxy_users_ids|].
  exists cfg, data. now repeat split.
Qed.

Lemma user_list_comes_from_the_upstream_witness :
  exists cfg data,
    requests (snd (callTool (loaded account_document) upstream_with_users fresh_client
                     "getProxyUsers" None)) = [cfg]
    /\ api upstream_with_users cfg = Replied data
    /\ [ {| user_id := "42"; user_name := Some "Ann" |} ] = proxy_users data.
Proof.
  apply (user_list_comes_from_the_upstream (loaded account_document) upstream_with_users
           fresh_client "getProxyUsers" None).
  reflexivity.
Defined.

(* ===================================================================== *)
(** * The vendor access token *)
(* ===================================================================== *)

(** X27: for a dispatched call of an operation that declares
    the header parameter [x-access-token], when the caller supplies no
    value for it: with a cached vendor token no fetch is made and every
    request carries the cached token in that header; with none cached
    the token is fetched first, and a token that is obtained is cached
    and carried by every request.  When the fetch fails, the cached
    value stays as it was.  If that value is defined ([null], as at
    startup), every request carries it in the header (no token), the
    missing inputs are those of the operation without that header, and
    with nothing else missing and no security requirement the request is
    sent.  If it is [undefined], no request has the header, and when the
    header is marked required the call is answered by an elicitation
    that lists [x_access_token]. *)
Theorem vendor_access_token_header
    (srv : Server) (up : Upstream) (c : Client) (name : string)
    (typedArgs : option (gmap string value)) (op : Operation) :
  isReady srv = true ->
  not_acknowledged name typedArgs ->
  operationMap srv !! name = Some op ->
  In "x-access-token" (headerParams op) ->
  absent (default ∅ typedArgs) "x-access-token" ->
  let c0 := with_proxy typedArgs c in
  let out := fst (fst (callTool srv up c name typedArgs)) in
  let c' := snd (fst (callTool srv up c name typedArgs)) in
  let tr := snd (callTool srv up c name typedArgs) in
  let carried token :=
    forall cfg, In cfg (requests tr) -> headers cfg !! "x-access-token" = Some token in
  (truthy (amazonAccessToken c) = true ->
   vendor_fetches tr = 0 /\ amazonAccessToken c' = amazonAccessToken c
   /\ carried (amazonAccessToken c))
  /\ (forall token,
        truthy (amazonAccessToken c) = false ->
        access_token_endpoint up (marketplaceId c) = Replied token ->
        truthy token = true ->
        (exists tr', tr = AccessToken (marketplaceId c) :: tr' /\ vendor_fetches tr' = 0)
        /\ amazonAccessToken c' = token /\ carried token)
  /\ (forall reason,
        truthy (amazonAccessToken c) = false ->
        access_token_endpoint up (marketplaceId c) = Failed reason ->
        (exists tr', tr = AccessToken (marketplaceId c) :: tr')
        /\ amazonAccessToken c' = amazonAccessToken c
        /\ (amazonAccessToken c <> VUndefined ->
            carried (amazonAccessToken c)
            /\ missingInputs up op (default ∅ typedArgs) c0
               = missingInputs up (without_header "x-access-token" op)
                   (default ∅ typedArgs) c0
            /\ (filteredMissing (missingInputs up op (default ∅ typedArgs) c0) = [] ->
                security op = [] ->
                exists cfg, requests tr = [cfg]
                            /\ headers cfg !! "x-access-token"
                               = Some (amazonAccessToken c)))
        /\ (amazonAccessToken c = VUndefined ->
            (forall cfg, In cfg (requests tr) -> headers cfg !! "x-access-token" = None)
            /\ (required (defs_header (paramDefs op)) "x-access-token" = true ->
                exists inputs,
                  out = Returned (Requires inputs)
                  /\ In "x_access_token" (map ri_name inputs)
                  /\ requests tr = []))).
Proof.
  intros Hready Hack Hop Hin Habsent. cbv zeta.
  set (args := default ∅ typedArgs) in *.
  set (c0 := with_proxy typedArgs c).
  assert (Harg : truthy (argument args "x-access-token") = false).
  { rewrite (argument_absent args "x-access-token" Habsent); [reflexivity|].
    split; reflexivity. }
  pose proof (with_proxy_credentials typedArgs c) as (_ & _ & _ & Hamz & Hmk).
  fold c0 in Hamz, Hmk.
  pose proof (vendor_header_sent srv up c name typedArgs op Hready Hack Hop Hin Harg)
    as Hsent.
  fold c0 args in Hsent.
  split; [|split].
  - intros Hcached. rewrite <- Hamz in Hcached.
    rewrite (vendor_token_cached up c0 Hcached) in Hsent. simpl in Hsent.
    destruct Hsent as (Hcarried & Hsession & rest & Htr & Hrest).
    { now destruct (amazonAccessToken c0). }
    rewrite (header_loop_cached up op args (headerParams op) ∅ c0 Hcached) in Htr.
    rewrite Htr. simpl. rewrite <- Hamz. repeat split; try assumption.
    intros cfg Hcfg. apply Hcarried. now rewrite Htr.
  - intros token Hnone Hreply Htruthy. rewrite <- Hamz in Hnone. rewrite <- Hmk in Hreply.
    rewrite (vendor_token_fetched up c0 token Hnone Hreply) in Hsent. simpl in Hsent.
    destruct Hsent as (Hcarried & Hsession & rest & Htr & Hrest).
    { now destruct token. }
    assert (Htrace : snd (header_loop up op args (headerParams op) ∅ c0)
                     = [AccessToken (marketplaceId c0)]).
    { clear -Hnone Hreply Htruthy Harg Hin.
      generalize (∅ : gmap string value) as acc.
      induction (headerParams op) as [|h hs IH]; intros acc; [destruct Hin|].
      simpl. destruct (String.eqb h "x-access-token") eqn:Hh.
      - apply String.eqb_eq in Hh. subst h. rewrite Harg. simpl.
        rewrite (vendor_token_fetched up c0 token Hnone Hreply).
        assert (Hdef : is_undefined token = false) by now destruct token.
        rewrite Hdef. simpl.
        pose proof (header_loop_cached up op args hs (<["x-access-token":=token]> acc)
                      (setAmazonAccessToken token c0) Htruthy) as Hnil.
        destruct (header_loop up op args hs _ (setAmazonAccessToken token c0))
          as [[[hd ms] c2] tr']. simpl in *. now rewrite Hnil.
      - simpl. apply String.eqb_neq in Hh.
        destruct Hin as [Heq|Hin']; [congruence|].
        destruct (is_undefined (argument args h)); simpl.
        + specialize (IH Hin' acc).
          now destruct (header_loop up op args hs acc c0) as [[[hd ms] c2] tr'].
        + specialize (IH Hin' (<[h:=argument args h]> acc)).
          now destruct (header_loop up op args hs (<[h:=argument args h]> acc) c0)
            as [[[hd ms] c2] tr']. }
    rewrite Htrace in Htr. rewrite <- Hmk.
    split; [now exists rest|]. split; assumption.
  - intros reason Hnone Hreply. rewrite <- Hamz in Hnone. rewrite <- Hmk in Hreply.
    assert (Hvendor : vendor_token up c0
                      = (amazonAccessToken c0, c0, [AccessToken (marketplaceId c0)]))
      by exact (vendor_token_failed up c0 reason Hnone Hreply).
    pose proof (callTool_dispatch srv up c name typedArgs op Hready Hack Hop) as Hcall.
    fold c0 in Hcall.
    destruct (header_loop_fetches_first up op args Harg (headerParams op) ∅ c0 Hnone Hin)
      as (tr0 & Hfirst).
    destruct (dispatch_trace srv up name typedArgs op c0) as (rest & Htrace & _).
    fold args in Htrace. rewrite Hfirst in Htrace.
    split.
    { rewrite Hcall, Htrace, <- Hmk. now exists (tr0 ++ rest). }
    assert (Hkept : amazonAccessToken
                      (snd (fst (header_loop up op args (headerParams op) ∅ c0)))
                    = amazonAccessToken c0).
    { rewrite (header_loop_vendor_session up op args Harg).
      destruct (existsb _ (headerParams op)); [now rewrite Hvendor|reflexivity]. }
    split.
    { rewrite Hcall, dispatch_vendor_session. fold args. now rewrite Hkept, Hamz. }
    rewrite <- Hamz. split.
    + intros Hdefined.
      rewrite Hvendor in Hsent. simpl in Hsent.
      destruct Hsent as (Hcarried & _ & _).
      { now destruct (amazonAccessToken c0). }
      split; [exact Hcarried|].
      split.
      { apply missingInputs_without_vendor; [exact Harg|].
        rewrite Hvendor. simpl. now destruct (amazonAccessToken c0). }
      intros Hmissing Hopen.
      destruct (callTool_open_sends srv up c name typedArgs op Hready Hack Hop
                  Hmissing Hopen) as (cfg & Hone & _).
      exists cfg. split; [exact Hone|].
      apply Hcarried. rewrite Hone. now left.
    + intros Hundefined.
      destruct (header_loop_vendor_undefined up op args (headerParams op) ∅ c0 reason
                  Harg Hundefined Hreply) as (_ & Hheader & Hmissing).
      split.
      * intros cfg Hcfg. rewrite Hcall in Hcfg.
        apply dispatch_requests in Hcfg as (_ & hd & b & c2 & tr2 & Hauth & ->).
        fold args in Hauth. cbn [final_config headers].
        destruct (resolve_auth_frame srv up op args
                    (fst (fst (fst (header_loop up op args (headerParams op) ∅ c0))))
                    (snd (fst (header_loop up op args (headerParams op) ∅ c0))))
          as [_ Hframe].
        rewrite (Hframe hd b "x-access-token"); [|now rewrite Hauth|discriminate].
        now rewrite Hheader, lookup_empty.
      * intros Hrequired.
        assert (Hlisted : In (missing (defs_header (paramDefs op)) "x-access-token" "header")
                            (filteredMissing (missingInputs up op args c0))).
        { apply List.filter_In. split; [|reflexivity].
          unfold missingInputs. apply in_or_app. right. apply in_or_app. right.
          apply in_or_app. left. now apply Hmissing. }
        rewrite Hcall, dispatch_stages. cbv zeta. fold args.
        pose proof (header_loop_spec up op args (headerParams op) ∅ c0) as [_ Hfetches].
        destruct (filteredMissing (missingInputs up op args c0)) as [|mi fm];
          [destruct Hlisted|].
        exists (map required_input (mi :: fm)). cbn [fst snd].
        split; [reflexivity|]. split; [|now apply vendor_only_requests].
        rewrite map_map. apply in_map_iff.
        exists (missing (defs_header (paramDefs op)) "x-access-token" "header").
        split; [reflexivity|exact Hlisted].
Qed.

Lemma vendor_access_token_header_witness :
  map (fun cfg => headers cfg !! "x-access-token")
    (requests (snd (callTool (loaded catalog_document) upstream_with_vendor fresh_client
                      "searchCatalog" None)))
  = [Some (VString "amz-1")]
  /\ amazonAccessToken (snd (fst (callTool (loaded catalog_document) upstream_with_vendor
                                    fresh_client "searchCatalog" None)))
     = VString "amz-1"
  /\ (forall cfg,
        In cfg (requests (snd (callTool (loaded catalog_document) upstream_without_vendor
                                 fresh_client "searchCatalog" None))) ->
        headers cfg !! "x-access-token" = Some VNull)
  /\ exists inputs,
       fst (fst (callTool (loaded catalog_document) upstream_without_vendor
                   tokenless_client "searchCatalog" None))
       = Returned (Requires inputs)
       /\ In "x_access_token" (map ri_name inputs)
       /\ requests (snd (callTool (loaded catalog_document) upstream_without_vendor
                           tokenless_client "searchCatalog" None)) = [].
Proof.
  destruct (vendor_access_token_header (loaded catalog_document) upstream_with_vendor
              fresh_client "searchCatalog" None
              (operation_of catalog_document "searchCatalog"))
    as (_ & Hfetched & _).
  { reflexivity. }
  { left. reflexivity. }
  { reflexivity. }
  { left. reflexivity. }
  { split; reflexivity. }
  destruct (vendor_access_token_header (loaded catalog_document) upstream_without_vendor
              fresh_client "searchCatalog" None
              (operation_of catalog_document "searchCatalog"))
    as (_ & _ & Hfailed).
  { reflexivity. }
  { left. reflexivity. }
  { reflexivity. }
  { left. reflexivity. }
  { split; reflexivity. }
  destruct (vendor_access_token_header (loaded catalog_document) upstream_without_vendor
              tokenless_client "searchCatalog" None
              (operation_of catalog_document "searchCatalog"))
    as (_ & _ & Hundefined).
  { reflexivity. }
  { left. reflexivity. }
  { reflexivity. }
  { left. reflexivity. }
  { split; reflexivity. }
  destruct (Hfetched (VString "amz-1") eq_refl eq_refl eq_refl) as (_ & Hcached & _).
  destruct (Hfailed "Error: Request failed with status code 500" eq_refl eq_refl)
    as (_ & _ & Hnull & _).
  destruct (Hnull ltac:(discriminate)) as (Hcarried & _).
  destruct (Hundefined "Error: Request failed with status code 500" eq_refl eq_refl)
    as (_ & _ & _ & Hleft).
  destruct (Hleft eq_refl) as (_ & Helicited).
  split; [reflexivity|]. split; [exact Hcached|]. split; [exact Hcarried|].
  apply Helicited. reflexivity.
Defined.
